(** * fprettify: the Fortran line scanner of [fparse_utils.py]

    A shallow embedding of [CharFilter] (the character classifier) and of
    [InputStream.next_fortran_line] (the logical-line assembler), followed by
    the properties established about them.

    Conventions of the embedding.
    - A Python [str] is a [list ascii]; a character is its code point, taken
      in the range 0..255.
    - Python integers that can be negative ([pos], [endpos]) are [Z];
      indices produced by [enumerate] are [nat].
    - The input file is the text still to be read; [readline] takes it up to
      and including the next newline character.
    - [StopIteration] is an ordinary result of the iterator; [IndexError]
      and [RecursionError] are outcomes of the assembler.
    - [CharFilter.__next__] calls itself once for every character that it
      skips, and the interpreter raises [RecursionError] when calls nest
      deeper than it allows. The number of calls that may nest is the
      parameter [limit] of the embedding; a call that would go beyond it
      gives [None].
    - The [while 1] loop of [next_fortran_line] takes a fuel argument; the
      theorems on fuel show how much is enough. *)

From Stdlib Require Import Ascii String.
From Stdlib Require Import List Bool Arith ZArith Lia.
Import ListNotations.

Local Open Scope char_scope.
Local Open Scope list_scope.

(** * The program *)

(** ** Strings *)

Definition str := list ascii.

Definition s (lit : string) : str := list_ascii_of_string lit.

Definition nl : ascii := "010".
Definition tab : ascii := "009".
Definition dquote : ascii := "034".

(** [not x] for a string, a list or a deque. *)
Definition is_empty {A : Type} (x : list A) : bool :=
  match x with [] => true | _ => false end.

Fixpoint str_eqb (a b : str) : bool :=
  match a, b with
  | [], [] => true
  | x :: a', y :: b' => Ascii.eqb x y && str_eqb a' b'
  | _, _ => false
  end.

(** [char in [double quote, single quote]] *)
Definition is_quote (c : ascii) : bool :=
  Ascii.eqb c dquote || Ascii.eqb c "'".

(** [str.isspace] on one character, for code points below 256: the set used
    by [str.strip()] and by [\s] under [re.UNICODE]. *)
Definition is_space (c : ascii) : bool :=
  let n := nat_of_ascii c in
  ((9 <=? n)%nat && (n <=? 13)%nat) || ((28 <=? n)%nat && (n <=? 32)%nat)
  || (n =? 133)%nat || (n =? 160)%nat.

(** Index normalisation of a Python slice bound. *)
Definition clamp (len : nat) (i : Z) : nat :=
  if (i <? 0)%Z then Z.to_nat (Z.max 0 (i + Z.of_nat len))
  else Nat.min (Z.to_nat i) len.

(** [x[a:b]], [x[a:]] and [x[:b]] *)
Definition slice (x : str) (a b : Z) : str :=
  let i := clamp (length x) a in
  let j := clamp (length x) b in
  firstn (j - i) (skipn i x).

Definition slice_from (x : str) (a : Z) : str :=
  skipn (clamp (length x) a) x.

Definition slice_to (x : str) (b : Z) : str :=
  firstn (clamp (length x) b) x.

(** [x.lstrip(...)], [x.rstrip(...)], [x.strip(...)] for a set of characters
    given by its membership test. *)
Fixpoint lstrip_by (p : ascii -> bool) (x : str) : str :=
  match x with
  | [] => []
  | c :: r => if p c then lstrip_by p r else x
  end.

Definition rstrip_by (p : ascii -> bool) (x : str) : str :=
  rev (lstrip_by p (rev x)).

Definition strip_by (p : ascii -> bool) (x : str) : str :=
  rstrip_by p (lstrip_by p x).

Definition strip (x : str) : str := strip_by is_space x.

(** [x[-1]], which raises [IndexError] on the empty string. *)
Definition last_char (x : str) : option ascii :=
  match rev x with
  | [] => None
  | c :: _ => Some c
  end.

(** [x.endswith(c)] for a one-character suffix. *)
Definition endswith (x : str) (c : ascii) : bool :=
  match last_char x with
  | Some d => Ascii.eqb d c
  | None => false
  end.

Fixpoint startswith (x p : str) : bool :=
  match p, x with
  | [], _ => true
  | c :: p', d :: x' => Ascii.eqb c d && startswith x' p'
  | _ :: _, [] => false
  end.

(** [x.replace(sub, '', 1)] for a non-empty [sub]. *)
Fixpoint remove_first (sub x : str) : str :=
  if startswith x sub then skipn (length sub) x
  else match x with
       | [] => []
       | c :: r => c :: remove_first sub r
       end.

(** [x.replace(tab, 8 * space)] *)
Definition expand_tabs (x : str) : str :=
  flat_map (fun c => if Ascii.eqb c tab then repeat " " 8%nat else [c]) x.

(** ** The patterns *)

(** [FYPP_OPEN_RE.search]: some [#{], [${] or [@{] occurs in the text. *)
Definition fypp_open_pair (a b : ascii) : bool :=
  (Ascii.eqb a "#" || Ascii.eqb a "$" || Ascii.eqb a "@") && Ascii.eqb b "{".

Fixpoint FYPP_OPEN_RE (x : str) : bool :=
  match x with
  | a :: (b :: _) as r => fypp_open_pair a b || FYPP_OPEN_RE r
  | _ => false
  end.

(** [FYPP_CLOSE_RE.search]: some [}#], [}$] or [}@] occurs in the text. *)
Definition fypp_close_pair (a b : ascii) : bool :=
  Ascii.eqb a "}" && (Ascii.eqb b "#" || Ascii.eqb b "$" || Ascii.eqb b "@").

Fixpoint FYPP_CLOSE_RE (x : str) : bool :=
  match x with
  | a :: (b :: _) as r => fypp_close_pair a b || FYPP_CLOSE_RE r
  | _ => false
  end.

(** [FYPP_LINE_RE.search]: the text starts with [#!], [#:], [$:] or [@:]. *)
Definition FYPP_LINE_RE (x : str) : bool :=
  match x with
  | a :: b :: _ =>
      (Ascii.eqb a "#" && (Ascii.eqb b "!" || Ascii.eqb b ":"))
      || ((Ascii.eqb a "$" || Ascii.eqb a "@") && Ascii.eqb b ":")
  | _ => false
  end.

(** [CPP_RE.search]: [#] followed by a character other than [!], [:], [{]
    and [}]. *)
Definition CPP_RE (x : str) : bool :=
  match x with
  | a :: b :: _ =>
      Ascii.eqb a "#"
      && negb (Ascii.eqb b "!" || Ascii.eqb b ":" || Ascii.eqb b "{"
               || Ascii.eqb b "}")
  | _ => false
  end.

(** [COMMENT_LINE_STR], the pattern [^!] *)
Definition COMMENT_LINE_RE (x : str) : bool :=
  match x with
  | a :: _ => Ascii.eqb a "!"
  | [] => false
  end.

(** [NOTFORTRAN_LINE_RE.search] *)
Definition NOTFORTRAN_LINE_RE (x : str) : bool :=
  FYPP_LINE_RE x || CPP_RE x || COMMENT_LINE_RE x.

(** Case-insensitive match of one letter, given in lower case. *)
Definition eqb_nocase (low c : ascii) : bool :=
  Ascii.eqb c low
  || Ascii.eqb c (ascii_of_nat (nat_of_ascii low - 32%nat)).

(** [OMP_SUBS_RE.search(line)]: [None] when there is no match, otherwise
    [group(1)], the sentinel as it is written in the line. *)
Definition OMP_SUBS_RE (line : str) : option str :=
  match lstrip_by is_space line with
  | a :: b :: r =>
      if Ascii.eqb a "!" && Ascii.eqb b "$" then
        match r with
        | o :: m :: p :: _ =>
            if eqb_nocase "o" o && eqb_nocase "m" m && eqb_nocase "p" p
            then Some [a; b; o; m; p]
            else Some [a; b]
        | _ => Some [a; b]
        end
      else None
  | _ => None
  end.

(** [OMP_RE.search(line)]: [group(1)] when white space and then [!$] start
    the line. *)
Definition OMP_RE (line : str) : option str :=
  match lstrip_by is_space line with
  | a :: b :: _ =>
      if Ascii.eqb a "!" && Ascii.eqb b "$" then Some [a; b] else None
  | _ => None
  end.

(** [OMP_DIR_RE.search(line)]: [group(1)] when white space and then
    [!$omp], in any case, start the line. *)
Definition OMP_DIR_RE (line : str) : option str :=
  match lstrip_by is_space line with
  | a :: b :: o :: m :: p :: _ =>
      if Ascii.eqb a "!" && Ascii.eqb b "$"
         && eqb_nocase "o" o && eqb_nocase "m" m && eqb_nocase "p" p
      then Some [a; b; o; m; p] else None
  | _ => None
  end.

(** [STR_OPEN_RE.search]: an interpolation marker, a quote or an
    exclamation mark occurs in the text. *)
Definition STR_OPEN_RE (x : str) : bool :=
  FYPP_OPEN_RE x || existsb (fun c => is_quote c || Ascii.eqb c "!") x.

(** ** CharFilter *)

Record CharFilter := mkCharFilter {
  _content : str;
  _it : nat;                 (* [enumerate]: index of the next item *)
  _instring : str;
  _infypp : bool;
  _incomment : str;
  _filter_comments : bool;
  _filter_strings : bool
}.

(** [CharFilter.__init__] *)
Definition CharFilter_init (string : str) (filter_comments filter_strings : bool)
  : CharFilter :=
  {| _content := string; _it := 0%nat; _instring := []; _infypp := false;
     _incomment := []; _filter_comments := filter_comments;
     _filter_strings := filter_strings |}.

(** [CharFilter.update] *)
Definition update (self : CharFilter) (string : str)
  (filter_comments filter_strings : bool) : CharFilter :=
  {| _content := string; _it := 0%nat; _instring := _instring self;
     _infypp := _infypp self; _incomment := _incomment self;
     _filter_comments := filter_comments;
     _filter_strings := filter_strings |}.

(** Assignments to single fields of the object. *)
Definition set_it (self : CharFilter) (i : nat) : CharFilter :=
  {| _content := _content self; _it := i; _instring := _instring self;
     _infypp := _infypp self; _incomment := _incomment self;
     _filter_comments := _filter_comments self;
     _filter_strings := _filter_strings self |}.

Definition set_instring (self : CharFilter) (v : str) (fypp : bool)
  : CharFilter :=
  {| _content := _content self; _it := _it self; _instring := v;
     _infypp := fypp; _incomment := _incomment self;
     _filter_comments := _filter_comments self;
     _filter_strings := _filter_strings self |}.

Definition set_incomment (self : CharFilter) (v : str) : CharFilter :=
  {| _content := _content self; _it := _it self; _instring := _instring self;
     _infypp := _infypp self; _incomment := v;
     _filter_comments := _filter_comments self;
     _filter_strings := _filter_strings self |}.

(** What one call of [__next__] gives: a pair, or [StopIteration]; either
    way with the object as the call left it. *)
Inductive next_result :=
| Yield (pos : nat) (char : ascii) (self : CharFilter)
| StopIteration (self : CharFilter).

(** [CharFilter.__next__] with room for [frames] nested calls, this one
    included; [None] is the [RecursionError] that the interpreter raises
    when no frame is left for a call. Every self-call of lines 123, 124,
    130 and 138 runs with one frame less. *)
Fixpoint next_ (frames : nat) (self : CharFilter) : option next_result :=
  match frames with
  | O => None
  | S frames' =>
    match nth_error (_content self) (_it self) with
    | None => Some (StopIteration self)
    | Some char =>
      let pos := _it self in
      let self := set_it self (S pos) in
      let char2 := slice (_content self) (Z.of_nat pos) (Z.of_nat pos + 2) in
      (* lines 132-140 *)
      let finish (self : CharFilter) : option next_result :=
        if _filter_comments self && negb (is_empty (_incomment self))
        then Some (StopIteration self)
        else if _filter_strings self && negb (is_empty (_instring self))
        then next_ frames' self
        else Some (Yield pos char self) in
      if is_empty (_instring self) then
        if is_empty (_incomment self) then
          if FYPP_OPEN_RE char2 then finish (set_instring self char2 true)
          else if NOTFORTRAN_LINE_RE char2 then
            finish (set_incomment self [char])
          else if is_quote char then
            finish (set_instring self [char] (_infypp self))
          else finish self
        else finish self
      else
        if _infypp self then
          if FYPP_CLOSE_RE char2 then
            let self := set_instring self [] false in
            if _filter_strings self then
              match next_ frames' self with
              | Some (Yield _ _ self') => next_ frames' self'
              | other => other
              end
            else finish self
          else finish self
        else if is_quote char then
          if str_eqb (_instring self) [char] then
            let self := set_instring self [] (_infypp self) in
            if _filter_strings self then next_ frames' self
            else finish self
          else finish self
        else finish self
    end
  end.

(** How a call of the assembler ends: it returns, or raises [IndexError]
    or [RecursionError]; [OutOfFuel] is the fuel of the embedding used
    up. *)
Inductive outcome (A : Type) :=
| Done (a : A)
| IndexError
| RecursionError
| OutOfFuel.
Arguments Done {A} a.
Arguments IndexError {A}.
Arguments RecursionError {A}.
Arguments OutOfFuel {A}.

(** Number of calls that a [for] loop over the object makes at most: one
    for every character left, and the one that raises [StopIteration]. *)
Definition rounds (self : CharFilter) : nat :=
  S (length (_content self) - _it self).

(** ** The recursion limit

    [limit] is the number of calls of [__next__] that the interpreter lets
    nest inside a call made by a [for] loop: its recursion limit less the
    frames in use at that point. Everything from here on is stated for an
    arbitrary [limit]. *)
Section Interpreter.

Variable limit : nat.

(** A call of [__next__] made by a [for] loop. *)
Definition __next__ (self : CharFilter) : option next_result :=
  next_ (S limit) self.

(** [for pos, char in self]: the pairs produced until [StopIteration], and
    the object afterwards; [None] when a call raises [RecursionError]. The
    fuel counts the rounds of the loop, and [rounds self] is enough. *)
Fixpoint iterate_ (fuel : nat) (self : CharFilter)
  : option (list (nat * ascii) * CharFilter) :=
  match fuel with
  | O => None
  | S fuel' =>
    match __next__ self with
    | None => None
    | Some (StopIteration self') => Some ([], self')
    | Some (Yield pos char self') =>
      match iterate_ fuel' self' with
      | None => None
      | Some (ys, self'') => Some ((pos, char) :: ys, self'')
      end
    end
  end.

Definition iterate (self : CharFilter)
  : option (list (nat * ascii) * CharFilter) :=
  iterate_ (rounds self) self.

(** [CharFilter.filter_all] *)
Definition filter_all_ (fuel : nat) (self : CharFilter) : option str :=
  match iterate_ fuel self with
  | None => None
  | Some (ys, _) => Some (map snd ys)
  end.

Definition filter_all (self : CharFilter) : option str :=
  filter_all_ (rounds self) self.

(** ** InputStream *)

(** [infile] is the text that has not been read yet; [filename] plays no
    part in [next_fortran_line] and is left out. The three deques are lists
    with the left end at the head. *)
Record InputStream := mkInputStream {
  line_buffer : list str;
  infile : str;
  line_nr : Z;
  endpos : list Z;
  what_omp : list str
}.

(** [InputStream.__init__] *)
Definition InputStream_init (text : str) : InputStream :=
  {| line_buffer := []; infile := text; line_nr := 0; endpos := [];
     what_omp := [] |}.

(** [infile.readline()]: the next line with its newline, and the rest; the
    empty string at the end of the input. *)
Fixpoint readline (f : str) : str * str :=
  match f with
  | [] => ([], [])
  | c :: r =>
      if Ascii.eqb c nl then ([c], r)
      else let (l, r') := readline r in (c :: l, r')
  end.

(** The three [append] calls that queue one segment. *)
Definition append_segment (self : InputStream) (e : Z) (seg omp : str)
  : InputStream :=
  {| line_buffer := line_buffer self ++ [seg]; infile := infile self;
     line_nr := line_nr self; endpos := endpos self ++ [e];
     what_omp := what_omp self ++ [omp] |}.

(** Variables of the loop of lines 192-198. *)
Record split_vars := mkSplitVars {
  sv_stream : InputStream;
  sv_what_omp : str;
  sv_line_start : Z;
  sv_pos : Z
}.

(** Body of [for pos, char in string_iter] (lines 193-198). *)
Definition split_body (line : str) (v : split_vars) (y : nat * ascii)
  : split_vars :=
  let pos := Z.of_nat (fst y) in
  let char := snd y in
  if Ascii.eqb char ";" || (pos + 1 =? Z.of_nat (length line))%Z then
    {| sv_stream :=
         append_segment (sv_stream v) (pos - sv_line_start v)
           (slice line (sv_line_start v) (pos + 1)) (sv_what_omp v);
       sv_what_omp := [];
       sv_line_start := pos + 1;
       sv_pos := pos |}
  else
    {| sv_stream := sv_stream v; sv_what_omp := sv_what_omp v;
       sv_line_start := sv_line_start v; sv_pos := pos |}.

(** The loop of lines 206-212 on the scanner [it]: [Some (Some pos_add)]
    at the [break] of line 212, reached at the first pair whose
    two-character window of [line] matches [NOTFORTRAN_LINE_RE];
    [Some None] when the scanner is exhausted without a match; [None] when
    a call raises [RecursionError]. The fuel counts the rounds of the
    loop. *)
Fixpoint first_notfortran_ (fuel : nat) (line : str) (pos : Z)
  (it : CharFilter) : option (option Z) :=
  match fuel with
  | O => None
  | S fuel' =>
    match __next__ it with
    | None => None
    | Some (StopIteration _) => Some None
    | Some (Yield pos_add _ it') =>
      let char2 := slice line (pos + 1 + Z.of_nat pos_add)
                     (pos + 3 + Z.of_nat pos_add) in
      if NOTFORTRAN_LINE_RE char2 then Some (Some (Z.of_nat pos_add))
      else first_notfortran_ fuel' line pos it'
    end
  end.

Definition first_notfortran (line : str) (pos : Z) (it : CharFilter)
  : option (option Z) :=
  first_notfortran_ (rounds it) line pos it.

(** The same search in the pairs of a scan that has run to its end. *)
Fixpoint find_notfortran (line : str) (pos : Z) (ys : list (nat * ascii))
  : option Z :=
  match ys with
  | [] => None
  | (pos_add, _) :: r =>
      let char2 := slice line (pos + 1 + Z.of_nat pos_add)
                     (pos + 3 + Z.of_nat pos_add) in
      if NOTFORTRAN_LINE_RE char2 then Some (Z.of_nat pos_add)
      else find_notfortran line pos r
  end.

(** Lines 200-217: what is queued after the loop of lines 192-198, whose
    variables are [v]: the rest of the line when the scan stopped before
    its end, and the whole line when nothing is queued at all. [None] when
    the scan of lines 206-212 raises [RecursionError]. *)
Definition queue_rest (line : str) (fypp_cont : bool) (v : split_vars)
  : option InputStream :=
  let pos := sv_pos v in
  let line_start := sv_line_start v in
  let omp := sv_what_omp v in
  let self := sv_stream v in
  let fallback (self : InputStream) :=
    if is_empty (line_buffer self)
    then append_segment self (Z.of_nat (length line)) line []
    else self in
  if (pos + 1 <? Z.of_nat (length line))%Z then
    if fypp_cont then
      Some (fallback (append_segment self (-1) line omp))
    else
      match first_notfortran line pos
              (CharFilter_init (slice_from line (pos + 1)) false true) with
      | None => None
      | Some (Some pos_add) =>
          Some (fallback
                  (append_segment self (pos + pos_add - line_start)
                     (slice_from line line_start) omp))
      | Some None => Some (fallback self)
      end
  else Some (fallback self).

(** Lines 186-217: split one line, already stripped of its sentinel
    [omp], into segments and queue them. [None] when a scan raises
    [RecursionError]. *)
Definition queue_segments (self : InputStream) (line omp : str)
  (fypp_cont : bool) (string_iter : CharFilter)
  : option (InputStream * CharFilter) :=
  let string_iter := update string_iter line true true in
  match iterate string_iter with
  | None => None
  | Some (ys, string_iter) =>
    let v := fold_left (split_body line) ys
               {| sv_stream := self; sv_what_omp := omp;
                  sv_line_start := 0; sv_pos := -1 |} in
    match queue_rest line fypp_cont v with
    | None => None
    | Some self => Some (self, string_iter)
    end
  end.

(** Lines 177-217: read one physical line, expand its tabs, take off the
    sentinel and queue the segments. *)
Definition refill (self : InputStream) (fypp_cont : bool)
  (string_iter : CharFilter) : option (InputStream * CharFilter) :=
  let (raw, rest) := readline (infile self) in
  let line := expand_tabs raw in
  let self := {| line_buffer := line_buffer self; infile := rest;
                 line_nr := line_nr self + 1; endpos := endpos self;
                 what_omp := what_omp self |} in
  let (omp, line) :=
    match OMP_SUBS_RE line with
    | Some w => (w, remove_first w line)
    | None => ([], line)
    end in
  queue_segments self line omp fypp_cont string_iter.

(** Local variables of [next_fortran_line] that live across iterations. *)
Record locals := mkLocals {
  joined_line : str;
  comments : list str;
  lines : list str;
  continuation : bool;
  fypp_cont : bool;
  string_iter : CharFilter
}.

Definition locals_init : locals :=
  {| joined_line := []; comments := []; lines := []; continuation := false;
     fypp_cont := false; string_iter := CharFilter_init [] true true |}.

Definition set_string_iter (l : locals) (it : CharFilter) : locals :=
  {| joined_line := joined_line l; comments := comments l; lines := lines l;
     continuation := continuation l; fypp_cont := fypp_cont l;
     string_iter := it |}.

(** ['\n' * newline] *)
Definition newline_text (newline : bool) : str :=
  if newline then [nl] else [].

(** Lines 248-252: the new value of [fypp_cont]; [None] is the [IndexError]
    of [line_comments.strip()[-1]]. *)
Definition next_fypp_cont (mark line_comments : str) (fypp_cont : bool)
  : option bool :=
  if is_empty line_comments then Some fypp_cont
  else if FYPP_LINE_RE mark || fypp_cont then
    match last_char (strip line_comments) with
    | None => None
    | Some c => Some (Ascii.eqb c "&")
    end
  else Some false.

(** How one iteration of the loop ends: at the [break] of line 225 (an
    empty segment was popped), at the [break] of line 264 (the logical line
    is complete), or by going round again. *)
Inductive flow := BreakEmpty | BreakComplete | Again.

(** Lines 220-264: pop one segment and add it to the logical line. *)
Definition consume (self : InputStream) (l : locals)
  : outcome (InputStream * locals * flow) :=
  match line_buffer self, endpos self, what_omp self with
  | line :: lb, e :: ep, omp :: wo =>
    let self := {| line_buffer := lb; infile := infile self;
                   line_nr := line_nr self; endpos := ep;
                   what_omp := wo |} in
    if is_empty line then Done (self, l, BreakEmpty)
    else
      let lines' := lines l ++ [omp ++ line] in
      let line_core := slice_to line (e + 1) in
      let mark := slice line (e + 1) (e + 3) in
      let line_comments :=
        if NOTFORTRAN_LINE_RE mark || fypp_cont l
        then slice_from line (e + 1) else [] in
      let newline :=
        match last_char line_core with
        | Some c => Ascii.eqb c nl
        | None => false
        end in
      let line_core := strip line_core in
      let continuation' :=
        if is_empty line_core then continuation l else false in
      let continuation' :=
        if endswith line_core "&" then true else continuation' in
      match next_fypp_cont mark line_comments (fypp_cont l) with
      | None => IndexError
      | Some fypp_cont' =>
        let line_core := strip_by (Ascii.eqb "&") line_core in
        let comments' :=
          comments l ++ [rstrip_by (Ascii.eqb nl) line_comments] in
        let joined' :=
          if is_empty (strip (joined_line l))
          then omp ++ line_core ++ newline_text newline
          else rstrip_by (Ascii.eqb nl) (joined_line l) ++ line_core
               ++ newline_text newline in
        Done (self,
              {| joined_line := joined'; comments := comments';
                 lines := lines'; continuation := continuation';
                 fypp_cont := fypp_cont';
                 string_iter := string_iter l |},
              if continuation' || fypp_cont' then Again else BreakComplete)
      end
  | _, _, _ => IndexError
  end.

(** One iteration of the [while 1] loop: lines 176-264. *)
Definition iteration (self : InputStream) (l : locals)
  : outcome (InputStream * locals * flow) :=
  match (if is_empty (line_buffer self)
         then refill self (fypp_cont l) (string_iter l)
         else Some (self, string_iter l)) with
  | None => RecursionError
  | Some (self, it) => consume self (set_string_iter l it)
  end.

(** The [while 1] loop. *)
Fixpoint while_loop (fuel : nat) (self : InputStream) (l : locals)
  : outcome (InputStream * locals) :=
  match fuel with
  | O => OutOfFuel
  | S fuel' =>
    match iteration self l with
    | Done (self, l, Again) => while_loop fuel' self l
    | Done (self, l, _) => Done (self, l)
    | IndexError => IndexError
    | RecursionError => RecursionError
    | OutOfFuel => OutOfFuel
    end
  end.

(** [InputStream.next_fortran_line]: the returned triple and the stream
    afterwards. *)
Definition next_fortran_line (fuel : nat) (self : InputStream)
  : outcome ((str * list str * list str) * InputStream) :=
  match while_loop fuel self locals_init with
  | Done (self, l) => Done ((joined_line l, comments l, lines l), self)
  | IndexError => IndexError
  | RecursionError => RecursionError
  | OutOfFuel => OutOfFuel
  end.

(** The triple of a call that returned. *)
Definition triple_of (r : outcome ((str * list str * list str) * InputStream))
  : option (str * list str * list str) :=
  match r with Done (t, _) => Some t | _ => None end.

(** * Notions used in the statements and proofs *)

(** The object as a call of [__next__] left it. *)
Definition state_of (r : next_result) : CharFilter :=
  match r with
  | Yield _ _ self => self
  | StopIteration self => self
  end.

(** What a call of [__next__] leaves behind: the text and the filter flags
    are kept, the position never moves back, and moves forward whenever a
    character was left. *)
Definition next_post (self : CharFilter) (r : next_result) : Prop :=
  _content (state_of r) = _content self /\
  _filter_comments (state_of r) = _filter_comments self /\
  _filter_strings (state_of r) = _filter_strings self /\
  (_it self <= _it (state_of r))%nat /\
  (_it self < length (_content self) ->
   _it self < _it (state_of r) <= length (_content self))%nat /\
  (length (_content self) <= _it self -> r = StopIteration self)%nat /\
  match r with
  | Yield pos char _ =>
      (_it self <= pos < _it (state_of r))%nat /\
      nth_error (_content self) pos = Some char
  | StopIteration _ => True
  end.

(** Positions of yielded pairs: ascending, starting at [lo] or later. *)
Fixpoint ascending (lo : nat) (ys : list (nat * ascii)) : Prop :=
  match ys with
  | [] => True
  | (pos, _) :: r => (lo <= pos)%nat /\ ascending (S pos) r
  end.

(** What a complete iteration leaves behind. *)
Definition iterate_post (self : CharFilter) (ys : list (nat * ascii))
  (self' : CharFilter) : Prop :=
  _content self' = _content self /\
  _filter_comments self' = _filter_comments self /\
  _filter_strings self' = _filter_strings self /\
  ascending (_it self) ys /\
  Forall (fun y => nth_error (_content self) (fst y) = Some (snd y)) ys.

(** The joined text of a returned triple. *)
Definition joined_of
  (r : outcome ((str * list str * list str) * InputStream)) : option str :=
  option_map (fun t => fst (fst t)) (triple_of r).

(** [segments n self l self' l']: running the loop from [self] and [l]
    ends in [self'] and [l'] after [n] non-empty segments were popped and
    added to the logical line. *)
Inductive segments
  : nat -> InputStream -> locals -> InputStream -> locals -> Prop :=
| segments_empty self l self' l' :
    iteration self l = Done (self', l', BreakEmpty) ->
    segments 0 self l self' l'
| segments_last self l self' l' :
    iteration self l = Done (self', l', BreakComplete) ->
    segments 1 self l self' l'
| segments_more n self l self1 l1 self' l' :
    iteration self l = Done (self1, l1, Again) ->
    segments n self1 l1 self' l' ->
    segments (S n) self l self' l'.

(** The same object with both filters off: its [__next__] yields every
    character and never calls itself, so that the scan state after each
    character can be read off. *)
Definition unfiltered (self : CharFilter) : CharFilter :=
  {| _content := _content self; _it := _it self;
     _instring := _instring self; _infypp := _infypp self;
     _incomment := _incomment self; _filter_comments := false;
     _filter_strings := false |}.

(** The object after one more character, filters off. *)
Definition observe (self : CharFilter) : CharFilter :=
  match __next__ (unfiltered self) with
  | Some r => unfiltered (state_of r)
  | None => unfiltered self
  end.

(** The object after [n] more characters, filters off. *)
Fixpoint observe_n (n : nat) (self : CharFilter) : CharFilter :=
  match n with
  | O => unfiltered self
  | S n' => observe_n n' (observe self)
  end.

(** Code state: neither in a string or interpolation span nor in a
    comment. *)
Definition code_state (self : CharFilter) : bool :=
  is_empty (_instring self) && is_empty (_incomment self).

(** [reaches a b]: scanning on from [a], filters off, up to the position of
    [b] gives the scan state of [b]. *)
Definition reaches (a b : CharFilter) : Prop :=
  unfiltered b = observe_n (_it b - _it a) a.

(** What a call of [__next__] with both filters on establishes beyond
    [next_post]. *)
Definition next_sync (self : CharFilter) (r : next_result) : Prop :=
  reaches self (state_of r) /\
  match r with
  | Yield pos _ self' =>
      _it self' = S pos /\
      (_filter_strings self = true -> _instring self' = []) /\
      (_filter_comments self = true -> _incomment self' = [])
  | StopIteration _ => True
  end.

(** The pairs of [ys] lie in code state, as the scan with the filters off
    sees it. *)
Definition yields_code (self : CharFilter) (ys : list (nat * ascii)) : Prop :=
  Forall (fun y =>
            code_state (observe_n (S (fst y) - _it self) self) = true) ys.

(** The two-character sequences that start a sentinel, an interpolation
    span or a template line directive. *)
Definition marker_pair (a b : ascii) : bool :=
  (Ascii.eqb a "!" && Ascii.eqb b "$")
  || fypp_open_pair a b
  || FYPP_LINE_RE [a; b].

(** No marker pair occurs in the text. *)
Fixpoint unmarked (x : str) : bool :=
  match x with
  | [] => true
  | a :: r =>
      match r with
      | b :: _ => negb (marker_pair a b)
      | [] => true
      end
      && unmarked r
  end.

(** The text holds a quote character, or a semicolon. *)
Definition has_quote (x : str) : bool := existsb is_quote x.

Definition has_semicolon (x : str) : bool := existsb (Ascii.eqb ";") x.

(** Some line of the text holds both a semicolon and a quote character;
    [semi] and [quote] tell what the line under way has shown so far. *)
Fixpoint mixes (semi quote : bool) (x : str) : bool :=
  match x with
  | [] => false
  | c :: r =>
      if Ascii.eqb c nl then mixes false false r
      else
        let semi := semi || Ascii.eqb ";" c in
        let quote := quote || is_quote c in
        (semi && quote) || mixes semi quote r
  end.

(** Plain input: no marker pair, and no line with both a semicolon and a
    quote character. *)
Definition plain (text : str) : bool :=
  unmarked text && negb (mixes false false text).

(** The text that a stream still holds: the queued segments, each behind
    its sentinel, and then the unread input with its tabs expanded. *)
Definition pending (self : InputStream) : str :=
  concat (map (fun p => fst p ++ snd p)
            (combine (what_omp self) (line_buffer self)))
  ++ expand_tabs (infile self).

(** The [lines] lists of [n] successive calls, concatenated. *)
Fixpoint physical_lines (n fuel : nat) (self : InputStream)
  : outcome (list str * InputStream) :=
  match n with
  | O => Done ([], self)
  | S n' =>
    match next_fortran_line fuel self with
    | Done ((_, _, ls), self') =>
      match physical_lines n' fuel self' with
      | Done (rest, self'') => Done (ls ++ rest, self'')
      | IndexError => IndexError
      | RecursionError => RecursionError
      | OutOfFuel => OutOfFuel
      end
    | IndexError => IndexError
    | RecursionError => RecursionError
    | OutOfFuel => OutOfFuel
    end
  end.

(** Positions and characters of a run of text that starts at index [i]. *)
Fixpoint enum_from (i : nat) (cs : str) : list (nat * ascii) :=
  match cs with
  | [] => []
  | c :: r => (i, c) :: enum_from (S i) r
  end.

(** Number of characters before the first position whose two-character
    window matches [NOTFORTRAN_LINE_RE]. *)
Fixpoint code_prefix (x : str) : nat :=
  match x with
  | [] => O
  | _ :: r => if NOTFORTRAN_LINE_RE (firstn 2 x) then O else S (code_prefix r)
  end.

(** A queued segment of plain input: not empty, and without marker
    pair. *)
Definition seg_ok (seg : str) : Prop := seg <> [] /\ unmarked seg = true.

(** The queue of a stream that was fed plain input only, and whose unread
    input, with its tabs expanded, has no more characters than calls of
    [__next__] may nest. *)
Definition stream_ok (self : InputStream) : Prop :=
  length (endpos self) = length (line_buffer self) /\
  what_omp self = repeat [] (length (line_buffer self)) /\
  Forall seg_ok (line_buffer self) /\
  plain (infile self) = true /\
  (length (expand_tabs (infile self)) <= limit)%nat.

(** No template continuation is pending and the scanner is not inside an
    interpolation span. *)
Definition locals_ok (l : locals) : Prop :=
  fypp_cont l = false /\ _infypp (string_iter l) = false.

(** ** Notions used in the further properties *)

(** The two conditions that hold of the scan state of every object:
    the interpolation flag is set only while a span is open, and a string
    or span is never open inside a comment. *)
Definition scan_inv (self : CharFilter) : bool :=
  (negb (_infypp self) || negb (is_empty (_instring self)))
  && (is_empty (_instring self) || is_empty (_incomment self)).

(** A character that neither is a quote nor can start a comment, a
    preprocessor line or an interpolation marker. *)
Definition ordinary (c : ascii) : bool :=
  negb (is_quote c || Ascii.eqb c "!" || Ascii.eqb c "#" || Ascii.eqb c "$"
        || Ascii.eqb c "@").

(** The pieces of a line cut behind every semicolon and at its end; [cur]
    is the piece under way. *)
Fixpoint statements_ (cur x : str) : list str :=
  match x with
  | [] => []
  | c :: r =>
      if Ascii.eqb c ";" || is_empty r
      then (cur ++ [c]) :: statements_ [] r
      else statements_ (cur ++ [c]) r
  end.

Definition statements (line : str) : list str := statements_ [] line.

(** The sentinels queued with the [n] pieces of one line: the sentinel of
    the line with the first piece, none with the others. *)
Definition sentinels (omp : str) (n : nat) : list str :=
  match n with
  | O => []
  | S k => omp :: repeat [] k
  end.

(** [sg] is a run of consecutive characters of [line]. *)
Definition piece_of (line sg : str) : Prop :=
  exists m n, sg = firstn n (skipn m line).

(** [self1] is [self] with the segments [segs], their end positions [es]
    and their sentinels [ws] queued behind what was queued. *)
Definition extends_by (self self1 : InputStream) (segs : list str)
  (es : list Z) (ws : list str) : Prop :=
  line_buffer self1 = line_buffer self ++ segs /\
  endpos self1 = endpos self ++ es /\
  what_omp self1 = what_omp self ++ ws /\
  infile self1 = infile self /\
  line_nr self1 = line_nr self /\
  length es = length segs /\
  length ws = length segs.

(** The three queues have the same length. *)
Definition synced (self : InputStream) : Prop :=
  length (endpos self) = length (line_buffer self) /\
  length (what_omp self) = length (line_buffer self).

(** Bound on the number of iterations that one call can make. *)
Definition work (self : InputStream) : nat :=
  length (line_buffer self) + 9 * length (infile self).

(** Lines 182-185: the sentinel of a line, and the line without it. *)
Definition strip_sentinel (line : str) : str * str :=
  match OMP_SUBS_RE line with
  | Some w => (w, remove_first w line)
  | None => ([], line)
  end.

(** The text holds no newline character. *)
Definition no_newline (x : str) : bool :=
  forallb (fun c => negb (Ascii.eqb c nl)) x.

(** The text holds no newline character before its last character. *)
Fixpoint one_line (x : str) : bool :=
  match x with
  | [] => true
  | c :: r => (negb (Ascii.eqb c nl) || is_empty r) && one_line r
  end.

(** Every queued segment is one line, and no sentinel holds a newline. *)
Definition queued_lines (self : InputStream) : Prop :=
  Forall (fun sg => one_line sg = true) (line_buffer self) /\
  Forall (fun w => no_newline w = true) (what_omp self).

(** The same of the logical line under construction. *)
Definition joined_lines (l : locals) : Prop :=
  one_line (joined_line l) = true /\
  Forall (fun c => no_newline c = true) (comments l) /\
  Forall (fun p => one_line p = true) (lines l).

(** The text of a physical line, without its newline, that holds code
    only: no quote, no character that can start a comment, a preprocessor
    line or an interpolation marker, no semicolon and no newline. *)
Definition code_only (body : str) : bool :=
  forallb ordinary body && negb (has_semicolon body) && no_newline body.

(** The code of such a line as it enters the joined text: tabs expanded,
    white space stripped, then any [&] at either end stripped. *)
Definition code_of (body : str) : str :=
  strip_by (Ascii.eqb "&") (strip (expand_tabs body)).

(** The line continues: its stripped code ends in [&]. *)
Definition continued (body : str) : bool :=
  endswith (strip (expand_tabs body)) "&".

(** A physical line as the stream records it. *)
Definition recorded (body : str) : str := expand_tabs body ++ [nl].

(** The continuation flag after a line of code, given the flag before. *)
Definition carries (body : str) (continuation : bool) : bool :=
  if continued body then true
  else if is_empty (strip (expand_tabs body)) then continuation
  else false.

(** The joined text after a line of code, given the text before. *)
Definition joined_with (joined body : str) : str :=
  if is_empty (strip joined) then code_of body ++ [nl]
  else rstrip_by (Ascii.eqb nl) joined ++ code_of body ++ [nl].

(** A line of code after which an open logical line stays open: its
    stripped code ends in [&], or it is blank. *)
Definition goes_on (body : str) : bool :=
  code_only body && carries body true.

(** A line of code that closes an open logical line. *)
Definition closes (body : str) : bool :=
  code_only body && negb (carries body true).

(** The text of the physical lines with the given bodies. *)
Definition text_of (bodies : list str) : str :=
  concat (map (fun b => b ++ [nl]) bodies).

(** A physical line with code and a comment, as the stream records it. *)
Definition recorded_with_comment (code cm : str) : str :=
  expand_tabs code ++ "!" :: expand_tabs cm ++ [nl].

(** The triples of [n] successive calls. *)
Fixpoint calls (n fuel : nat) (self : InputStream)
  : outcome (list (str * list str * list str) * InputStream) :=
  match n with
  | O => Done ([], self)
  | S n' =>
    match next_fortran_line fuel self with
    | Done (t, self') =>
      match calls n' fuel self' with
      | Done (ts, self'') => Done (t :: ts, self'')
      | IndexError => IndexError
      | RecursionError => RecursionError
      | OutOfFuel => OutOfFuel
      end
    | IndexError => IndexError
    | RecursionError => RecursionError
    | OutOfFuel => OutOfFuel
    end
  end.

(** The triple returned for a segment [p] that is all code and does not
    continue, queued with the sentinel [omp]. *)
Definition statement_triple (omp p : str) : str * list str * list str :=
  (omp ++ strip_by (Ascii.eqb "&") (strip p) ++ newline_text (endswith p nl),
   [[]], [omp ++ p]).

(** The segment is not empty and its stripped text does not end in [&]. *)
Definition complete (p : str) : bool :=
  negb (is_empty p) && negb (endswith (strip p) "&").

(** The second character of a closing marker that is scanned as code
    whatever follows, short of a colon or an opening brace. *)
Definition plain_closer (k : ascii) (c : str) : bool :=
  (Ascii.eqb k "$" || Ascii.eqb k "@")
  && match c with
     | h :: _ => negb (Ascii.eqb h ":" || Ascii.eqb h "{")
     | [] => true
     end.

(** Number of lines of a text: one for every newline, and one for what
    follows the last newline, if anything; [inside] tells that a line is
    under way. *)
Fixpoint count_lines_ (inside : bool) (x : str) : nat :=
  match x with
  | [] => if inside then 1%nat else 0%nat
  | c :: r =>
      if Ascii.eqb c nl then S (count_lines_ false r)
      else count_lines_ true r
  end.

Definition count_lines (x : str) : nat := count_lines_ false x.

(** The line number plus the number of lines still to be read. *)
Definition lines_in_all (self : InputStream) : Z :=
  (line_nr self + Z.of_nat (count_lines (infile self)))%Z.

(** A line that can follow a continued template directive: it holds no
    newline, is not blank and carries no sentinel. *)
Definition directive_more (body : str) : bool :=
  no_newline body
  && negb (forallb is_space (expand_tabs body))
  && match OMP_SUBS_RE (recorded body) with Some _ => false | None => true end.

(** All lines but the last end in [&]. *)
Fixpoint chain (bodies : list str) : bool :=
  match bodies with
  | [] => false
  | [b] => negb (continued b)
  | b :: r => continued b && chain r
  end.

(** * Properties of the scanner *)

Lemma next_post_trans self mid r :
  (_it self < length (_content self))%nat ->
  _content mid = _content self ->
  _filter_comments mid = _filter_comments self ->
  _filter_strings mid = _filter_strings self ->
  (_it self < _it mid <= length (_content self))%nat ->
  next_post mid r ->
  next_post self r.
Proof.
  intros Hlt Hc Hfc Hfs Hit (P1 & P2 & P3 & P4 & P5 & P6 & P7).
  unfold next_post. rewrite P1, P2, P3, Hc, Hfc, Hfs.
  rewrite Hc in P5, P6, P7.
  assert (Hb : (_it mid <= _it (state_of r) <= length (_content self))%nat).
  { destruct (Nat.lt_ge_cases (_it mid) (length (_content self))) as [L | L].
    - apply P5 in L. lia.
    - rewrite (P6 L). simpl. lia. }
  repeat split; intros; try lia.
  destruct r as [pos char st | st]; [| exact I].
  destruct P7 as [? ?]. split; [lia | assumption].
Qed.

Ltac next_leaf IH :=
  match goal with
  | |- exists r, Some ?x = Some r /\ _ =>
      exists x; split; [reflexivity |];
      unfold next_post; simpl; repeat split; auto; try lia
  | |- exists r, next_ ?f ?c = Some r /\ _ =>
      let r := fresh "r" in
      let E := fresh "E" in
      let P := fresh "P" in
      destruct (IH c) as (r & E & P); [simpl; lia |];
      exists r; split; [exact E |];
      eapply next_post_trans; [| | | | | exact P]; simpl; auto; lia
  end.

Lemma next_total fuel :
  forall self,
    (length (_content self) - _it self < fuel)%nat ->
    exists r, next_ fuel self = Some r /\ next_post self r.
Proof.
  induction fuel as [| fuel IH]; intros self Hf; [lia |].
  cbn [next_].
  destruct (nth_error (_content self) (_it self)) as [char |] eqn:Hn.
  - assert (Hlt : (_it self < length (_content self))%nat)
      by (apply nth_error_Some; congruence).
    cbn zeta.
    repeat match goal with
    | |- context [if ?b then _ else _] => destruct b eqn:?
    end; simpl in *; try (next_leaf IH).
    (* closing marker of an interpolation span: two nested calls *)
    destruct (IH (set_instring (set_it self (S (_it self))) [] false))
      as (r1 & E1 & P1); [simpl; lia |].
    rewrite E1.
    assert (Q1 : next_post self r1).
    { eapply next_post_trans; [| | | | | exact P1]; simpl; auto; lia. }
    destruct r1 as [pos1 char1 st1 | st1].
    + destruct Q1 as (C1 & C2 & C3 & C4 & C5 & C6 & C7). simpl in *.
      destruct (IH st1) as (r2 & E2 & P2); [rewrite C1; lia |].
      exists r2; split; [exact E2 |].
      eapply next_post_trans; [| | | | | exact P2]; auto; lia.
    + exists (StopIteration st1); split; [reflexivity | exact Q1].
  - exists (StopIteration self); split; [reflexivity |].
    apply nth_error_None in Hn.
    unfold next_post; simpl; repeat split; auto; lia.
Qed.

(** More room for nested calls does not change what a call gives. *)
Lemma next_fuel fuel :
  forall self r fuel',
    next_ fuel self = Some r -> (fuel <= fuel')%nat ->
    next_ fuel' self = Some r.
Proof.
  induction fuel as [| fuel IH]; intros self r fuel' H Hle; [discriminate |].
  destruct fuel' as [| fuel']; [lia |].
  assert (Hle' : (fuel <= fuel')%nat) by lia.
  cbn [next_] in *.
  destruct (nth_error (_content self) (_it self)) as [char |];
    [| exact H].
  cbn zeta in *.
  repeat match type of H with
  | context [if ?b then _ else _] => destruct b eqn:?
  end; simpl in *;
  try exact H;
  try (apply (IH _ _ fuel' H Hle'); fail).
  destruct (next_ fuel (set_instring (set_it self (S (_it self))) [] false))
    as [[pos1 char1 st1 | st1] |] eqn:E1; try discriminate.
  - rewrite (IH _ _ fuel' E1 Hle'). apply (IH _ _ fuel' H Hle').
  - rewrite (IH _ _ fuel' E1 Hle'). exact H.
Qed.

(** With room for one call per character left, and one more, the room
    plays no part. *)
Lemma next_enough_fuel fuel fuel' self :
  (length (_content self) - _it self < fuel)%nat ->
  (length (_content self) - _it self < fuel')%nat ->
  next_ fuel self = next_ fuel' self.
Proof.
  intros Hf Hf'.
  destruct (next_total fuel self Hf) as (r & E & _).
  destruct (next_total fuel' self Hf') as (r' & E' & _).
  rewrite E, E'.
  apply (next_fuel _ _ _ (Nat.max fuel fuel')) in E; [| lia].
  apply (next_fuel _ _ _ (Nat.max fuel fuel')) in E'; [| lia].
  congruence.
Qed.

(** Whatever the room, a call that returns leaves [next_post]. *)
Lemma next_sound fuel self r :
  next_ fuel self = Some r -> next_post self r.
Proof.
  intros H.
  destruct (next_total (Nat.max fuel (rounds self)) self) as (r' & E & P);
    [unfold rounds; lia |].
  apply (next_fuel _ _ _ (Nat.max fuel (rounds self))) in H; [| lia].
  congruence.
Qed.

Lemma next_call_post self r : __next__ self = Some r -> next_post self r.
Proof. apply next_sound. Qed.

Lemma next_defined self :
  (length (_content self) - _it self <= limit)%nat ->
  exists r, __next__ self = Some r /\ next_post self r.
Proof. intros H. apply next_total. lia. Qed.

(** With [filter_strings] off no call is nested. *)
Lemma next_strings_unfiltered frames self :
  _filter_strings self = false ->
  exists r, next_ (S frames) self = Some r.
Proof.
  intros Hfs. cbn [next_].
  destruct (nth_error (_content self) (_it self)) as [char |];
    [| eexists; reflexivity].
  cbn zeta. generalize (next_ frames). intros nx. simpl. rewrite Hfs. simpl.
  repeat match goal with
  | |- context [if ?b then _ else _] => destruct b
  end; eexists; reflexivity.
Qed.

Lemma ascending_weaken lo lo' ys :
  (lo' <= lo)%nat -> ascending lo ys -> ascending lo' ys.
Proof.
  destruct ys as [| [pos c] r]; simpl; [auto |].
  intros H [H1 H2]. split; [lia | assumption].
Qed.

(** Whatever the room and the fuel, a loop that ends leaves
    [iterate_post]. *)
Lemma iterate_sound fuel :
  forall self ys self',
    iterate_ fuel self = Some (ys, self') -> iterate_post self ys self'.
Proof.
  induction fuel as [| fuel IH]; intros self ys self' H; [discriminate |].
  cbn [iterate_] in H.
  destruct (__next__ self) as [r |] eqn:E; [| discriminate].
  destruct (next_call_post self r E) as (P1 & P2 & P3 & P4 & P5 & P6 & P7).
  destruct r as [pos char st | st]; simpl in *.
  - destruct (iterate_ fuel st) as [[zs st'] |] eqn:E'; [| discriminate].
    inversion H; subst; clear H.
    destruct (IH _ _ _ E') as (Q1 & Q2 & Q3 & Q4 & Q5).
    destruct P7 as [Hpos Hnth].
    unfold iterate_post. rewrite Q1, Q2, Q3, P1, P2, P3.
    repeat split; auto.
    + lia.
    + eapply ascending_weaken; [| exact Q4]. lia.
    + constructor; [exact Hnth |]. rewrite P1 in Q5. exact Q5.
  - inversion H; subst. unfold iterate_post. repeat split; auto.
Qed.

(** The loop ends when every call has the room that the characters left
    can ask for. *)
Lemma iterate_total fuel :
  forall self,
    (length (_content self) - _it self < fuel)%nat ->
    (length (_content self) - _it self <= limit)%nat ->
    exists ys self',
      iterate_ fuel self = Some (ys, self') /\ iterate_post self ys self'.
Proof.
  induction fuel as [| fuel IH]; intros self Hf Hl; [lia |].
  cbn [iterate_].
  destruct (next_defined self Hl) as (r & E & P). rewrite E.
  destruct P as (P1 & P2 & P3 & P4 & P5 & P6 & P7).
  destruct r as [pos char st | st]; simpl in *.
  - destruct P7 as [Hpos Hnth].
    assert (Hlt : (_it self < length (_content self))%nat).
    { assert (pos < length (_content self))%nat
        by (apply nth_error_Some; congruence). lia. }
    specialize (P5 Hlt).
    destruct (IH st) as (ys & st' & E' & Q);
      [rewrite P1; lia | rewrite P1; lia |].
    rewrite E'. exists ((pos, char) :: ys), st'. split; [reflexivity |].
    apply (iterate_sound (S fuel)). cbn [iterate_]. rewrite E, E'.
    reflexivity.
  - exists [], st. split; [reflexivity |].
    unfold iterate_post. repeat split; auto.
Qed.

Lemma iterate_fuel fuel :
  forall self x fuel',
    iterate_ fuel self = Some x -> (fuel <= fuel')%nat ->
    iterate_ fuel' self = Some x.
Proof.
  induction fuel as [| fuel IH]; intros self x fuel' H Hle; [discriminate |].
  destruct fuel' as [| fuel']; [lia |].
  cbn [iterate_] in *.
  destruct (__next__ self) as [[pos char st | st] |]; try exact H;
    try discriminate.
  destruct (iterate_ fuel st) as [[ys st'] |] eqn:E; [| discriminate].
  rewrite (IH _ _ fuel' E); [exact H | lia].
Qed.

(** [rounds self] rounds are enough for the loop: with that much fuel or
    more, the loop gives [None] only when a call does. *)
Lemma iterate_rounds fuel :
  forall self fuel',
    (length (_content self) - _it self < fuel)%nat ->
    (length (_content self) - _it self < fuel')%nat ->
    iterate_ fuel self = iterate_ fuel' self.
Proof.
  induction fuel as [| fuel IH]; intros self fuel' Hf Hf'; [lia |].
  destruct fuel' as [| fuel']; [lia |].
  cbn [iterate_].
  destruct (__next__ self) as [r |] eqn:E; [| reflexivity].
  destruct (next_call_post self r E) as (P1 & _ & _ & _ & P5 & _ & P7).
  destruct r as [pos char st | st]; [| reflexivity].
  simpl in *. destruct P7 as [Hpos Hnth].
  assert (Hlt : (_it self < length (_content self))%nat).
  { assert (pos < length (_content self))%nat
      by (apply nth_error_Some; congruence). lia. }
  specialize (P5 Hlt).
  rewrite (IH st fuel'); [reflexivity | rewrite P1; lia | rewrite P1; lia].
Qed.

Lemma iterate_defined self :
  (length (_content self) - _it self <= limit)%nat ->
  exists ys self',
    iterate self = Some (ys, self') /\ iterate_post self ys self'.
Proof. intros H. apply iterate_total; [unfold rounds; lia | exact H]. Qed.

Lemma iterate_post_of self ys self' :
  iterate self = Some (ys, self') -> iterate_post self ys self'.
Proof. apply iterate_sound. Qed.

Lemma iterate_any_fuel fuel self x :
  iterate_ fuel self = Some x -> iterate self = Some x.
Proof.
  intros H. unfold iterate.
  apply (iterate_fuel _ _ _ (Nat.max fuel (rounds self))) in H; [| lia].
  rewrite (iterate_rounds (rounds self) self (Nat.max fuel (rounds self)));
    [exact H | unfold rounds; lia | unfold rounds; lia].
Qed.

(** The loop of lines 206-212 finds what the search in the pairs of the
    complete scan finds, whenever that scan returns. *)
Lemma first_notfortran_iterate_ fuel line pos :
  forall it ys st,
    iterate_ fuel it = Some (ys, st) ->
    first_notfortran_ fuel line pos it = Some (find_notfortran line pos ys).
Proof.
  induction fuel as [| fuel IH]; intros it ys st H; [discriminate |].
  cbn [iterate_] in H. cbn [first_notfortran_].
  destruct (__next__ it) as [[p c it' | it'] |]; try discriminate.
  - destruct (iterate_ fuel it') as [[ys' st'] |] eqn:E; [| discriminate].
    injection H as <- <-. cbn [find_notfortran]. cbv zeta.
    destruct (NOTFORTRAN_LINE_RE _); [reflexivity |].
    apply (IH _ _ _ E).
  - injection H as <- <-. reflexivity.
Qed.

Lemma first_notfortran_iterate line pos it ys st :
  iterate it = Some (ys, st) ->
  first_notfortran line pos it = Some (find_notfortran line pos ys).
Proof. apply first_notfortran_iterate_. Qed.

(** With [filter_strings] off the loop ends, whatever the room. *)
Lemma iterate_strings_unfiltered fuel :
  forall self,
    _filter_strings self = false ->
    (length (_content self) - _it self < fuel)%nat ->
    exists ys self', iterate_ fuel self = Some (ys, self').
Proof.
  induction fuel as [| fuel IH]; intros self Hfs Hf; [lia |].
  cbn [iterate_].
  destruct (next_strings_unfiltered limit self Hfs) as (r & E).
  fold (__next__ self) in E. rewrite E.
  destruct (next_call_post self r E) as (P1 & _ & P3 & _ & P5 & _ & P7).
  destruct r as [pos char st | st]; [| eexists; eexists; reflexivity].
  simpl in *. destruct P7 as [Hpos Hnth].
  assert (Hlt : (_it self < length (_content self))%nat).
  { assert (pos < length (_content self))%nat
      by (apply nth_error_Some; congruence). lia. }
  specialize (P5 Hlt).
  destruct (IH st) as (ys & st' & E');
    [congruence | rewrite P1; lia |].
  rewrite E'. eexists. eexists. reflexivity.
Qed.

(** Inside a quoted string, with strings filtered, a character other than
    the delimiter is passed over by a nested call. *)
Lemma next_string_char fuel self c q :
  nth_error (_content self) (_it self) = Some c ->
  _instring self = [q] -> _infypp self = false -> _incomment self = [] ->
  _filter_strings self = true -> Ascii.eqb q c = false ->
  next_ (S fuel) self = next_ fuel (set_it self (S (_it self))).
Proof.
  intros Hn Hs Hi Hc Hfs Hqc. cbn [next_]. rewrite Hn. cbn zeta.
  generalize (next_ fuel). intros nx. simpl.
  rewrite Hs, Hi, Hc, Hfs. simpl. rewrite Hqc. simpl.
  rewrite andb_false_r. destruct (is_quote c); reflexivity.
Qed.

(** Inside a quoted string that goes on for the characters of [b] and
    more, a call with room for no more calls than [b] has characters
    raises [RecursionError]. *)
Lemma next_string_short :
  forall b fuel self q tail,
    skipn (_it self) (_content self) = b ++ tail ->
    _instring self = [q] -> _infypp self = false -> _incomment self = [] ->
    existsb (Ascii.eqb q) b = false -> _filter_strings self = true ->
    (fuel <= length b)%nat ->
    next_ fuel self = None.
Proof.
  induction b as [| c b IH]; intros fuel self q tail Hx Hs Hi Hc Hb Hfs Hf.
  - cbn [length] in Hf. destruct fuel; [reflexivity | lia].
  - destruct fuel as [| fuel]; [reflexivity |].
    cbn [app] in Hx.
    assert (Hn : nth_error (_content self) (_it self) = Some c).
    { rewrite <- (Nat.add_0_r (_it self)), <- nth_error_skipn, Hx.
      reflexivity. }
    assert (Hr : skipn (S (_it self)) (_content self) = b ++ tail).
    { change (S (_it self)) with (1 + _it self)%nat.
      rewrite <- skipn_skipn, Hx. reflexivity. }
    cbn [existsb] in Hb. apply orb_false_elim in Hb. destruct Hb as [Hqc Hb].
    rewrite (next_string_char _ self c q Hn Hs Hi Hc Hfs Hqc).
    apply (IH fuel (set_it self (S (_it self))) q tail); auto.
    cbn [length] in Hf. lia.
Qed.

Lemma clamp_of_nat len i : clamp len (Z.of_nat i) = Nat.min i len.
Proof.
  unfold clamp.
  destruct (Z.of_nat i <? 0)%Z eqn:E; [apply Z.ltb_lt in E; lia |].
  rewrite Nat2Z.id. reflexivity.
Qed.

Lemma slice_window (x : str) i k :
  slice x (Z.of_nat i) (Z.of_nat i + Z.of_nat k) = firstn k (skipn i x).
Proof.
  unfold slice. rewrite <- Nat2Z.inj_add, !clamp_of_nat.
  destruct (Nat.le_gt_cases (length x) i) as [H | H].
  - rewrite (skipn_all2 x) by lia.
    rewrite (skipn_all2 x) by lia. rewrite !firstn_nil. reflexivity.
  - rewrite (Nat.min_l i) by lia.
    destruct (Nat.le_gt_cases (i + k) (length x)) as [H' | H'].
    + rewrite Nat.min_l by lia. f_equal. lia.
    + rewrite Nat.min_r by lia.
      rewrite !firstn_all2; try reflexivity; rewrite length_skipn; lia.
Qed.

Lemma char2_window (x : str) pos :
  slice x (Z.of_nat pos) (Z.of_nat pos + 2) = firstn 2 (skipn pos x).
Proof. apply (slice_window x pos 2). Qed.

Lemma skipn_nth_error (x : str) i c :
  nth_error x i = Some c -> skipn i x = c :: skipn (S i) x.
Proof.
  revert i. induction x as [| a x IH]; intros [| i] H; simpl in *;
    try discriminate.
  - inversion H. reflexivity.
  - apply IH. exact H.
Qed.

Lemma skipn_cons_inv (x : str) i c r :
  skipn i x = c :: r -> nth_error x i = Some c /\ skipn (S i) x = r.
Proof.
  revert i. induction x as [| a x IH]; intros i H.
  - rewrite skipn_nil in H. discriminate.
  - destruct i as [| i]; simpl in *.
    + inversion H. auto.
    + apply IH. exact H.
Qed.

Lemma skipn_nil_inv (x : str) i : skipn i x = [] -> nth_error x i = None.
Proof.
  intros H. apply nth_error_None.
  pose proof (length_skipn i x) as L. rewrite H in L. simpl in L. lia.
Qed.

Lemma is_quote_window q r :
  is_quote q = true ->
  FYPP_OPEN_RE (firstn 2 (q :: r)) = false /\
  NOTFORTRAN_LINE_RE (firstn 2 (q :: r)) = false.
Proof.
  unfold is_quote. intros H. apply orb_prop in H.
  destruct H as [H | H]; apply Ascii.eqb_eq in H; subst q;
    destruct r; split; reflexivity.
Qed.

(** An opening quote, with strings filtered: the call goes on behind it. *)
Lemma next_open_quote fuel self q r :
  skipn (_it self) (_content self) = q :: r ->
  _instring self = [] -> _incomment self = [] ->
  is_quote q = true -> _filter_strings self = true ->
  next_ (S fuel) self
  = next_ fuel (set_instring (set_it self (S (_it self))) [q] (_infypp self)).
Proof.
  intros Hx Hs Hc Hq Hfs.
  destruct (skipn_cons_inv _ _ _ _ Hx) as [Hn Hr].
  destruct (is_quote_window q r Hq) as [Ho Hnf]. rewrite <- Hx in Ho, Hnf.
  cbn [next_]. rewrite Hn. cbn zeta. simpl.
  rewrite char2_window, Hs, Hc, Ho, Hnf, Hq, Hfs. simpl.
  rewrite andb_false_r. reflexivity.
Qed.

(** ** C10 *)

(** A quote that opens a string of [limit] characters or more, strings
    filtered: the first call of the loop raises [RecursionError]. *)
Lemma long_string_raises (q : ascii) (b : str) (fc : bool) :
  is_quote q = true -> existsb (Ascii.eqb q) b = false ->
  (limit <= length b)%nat ->
  iterate (CharFilter_init (q :: b) fc true) = None.
Proof.
  intros Hq Hb Hl. unfold iterate, rounds. cbn [iterate_].
  assert (E : __next__ (CharFilter_init (q :: b) fc true) = None).
  { unfold __next__.
    rewrite (next_open_quote limit _ q b); auto.
    apply (next_string_short b limit _ q []); auto.
    simpl. rewrite app_nil_r. reflexivity. }
  rewrite E. reflexivity.
Qed.

(** C10, amended. Iterating a [CharFilter] to exhaustion terminates, by
    returning or by raising [RecursionError]. Every call of [__next__]
    that returns has kept or advanced the position, has advanced it
    strictly while a character was left, and never moves it past the end
    of the text; one round of the loop per character, and one more, is
    all the loop takes. [filter_all] returns a string when
    [filter_strings] is off, and when the text has no more characters
    than the interpreter lets calls of [__next__] nest. It is not total:
    with [filter_strings] on, a quote followed by that many or more
    characters other than the quote makes it raise [RecursionError]. *)
Theorem C10_filter_all_terminates :
  forall (string : str) (filter_comments filter_strings : bool),
    (forall self r,
        _content self = string -> __next__ self = Some r ->
        (_it self <= _it (state_of r))%nat /\
        ((_it self < length string)%nat ->
         (_it self < _it (state_of r) <= length string)%nat)) /\
    (forall fuel,
        (length string < fuel)%nat ->
        filter_all_ fuel
          (CharFilter_init string filter_comments filter_strings)
        = filter_all
            (CharFilter_init string filter_comments filter_strings)) /\
    (filter_strings = false \/ (length string <= limit)%nat ->
     exists out,
       filter_all (CharFilter_init string filter_comments filter_strings)
       = Some out /\
       (length out <= length string)%nat) /\
    (forall q,
        is_quote q = true -> existsb (Ascii.eqb q) string = false ->
        (limit <= length string)%nat ->
        filter_all (CharFilter_init (q :: string) filter_comments true)
        = None).
Proof.
  intros string fc fs. split; [| split; [| split]].
  - intros self r Hc E.
    destruct (next_call_post self r E) as (_ & _ & _ & P4 & P5 & _).
    rewrite Hc in P5. auto.
  - intros fuel Hf. unfold filter_all, filter_all_.
    rewrite (iterate_rounds fuel _ (rounds (CharFilter_init string fc fs)));
      [reflexivity | simpl; lia | unfold rounds; simpl; lia].
  - intros H.
    assert (D : exists ys st,
               iterate (CharFilter_init string fc fs) = Some (ys, st)).
    { destruct H as [H | H].
      - apply iterate_strings_unfiltered; [exact H |].
        unfold rounds. simpl. lia.
      - destruct (iterate_defined (CharFilter_init string fc fs))
          as (ys & st & E & _); [simpl; lia |].
        exists ys, st. exact E. }
    destruct D as (ys & st & E).
    pose proof (iterate_post_of _ _ _ E) as P.
    exists (map snd ys). unfold filter_all, filter_all_.
    fold (iterate (CharFilter_init string fc fs)). rewrite E.
    split; [reflexivity |].
    destruct P as (_ & _ & _ & Hasc & Hall). simpl in *.
    rewrite length_map.
    assert (G : forall lo zs,
               ascending lo zs ->
               Forall (fun y => nth_error string (fst y) = Some (snd y)) zs ->
               (lo + length zs <= Nat.max lo (length string))%nat).
    { intros lo zs. revert lo.
      induction zs as [| [p c] zs IHz]; simpl; intros lo A F; [lia |].
      destruct A as [A1 A2]. inversion F as [| ? ? F1 F2]; subst.
      simpl in F1.
      assert (p < length string)%nat by (apply nth_error_Some; congruence).
      specialize (IHz _ A2 F2). lia. }
    specialize (G _ _ Hasc Hall). lia.
  - intros q Hq Hb Hl. unfold filter_all, filter_all_.
    fold (iterate (CharFilter_init (q :: string) fc true)).
    rewrite (long_string_raises q string fc Hq Hb Hl). reflexivity.
Qed.

(** ** C9 *)

(** C9. [update] rebinds the scanner to a new text: the content, the
    iterator position and the two filter flags are replaced, and every
    other field keeps its value, whatever the scan state was. An open
    string delimiter, the interpolation flag and also the comment marker
    survive the rebind. *)
Theorem C9_update_keeps_scan_state :
  forall (self : CharFilter) (string : str) (fc fs : bool),
    _instring (update self string fc fs) = _instring self /\
    _infypp (update self string fc fs) = _infypp self /\
    _incomment (update self string fc fs) = _incomment self /\
    _content (update self string fc fs) = string /\
    _it (update self string fc fs) = 0%nat /\
    _filter_comments (update self string fc fs) = fc /\
    _filter_strings (update self string fc fs) = fs.
Proof. intros. repeat split. Qed.

(** * Properties of the assembler *)

(** ** C2 *)

(** C2, amended. On the single physical line [a=1;b=2] with its newline,
    the first call returns the joined text [a=1;] (the segment up to and
    including the semicolon, with no newline) and the second call returns
    [b=2] with its newline; each call returns one empty comment and the
    segment itself as its only physical line. *)
Theorem C2_two_logical_lines :
  forall fuel,
    exists st1 st2,
      next_fortran_line (S fuel) (InputStream_init (s "a=1;b=2" ++ [nl]))
      = Done ((s "a=1;", [[]], [s "a=1;"]), st1) /\
      next_fortran_line (S fuel) st1
      = Done ((s "b=2" ++ [nl], [[]], [s "b=2" ++ [nl]]), st2).
Proof.
  intros fuel. eexists. eexists. split.
  - vm_compute. reflexivity.
  - vm_compute. reflexivity.
Qed.

(** ** C3 *)

(** C3, amended. On the single physical line [!$omp parallel] the sentinel
    [!$omp] is kept as the first characters of the joined text, which is
    [!$ompparallel] with a newline: the code part is stripped of its
    surrounding blanks before the sentinel is put in front of it. No
    comment is recorded, and the recorded physical line is the input
    line. *)
Theorem C3_sentinel_kept_as_code :
  forall fuel,
    exists st,
      next_fortran_line (S fuel)
        (InputStream_init (s "!$omp parallel" ++ [nl]))
      = Done ((s "!$ompparallel" ++ [nl], [[]],
               [s "!$omp parallel" ++ [nl]]), st).
Proof. intros fuel. eexists. vm_compute. reflexivity. Qed.

(** ** C4 *)

Lemma consume_lengths self l self' l' f :
  consume self l = Done (self', l', f) ->
  match f with
  | BreakEmpty => l' = l
  | _ =>
      length (comments l') = S (length (comments l)) /\
      length (lines l') = S (length (lines l))
  end.
Proof.
  unfold consume.
  destruct (line_buffer self) as [| line lb]; [discriminate |].
  destruct (endpos self) as [| e ep]; [discriminate |].
  destruct (what_omp self) as [| omp wo]; [discriminate |].
  destruct (is_empty line).
  - intros H. inversion H; subst. reflexivity.
  - destruct (next_fypp_cont _ _ _) as [fc |]; [| discriminate].
    intros H. inversion H; subst; clear H.
    destruct (_ || fc); simpl; rewrite !length_app; simpl; lia.
Qed.

Lemma iteration_lengths self l self' l' f :
  iteration self l = Done (self', l', f) ->
  match f with
  | BreakEmpty =>
      comments l' = comments l /\ lines l' = lines l /\
      joined_line l' = joined_line l
  | _ =>
      length (comments l') = S (length (comments l)) /\
      length (lines l') = S (length (lines l))
  end.
Proof.
  unfold iteration.
  destruct (if is_empty (line_buffer self) then _ else _)
    as [[self1 it] |]; [| discriminate].
  intros H. apply consume_lengths in H.
  destruct f; simpl in H; try exact H.
  subst l'. simpl. auto.
Qed.

Lemma while_loop_segments fuel :
  forall self l self' l',
    while_loop fuel self l = Done (self', l') ->
    exists n,
      segments n self l self' l' /\
      length (comments l') = (length (comments l) + n)%nat /\
      length (lines l') = (length (lines l) + n)%nat.
Proof.
  induction fuel as [| fuel IH]; intros self l self' l' H; [discriminate |].
  cbn [while_loop] in H.
  destruct (iteration self l) as [[[self1 l1] f] | | |] eqn:E;
    try discriminate.
  pose proof (iteration_lengths _ _ _ _ _ E) as L.
  destruct f; simpl in L.
  - inversion H; subst. exists 0%nat. split; [apply segments_empty; exact E |].
    destruct L as (-> & -> & _). lia.
  - inversion H; subst. exists 1%nat. split; [apply segments_last; exact E |].
    lia.
  - destruct (IH _ _ _ _ H) as (n & S1 & S2 & S3).
    exists (S n). split; [eapply segments_more; eassumption |]. lia.
Qed.

(** C4. In every triple that [next_fortran_line] returns, [comments] and
    [lines] have the same length, and that length is the number of
    non-empty segments popped from the queue to build the logical line. *)
Theorem C4_comments_lines_same_length :
  forall fuel self joined cs ls self',
    next_fortran_line fuel self = Done ((joined, cs, ls), self') ->
    length cs = length ls /\
    exists n l',
      segments n self locals_init self' l' /\
      (joined, cs, ls) = (joined_line l', comments l', lines l') /\
      length ls = n.
Proof.
  intros fuel self joined cs ls self' H.
  unfold next_fortran_line in H.
  destruct (while_loop fuel self locals_init) as [[st l'] | | |] eqn:E;
    try discriminate.
  inversion H; subst; clear H.
  destruct (while_loop_segments _ _ _ _ _ E) as (n & S1 & S2 & S3).
  simpl in S2, S3.
  split; [lia |]. exists n, l'. auto.
Qed.

(** ** C8 and C7: the end of the input *)

(** With nothing queued and nothing left to read, an iteration reads the
    empty string, queues it as the only segment, pops it and leaves the
    loop at line 225; the accumulated triple is untouched. *)
Lemma iteration_at_end self l :
  line_buffer self = [] -> infile self = [] ->
  exists self' l',
    iteration self l = Done (self', l', BreakEmpty) /\
    joined_line l' = joined_line l /\ comments l' = comments l /\
    lines l' = lines l /\
    line_buffer self' = [] /\ infile self' = [].
Proof.
  intros Hb Hf. unfold iteration, refill. rewrite Hb, Hf. simpl.
  unfold consume. simpl.
  destruct (endpos self); destruct (what_omp self); simpl;
    eexists; eexists; (split; [reflexivity |]); simpl; auto.
Qed.

(** C8. When an iteration has left the logical line open (its code part
    ends in the continuation marker, or a template continuation is
    pending) and the source is then at the end of the input with nothing
    queued, the loop raises no error: it returns, and the triple it returns
    is the one accumulated up to that point. *)
Theorem C8_truncated_continuation_returns :
  forall fuel self l self1 l1,
    iteration self l = Done (self1, l1, Again) ->
    line_buffer self1 = [] -> infile self1 = [] ->
    (continuation l1 = true \/ fypp_cont l1 = true) /\
    exists self' l',
      while_loop (S (S fuel)) self l = Done (self', l') /\
      joined_line l' = joined_line l1 /\
      comments l' = comments l1 /\
      lines l' = lines l1.
Proof.
  intros fuel self l self1 l1 H Hb Hf. split.
  - unfold iteration in H.
    destruct (if is_empty (line_buffer self) then _ else _)
      as [[st it] |]; [| discriminate].
    unfold consume in H.
    destruct (line_buffer st); [discriminate |].
    destruct (endpos st); [discriminate |].
    destruct (what_omp st); [discriminate |].
    destruct (is_empty _); [discriminate |].
    destruct (next_fypp_cont _ _ _) as [fc |]; [| discriminate].
    match type of H with
    | Done (_, _, if ?c || _ then _ else _) = _ =>
        destruct c eqn:Hc; destruct fc eqn:Hfc; simpl in H;
        inversion H; subst; simpl; auto
    end.
  - destruct (iteration_at_end self1 l1 Hb Hf)
      as (self' & l' & E & J & C & L & _).
    exists self', l'. cbn [while_loop]. rewrite H, E. auto.
Qed.

(** C7, amended. With nothing queued and nothing left to read, a call
    returns the empty joined text, together with empty [comments] and
    [lines]. The converse implication is only this: a call that returns an
    empty [lines] list returns an empty joined text and no comments. An
    empty joined text alone does not tell the end of the input. *)
Theorem C7_end_of_input :
  (forall fuel self,
      line_buffer self = [] -> infile self = [] ->
      exists self',
        next_fortran_line (S fuel) self = Done (([], [], []), self')) /\
  (forall fuel self joined cs ls self',
      next_fortran_line fuel self = Done ((joined, cs, ls), self') ->
      ls = [] -> joined = [] /\ cs = []).
Proof.
  split.
  - intros fuel self Hb Hf.
    destruct (iteration_at_end self locals_init Hb Hf)
      as (self' & l' & E & J & C & L & _).
    exists self'. unfold next_fortran_line. cbn [while_loop].
    rewrite E, J, C, L. reflexivity.
  - intros fuel self joined cs ls self' H.
    unfold next_fortran_line in H.
    destruct (while_loop fuel self locals_init) as [[st l'] | | |] eqn:E;
      try discriminate.
    inversion H; subst; clear H. intros Hls.
    destruct (while_loop_segments _ _ _ _ _ E) as (n & Hseg & Hc & Hl).
    simpl in Hc, Hl. rewrite Hls in Hl. simpl in Hl. subst n.
    split; [| destruct (comments l'); [reflexivity | discriminate]].
    inversion Hseg as [a b c d E' | |]; subst; try (exfalso; lia).
    apply iteration_lengths in E'. simpl in E'. tauto.
Qed.

(** * The scan state, position by position *)

Lemma observe_n_unfiltered n self :
  observe_n n (unfiltered self) = observe_n n self.
Proof. destruct n; reflexivity. Qed.

Lemma observe_n_add a b self :
  observe_n (a + b) self = observe_n b (observe_n a self).
Proof.
  revert self. induction a as [| a IH]; intros self; simpl.
  - symmetry. apply observe_n_unfiltered.
  - apply IH.
Qed.

Lemma reaches_trans a b c :
  (_it a <= _it b <= _it c)%nat ->
  reaches a b -> reaches b c -> reaches a c.
Proof.
  unfold reaches. intros H Hab Hbc.
  replace (_it c - _it a)%nat with ((_it b - _it a) + (_it c - _it b))%nat
    by lia.
  rewrite observe_n_add, <- Hab, observe_n_unfiltered. exact Hbc.
Qed.

Ltac use_conditions :=
  repeat match goal with
  | H : ?b = _ |- context [?b] => rewrite H
  end.

Ltac one_step :=
  unfold reaches; cbn [state_of];
  match goal with
  | |- _ = observe_n ?n _ =>
      replace n with 1%nat
        by (cbn [_it set_instring set_it set_incomment]; lia)
  end;
  unfold observe_n, observe, __next__, rounds; cbn [next_]; simpl;
  use_conditions; simpl; use_conditions; simpl; try reflexivity.
Lemma is_empty_true {A : Type} (x : list A) : is_empty x = true -> x = [].
Proof. destruct x; [reflexivity | discriminate]. Qed.

Lemma filter_flag_empty (flag : bool) (x : str) :
  flag && negb (is_empty x) = false -> flag = true -> x = [].
Proof. intros H ->. destruct x; [reflexivity | discriminate]. Qed.

Lemma next_sync_via self mid r :
  reaches self mid ->
  (_it self <= _it mid <= _it (state_of r))%nat ->
  _filter_comments mid = _filter_comments self ->
  _filter_strings mid = _filter_strings self ->
  next_sync mid r -> next_sync self r.
Proof.
  intros Hr Hit Hfc Hfs [S1 S2]. split.
  - eapply reaches_trans; [| exact Hr | exact S1]. lia.
  - destruct r as [pos char st | st]; [| exact I].
    rewrite <- Hfc, <- Hfs. exact S2.
Qed.

Lemma next_sound_it fuel self r :
  next_ fuel self = Some r -> (_it self <= _it (state_of r))%nat.
Proof. intros H. apply (next_sound fuel self r H). Qed.

Ltac sync_leaf :=
  match goal with
  | H : Some _ = Some _ |- _ =>
      inversion H; subst; clear H; split;
      [ one_step
      | simpl; try exact I; repeat split; auto; intros;
        first [ eapply filter_flag_empty; eassumption
              | apply is_empty_true; assumption
              | match goal with
                | Hf : ?f = true, Hb : ?f && _ = false |- _ =>
                    rewrite Hf in Hb; discriminate
                end ] ]
  end.

Ltac sync_rec IH :=
  match goal with
  | H : next_ ?f ?c = Some ?r |- next_sync _ ?r =>
      eapply (next_sync_via _ c);
      [ one_step
      | split; [simpl; lia |];
        apply (next_sound_it f); exact H
      | reflexivity | reflexivity
      | apply IH; exact H ]
  end.

Lemma next_synced fuel :
  forall self r,
    next_ fuel self = Some r -> next_sync self r.
Proof.
  induction fuel as [| fuel IH]; intros self r H; [discriminate |].
  cbn [next_] in H.
  destruct (nth_error (_content self) (_it self)) as [char |] eqn:Hn.
  - assert (Hlt : (_it self < length (_content self))%nat)
      by (apply nth_error_Some; congruence).
    cbn zeta in H.
    repeat match type of H with
    | context [if ?b then _ else _] => destruct b eqn:?
    end; simpl in *.
    all: try sync_leaf.
    all: try (sync_rec IH).
    (* closing marker of an interpolation span: two nested calls *)
    destruct (next_ fuel (set_instring (set_it self (S (_it self))) [] false))
      as [[pos1 char1 st1 | st1] |] eqn:E1; try discriminate.
    + pose proof (next_sound fuel _ _ E1) as P1.
      pose proof (IH _ _ E1) as [R1 _].
      destruct P1 as (C1 & C2 & C3 & C4 & C5 & C6 & C7 & C8).
      simpl in *.
      pose proof (next_sound_it fuel st1 r H) as P2.
      eapply (next_sync_via _
                (set_instring (set_it self (S (_it self))) [] false));
        [ one_step | simpl; lia | reflexivity | reflexivity |].
      eapply (next_sync_via _ st1);
        [ exact R1 | simpl; lia | exact C2 | exact C3 |].
      apply IH; assumption.
    + inversion H; subst; clear H. sync_rec IH.
  - inversion H; subst; clear H. split; [| exact I].
    unfold reaches. simpl. rewrite Nat.sub_diag. reflexivity.
Qed.

Lemma next_call_synced self r :
  __next__ self = Some r -> next_post self r /\ next_sync self r.
Proof.
  intros H. unfold __next__ in H. split.
  - eapply next_sound; exact H.
  - eapply next_synced; exact H.
Qed.

Lemma ascending_ge lo ys :
  ascending lo ys -> Forall (fun y => (lo <= fst y)%nat) ys.
Proof.
  revert lo. induction ys as [| [p c] ys IH]; intros lo H; [constructor |].
  destruct H as [H1 H2]. constructor; [exact H1 |].
  apply IH in H2. eapply Forall_impl; [| exact H2].
  simpl. intros; lia.
Qed.

Lemma observe_n_shift self st n :
  reaches self st -> (_it self <= _it st)%nat ->
  observe_n n st = observe_n (_it st - _it self + n) self.
Proof.
  intros R H. rewrite observe_n_add. unfold reaches in R. rewrite <- R.
  symmetry. apply observe_n_unfiltered.
Qed.

Lemma iterate_synced fuel :
  forall self ys self',
    iterate_ fuel self = Some (ys, self') ->
    iterate_post self ys self' /\
    (_it self <= _it self')%nat /\
    reaches self self' /\
    (_filter_comments self = true -> _filter_strings self = true ->
     yields_code self ys).
Proof.
  induction fuel as [| fuel IH]; intros self ys self' H; [discriminate |].
  cbn [iterate_] in H.
  destruct (__next__ self) as [r |] eqn:E; [| discriminate].
  destruct (next_call_synced _ _ E) as [P [R S2]].
  destruct P as (P1 & P2 & P3 & P4 & P5 & P6 & P7).
  destruct r as [pos char st | st]; simpl in *.
  - destruct (iterate_ fuel st) as [[zs st'] |] eqn:E'; [| discriminate].
    inversion H; subst ys self'; clear H.
    destruct P7 as [Hpos Hnth]. destruct S2 as (Hit & Hs & Hc).
    assert (Hlt : (pos < length (_content self))%nat)
      by (apply nth_error_Some; congruence).
    destruct (IH st zs st' E') as (Q & Qit & QR & Qcode).
    destruct Q as (Q1 & Q2 & Q3 & Q4 & Q5).
    split; [| split; [lia | split]].
    + unfold iterate_post. rewrite Q1, Q2, Q3, P1, P2, P3.
      repeat split; auto.
      * lia.
      * eapply ascending_weaken; [| exact Q4]. lia.
      * constructor; [exact Hnth |]. rewrite P1 in Q5. exact Q5.
    + eapply reaches_trans; [| exact R | exact QR]. lia.
    + intros Hfc Hfs. constructor.
      * cbn [fst]. unfold reaches in R. rewrite Hit in R. rewrite <- R.
        unfold code_state. simpl. rewrite (Hs Hfs), (Hc Hfc). reflexivity.
      * rewrite P2, P3 in Qcode. specialize (Qcode Hfc Hfs).
        apply ascending_ge in Q4.
        unfold yields_code in Qcode.
        rewrite Forall_forall in *. intros y Hy.
        specialize (Qcode y Hy). specialize (Q4 y Hy). simpl in Q4.
        rewrite (observe_n_shift self st) in Qcode by (auto; lia).
        replace (S (fst y) - _it self)%nat
          with (_it st - _it self + (S (fst y) - _it st))%nat by lia.
        exact Qcode.
  - inversion H; subst ys self'; clear H.
    split; [unfold iterate_post; repeat split; auto |].
    split; [exact P4 |]. split; [exact R |].
    intros _ _. constructor.
Qed.

(** With the filters off a call yields the next character and moves on by
    one. *)
Lemma unfiltered_step self char :
  nth_error (_content self) (_it self) = Some char ->
  exists st,
    __next__ (unfiltered self) = Some (Yield (_it self) char st) /\
    _it st = S (_it self) /\ _content st = _content self.
Proof.
  intros H. unfold __next__, rounds. cbn [next_]. simpl. rewrite H.
  cbn zeta.
  repeat match goal with
  | |- context [if ?b then _ else _] => destruct b eqn:?
  end; eexists; (split; [reflexivity | split; reflexivity]).
Qed.

Lemma observe_position self char :
  nth_error (_content self) (_it self) = Some char ->
  _it (observe self) = S (_it self) /\
  _content (observe self) = _content self.
Proof.
  intros H. destruct (unfiltered_step self char H) as (st & E & Hit & Hc).
  unfold observe. rewrite E. simpl. auto.
Qed.

Lemma observe_n_position n :
  forall self,
    (_it self + n <= length (_content self))%nat ->
    _it (observe_n n self) = (_it self + n)%nat /\
    _content (observe_n n self) = _content self.
Proof.
  induction n as [| n IH]; intros self H; simpl.
  - split; [lia | reflexivity].
  - destruct (nth_error (_content self) (_it self)) as [c |] eqn:E.
    + destruct (observe_position self c E) as [Hit Hc].
      destruct (IH (observe self)) as [A B]; [rewrite Hit, Hc; lia |].
      rewrite A, B, Hit, Hc. split; [lia | reflexivity].
    + apply nth_error_None in E. lia.
Qed.

Lemma unfiltered_observe self : unfiltered (observe self) = observe self.
Proof. unfold observe. destruct (__next__ _); reflexivity. Qed.

Lemma observe_n_succ n self :
  observe_n (S n) self = observe (observe_n n self).
Proof.
  revert self. induction n as [| n IH]; intros self.
  - simpl. rewrite unfiltered_observe. reflexivity.
  - change (observe_n (S (S n)) self) with (observe_n (S n) (observe self)).
    rewrite IH. reflexivity.
Qed.

(** A semicolon changes nothing in the scan state. *)
Lemma observe_semicolon self :
  nth_error (_content self) (_it self) = Some ";" ->
  code_state (observe self) = code_state self.
Proof.
  intros H. unfold observe, __next__, rounds. cbn [next_]. simpl.
  rewrite H. cbn zeta. simpl.
  rewrite char2_window, (skipn_nth_error _ _ _ H).
  destruct (skipn (S (_it self)) (_content self)) as [| d rest]; simpl;
    destruct (is_empty (_instring self)) eqn:E1;
    destruct (is_empty (_incomment self)) eqn:E2;
    destruct (_infypp self) eqn:E3; simpl;
    unfold code_state; simpl; rewrite ?E1, ?E2; reflexivity.
Qed.

(** After the loop of lines 192-198, [line_start] is where it was, or just
    after a yielded position that holds a semicolon or ends the line. *)
Lemma fold_line_start line ys :
  forall v,
    sv_line_start (fold_left (split_body line) ys v) = sv_line_start v \/
    exists pos char,
      In (pos, char) ys /\
      sv_line_start (fold_left (split_body line) ys v)
      = (Z.of_nat pos + 1)%Z /\
      (char = ";" \/ (Z.of_nat pos + 1)%Z = Z.of_nat (length line)).
Proof.
  induction ys as [| [p c] ys IH]; intros v; simpl; [left; reflexivity |].
  destruct (IH (split_body line v (p, c))) as [E | (q & d & Hin & E & Hb)].
  - rewrite E. unfold split_body. simpl.
    destruct (Ascii.eqb c ";") eqn:Ec; simpl.
    + right. exists p, c. apply Ascii.eqb_eq in Ec. auto.
    + destruct (Z.of_nat p + 1 =? Z.of_nat (length line))%Z eqn:El; simpl.
      * right. exists p, c. apply Z.eqb_eq in El. auto.
      * left. reflexivity.
  - right. exists q, d. auto.
Qed.

(** ** C5 *)

(** C5. The loop that splits a physical line runs over the pairs that the
    scanner yields with both filters on. Every such pair lies in code
    state (no open string or interpolation span, no comment) after its
    character, and a semicolon among them also before it. Hence a
    semicolon that lies inside a string, a comment or an interpolation
    span is not yielded, and [line_start] never moves to the position
    after it: no segment ends there. *)
Theorem C5_semicolon_splits_in_code_only :
  forall (string_iter : CharFilter) (line : str) ys self',
    let scan := update string_iter line true true in
    iterate scan = Some (ys, self') ->
    (forall pos char,
        In (pos, char) ys ->
        code_state (observe_n (S pos) scan) = true /\
        (char = ";" -> code_state (observe_n pos scan) = true)) /\
    (forall pos,
        nth_error line pos = Some ";" ->
        code_state (observe_n pos scan) = false ->
        (forall char, ~ In (pos, char) ys) /\
        forall ys1 ys2 self omp,
          ys = ys1 ++ ys2 ->
          sv_line_start
            (fold_left (split_body line) ys1
               {| sv_stream := self; sv_what_omp := omp;
                  sv_line_start := 0; sv_pos := -1 |})
          <> (Z.of_nat pos + 1)%Z).
Proof.
  intros string_iter line ys self' scan H.
  assert (A : forall pos char,
             In (pos, char) ys ->
             code_state (observe_n (S pos) scan) = true /\
             (char = ";" -> code_state (observe_n pos scan) = true)).
  { intros pos char Hin.
    destruct (iterate_synced (rounds scan) scan ys self' H)
      as (P & _ & _ & Hcode).
    specialize (Hcode eq_refl eq_refl).
    unfold yields_code in Hcode. rewrite Forall_forall in Hcode.
    specialize (Hcode _ Hin). cbn [fst] in Hcode.
    change (_it scan) with 0%nat in Hcode.
    rewrite Nat.sub_0_r in Hcode. split; [exact Hcode |].
    intros ->.
    destruct P as (_ & _ & _ & _ & Hall). rewrite Forall_forall in Hall.
    specialize (Hall _ Hin). simpl in Hall.
    assert (Hlt : (pos < length line)%nat)
      by (apply nth_error_Some; congruence).
    destruct (observe_n_position pos scan) as [Hit Hc]; [simpl; lia |].
    rewrite observe_n_succ in Hcode.
    rewrite observe_semicolon in Hcode; [exact Hcode |].
    rewrite Hit, Hc. simpl. exact Hall. }
  split; [exact A |].
  intros pos Hsemi Hstate.
  assert (B : forall char, ~ In (pos, char) ys).
  { intros char Hin.
    pose proof (iterate_post_of scan ys self' H) as P.
    destruct P as (_ & _ & _ & _ & Hall). rewrite Forall_forall in Hall.
    pose proof (Hall _ Hin) as Hc. simpl in Hc.
    rewrite Hsemi in Hc. inversion Hc; subst char.
    destruct (A _ _ Hin) as [_ A2]. rewrite (A2 eq_refl) in Hstate.
    discriminate. }
  split; [exact B |].
  intros ys1 ys2 self omp Hys Hls.
  destruct (fold_line_start line ys1
              {| sv_stream := self; sv_what_omp := omp;
                 sv_line_start := 0; sv_pos := -1 |})
    as [E | (q & d & Hin & E & _)].
  - rewrite E in Hls. simpl in Hls. lia.
  - rewrite E in Hls. assert (q = pos) by lia. subst q.
    apply (B d). rewrite Hys. apply in_or_app. left. exact Hin.
Qed.

(** * Round trip on plain input *)

Lemma unmarked_cons a r : unmarked (a :: r) = true -> unmarked r = true.
Proof. simpl. intros H. apply andb_prop in H. tauto. Qed.

Lemma unmarked_app x y :
  unmarked (x ++ y) = true -> unmarked x = true /\ unmarked y = true.
Proof.
  induction x as [| a x IH]; simpl; intros H; [auto |].
  apply andb_prop in H. destruct H as [H1 H2].
  destruct (IH H2) as [Hx Hy]. split; [| exact Hy].
  rewrite Hx.
  destruct x as [| b x]; [reflexivity |].
  simpl in H1. rewrite H1. reflexivity.
Qed.

Lemma unmarked_skipn n x : unmarked x = true -> unmarked (skipn n x) = true.
Proof.
  intros H. rewrite <- (firstn_skipn n x) in H. apply unmarked_app in H. tauto.
Qed.

Lemma unmarked_firstn n x : unmarked x = true -> unmarked (firstn n x) = true.
Proof.
  intros H. rewrite <- (firstn_skipn n x) in H. apply unmarked_app in H. tauto.
Qed.

Lemma unmarked_slice x a b :
  unmarked x = true -> unmarked (slice x a b) = true.
Proof. intros H. unfold slice. apply unmarked_firstn, unmarked_skipn, H. Qed.

Lemma unmarked_head a b r :
  unmarked (a :: b :: r) = true -> marker_pair a b = false.
Proof.
  simpl. intros H. apply andb_prop in H. destruct H as [H _].
  destruct (marker_pair a b); auto; discriminate.
Qed.

Lemma marker_pair_false a b :
  marker_pair a b = false ->
  (Ascii.eqb a "!" && Ascii.eqb b "$") = false /\
  fypp_open_pair a b = false /\ FYPP_LINE_RE [a; b] = false.
Proof.
  unfold marker_pair. intros H.
  apply orb_false_elim in H. destruct H as [H H3].
  apply orb_false_elim in H. tauto.
Qed.

Lemma unmarked_no_fypp_open x :
  unmarked x = true -> FYPP_OPEN_RE (firstn 2 x) = false.
Proof.
  destruct x as [| a [| b r]]; intros H; try reflexivity.
  apply unmarked_head, marker_pair_false in H. simpl.
  destruct H as (_ & -> & _). reflexivity.
Qed.

Lemma unmarked_no_fypp_line x : unmarked x = true -> FYPP_LINE_RE x = false.
Proof.
  destruct x as [| a [| b r]]; intros H; try reflexivity.
  apply unmarked_head, marker_pair_false in H. destruct H as (_ & _ & H).
  exact H.
Qed.

Lemma unmarked_no_fypp_line_slice x a b :
  unmarked x = true -> FYPP_LINE_RE (slice x a b) = false.
Proof. intros H. apply unmarked_no_fypp_line, unmarked_slice, H. Qed.

Lemma unmarked_no_sentinel x : unmarked x = true -> OMP_SUBS_RE x = None.
Proof.
  intros H. unfold OMP_SUBS_RE.
  assert (P : unmarked (lstrip_by is_space x) = true).
  { induction x as [| a x IH]; [reflexivity |].
    simpl. destruct (is_space a); [apply IH, (unmarked_cons a), H | exact H]. }
  destruct (lstrip_by is_space x) as [| a [| b r]]; try reflexivity.
  apply unmarked_head, marker_pair_false in P.
  destruct P as (-> & _). reflexivity.
Qed.

Lemma expand_tabs_cons a x :
  expand_tabs (a :: x)
  = (if Ascii.eqb a tab then repeat " " 8 else [a]) ++ expand_tabs x.
Proof. reflexivity. Qed.

Lemma expand_tabs_app x y :
  expand_tabs (x ++ y) = expand_tabs x ++ expand_tabs y.
Proof. apply flat_map_app. Qed.

Lemma expand_tabs_nil_inv x : expand_tabs x = [] -> x = [].
Proof.
  destruct x as [| a x]; [reflexivity |].
  rewrite expand_tabs_cons. destruct (Ascii.eqb a tab); discriminate.
Qed.

Lemma unmarked_space r : unmarked r = true -> unmarked (" " :: r) = true.
Proof.
  intros H. simpl. rewrite H. destruct r; reflexivity.
Qed.

Lemma marker_pair_space a : marker_pair a " " = false.
Proof.
  unfold marker_pair, fypp_open_pair, FYPP_LINE_RE.
  destruct (Ascii.eqb a "!"), (Ascii.eqb a "#"), (Ascii.eqb a "$"),
    (Ascii.eqb a "@"); reflexivity.
Qed.

Lemma unmarked_expand_tabs x :
  unmarked x = true -> unmarked (expand_tabs x) = true.
Proof.
  induction x as [| a x IH]; intros H; [reflexivity |].
  pose proof (unmarked_cons _ _ H) as Hx. specialize (IH Hx).
  rewrite expand_tabs_cons.
  destruct (Ascii.eqb a tab) eqn:Ea.
  - cbn [repeat app]. repeat apply unmarked_space. exact IH.
  - cbn [app].
    change (unmarked (a :: expand_tabs x))
      with (match expand_tabs x with
            | b :: _ => negb (marker_pair a b)
            | [] => true
            end
            && unmarked (expand_tabs x)).
    rewrite IH, andb_true_r.
    destruct x as [| b x]; [reflexivity |].
    apply unmarked_head in H.
    rewrite expand_tabs_cons.
    destruct (Ascii.eqb b tab) eqn:Eb.
    + cbn [repeat app]. rewrite marker_pair_space. reflexivity.
    + cbn [app]. rewrite H. reflexivity.
Qed.

Lemma has_quote_expand_tabs x :
  has_quote x = false -> has_quote (expand_tabs x) = false.
Proof.
  unfold has_quote. induction x as [| a x IH]; intros H; [reflexivity |].
  simpl in H. apply orb_false_elim in H. destruct H as [Ha Hx].
  rewrite expand_tabs_cons, existsb_app, (IH Hx), orb_false_r.
  destruct (Ascii.eqb a tab); [reflexivity |].
  simpl. rewrite Ha. reflexivity.
Qed.

Lemma has_semicolon_expand_tabs x :
  has_semicolon x = false -> has_semicolon (expand_tabs x) = false.
Proof.
  unfold has_semicolon. induction x as [| a x IH]; intros H; [reflexivity |].
  simpl in H. apply orb_false_elim in H. destruct H as [Ha Hx].
  rewrite expand_tabs_cons, existsb_app, (IH Hx), orb_false_r.
  destruct (Ascii.eqb a tab); [reflexivity |].
  simpl. rewrite Ha. reflexivity.
Qed.

Lemma has_quote_cons c r :
  has_quote (c :: r) = false -> is_quote c = false /\ has_quote r = false.
Proof. unfold has_quote. simpl. apply orb_false_elim. Qed.

Lemma no_semicolon_at line pos c :
  has_semicolon line = false -> nth_error line pos = Some c ->
  Ascii.eqb c ";" = false.
Proof.
  unfold has_semicolon. intros H Hn.
  apply nth_error_In in Hn.
  destruct (Ascii.eqb c ";") eqn:E; [| reflexivity].
  apply Ascii.eqb_eq in E. subst c.
  assert (existsb (Ascii.eqb ";") line = true).
  { apply existsb_exists. exists ";". split; [exact Hn | reflexivity]. }
  congruence.
Qed.

(** A line read from plain input has no marker pair and does not hold both
    a semicolon and a quote character; what is left is plain. *)
Lemma mixes_readline f :
  forall semi quote,
    mixes semi quote f = false ->
    ((semi || has_semicolon (fst (readline f)))
     && (quote || has_quote (fst (readline f))) = false
     \/ (semi && quote = true)) /\
    mixes false false (snd (readline f)) = false.
Proof.
  induction f as [| c r IH]; intros semi quote H.
  - simpl. split; [| reflexivity].
    rewrite !orb_false_r. destruct (semi && quote); auto.
  - cbn [mixes] in H. cbn [readline].
    destruct (Ascii.eqb c nl) eqn:Ec.
    + cbn [fst snd]. split; [| exact H].
      apply Ascii.eqb_eq in Ec. subst c.
      replace (has_semicolon [nl]) with false by reflexivity.
      replace (has_quote [nl]) with false by reflexivity.
      rewrite !orb_false_r. destruct (semi && quote); auto.
    + cbv zeta in H. apply orb_false_elim in H. destruct H as [H1 H2].
      destruct (IH _ _ H2) as [[A | A] B]; [| congruence].
      destruct (readline r) as [l r']. cbn [fst snd] in *.
      split; [| exact B]. left.
      unfold has_semicolon, has_quote in *. cbn [existsb].
      rewrite !orb_assoc. exact A.
Qed.

Lemma readline_split f :
  fst (readline f) ++ snd (readline f) = f /\
  (fst (readline f) = [] -> f = []).
Proof.
  induction f as [| c r IH]; [auto |].
  simpl. destruct (Ascii.eqb c nl).
  - simpl. split; [reflexivity | discriminate].
  - destruct (readline r) as [l r']. simpl in *.
    destruct IH as [IH _]. rewrite IH. split; [reflexivity | discriminate].
Qed.

Lemma plain_readline f :
  plain f = true ->
  unmarked (expand_tabs (fst (readline f))) = true /\
  (has_semicolon (expand_tabs (fst (readline f))) = false \/
   has_quote (expand_tabs (fst (readline f))) = false) /\
  plain (snd (readline f)) = true.
Proof.
  unfold plain. intros H. apply andb_prop in H. destruct H as [Hu Hm].
  destruct (readline_split f) as [Hs _]. rewrite <- Hs in Hu.
  apply unmarked_app in Hu. destruct Hu as [Hu1 Hu2].
  destruct (mixes false false f) eqn:Em; [discriminate |].
  destruct (mixes_readline f _ _ Em) as [[A | A] B]; [| discriminate].
  simpl in A. rewrite Hu2, B.
  split; [apply unmarked_expand_tabs, Hu1 |]. split; [| reflexivity].
  apply andb_false_elim in A. destruct A as [A | A].
  - left. apply has_semicolon_expand_tabs, A.
  - right. apply has_quote_expand_tabs, A.
Qed.
(** ** The scanner on plain text *)

Lemma next_exhausted self :
  nth_error (_content self) (_it self) = None ->
  __next__ self = Some (StopIteration self).
Proof.
  intros H. unfold __next__, rounds. cbn [next_]. rewrite H. reflexivity.
Qed.

(** A character of code is yielded by the call that reads it, whatever
    the room. *)
Lemma next_code_char_at fuel self c :
  nth_error (_content self) (_it self) = Some c ->
  _instring self = [] -> _incomment self = [] ->
  FYPP_OPEN_RE (firstn 2 (skipn (_it self) (_content self))) = false ->
  NOTFORTRAN_LINE_RE (firstn 2 (skipn (_it self) (_content self))) = false ->
  is_quote c = false ->
  next_ (S fuel) self
  = Some (Yield (_it self) c (set_it self (S (_it self)))).
Proof.
  intros Hn Hs Hc Ho Hf Hq. cbn [next_].
  rewrite Hn. cbn zeta. generalize (next_ fuel). intros nx.
  simpl. rewrite char2_window, Hs, Hc, Ho, Hf, Hq.
  simpl. rewrite !andb_false_r. reflexivity.
Qed.

Lemma next_code_char self c :
  nth_error (_content self) (_it self) = Some c ->
  _instring self = [] -> _incomment self = [] ->
  FYPP_OPEN_RE (firstn 2 (skipn (_it self) (_content self))) = false ->
  NOTFORTRAN_LINE_RE (firstn 2 (skipn (_it self) (_content self))) = false ->
  is_quote c = false ->
  __next__ self = Some (Yield (_it self) c (set_it self (S (_it self)))).
Proof. apply next_code_char_at. Qed.

Lemma next_comment_start self c :
  nth_error (_content self) (_it self) = Some c ->
  _instring self = [] -> _incomment self = [] ->
  FYPP_OPEN_RE (firstn 2 (skipn (_it self) (_content self))) = false ->
  NOTFORTRAN_LINE_RE (firstn 2 (skipn (_it self) (_content self))) = true ->
  _filter_comments self = true ->
  __next__ self
  = Some (StopIteration (set_incomment (set_it self (S (_it self))) [c])).
Proof.
  intros Hn Hs Hc Ho Hf Hfc. unfold __next__, rounds. cbn [next_].
  rewrite Hn. cbn zeta. simpl. rewrite char2_window, Hs, Hc, Ho, Hf, Hfc.
  reflexivity.
Qed.

Lemma next_in_comment self c :
  nth_error (_content self) (_it self) = Some c ->
  _instring self = [] -> is_empty (_incomment self) = false ->
  _filter_comments self = true ->
  __next__ self = Some (StopIteration (set_it self (S (_it self)))).
Proof.
  intros Hn Hs Hc Hfc. unfold __next__, rounds. cbn [next_].
  rewrite Hn. cbn zeta. simpl. rewrite Hs, Hc, Hfc. reflexivity.
Qed.

(** On text without marker pair the scanner never enters an
    interpolation span. *)
Lemma next_keeps_infypp fuel :
  forall self r,
    unmarked (_content self) = true -> _infypp self = false ->
    next_ fuel self = Some r -> _infypp (state_of r) = false.
Proof.
  induction fuel as [| fuel IH]; intros self r Hu Hi H; [discriminate |].
  cbn [next_] in H.
  destruct (nth_error (_content self) (_it self)) as [char |] eqn:Hn.
  - cbn zeta in H. cbn [set_it _content] in H.
    rewrite char2_window in H.
    rewrite (unmarked_no_fypp_open _ (unmarked_skipn _ _ Hu)) in H.
    repeat match type of H with
    | context [if ?b then _ else _] => destruct b eqn:?
    end; simpl in *; try congruence;
    try (inversion H; subst; simpl; auto; fail);
    try (eapply IH; [| | exact H]; simpl; auto; fail).
  - inversion H; subst. exact Hi.
Qed.

Lemma iterate_keeps_infypp fuel :
  forall self ys self',
    unmarked (_content self) = true -> _infypp self = false ->
    iterate_ fuel self = Some (ys, self') -> _infypp self' = false.
Proof.
  induction fuel as [| fuel IH]; intros self ys self' Hu Hi H;
    [discriminate |].
  cbn [iterate_] in H.
  destruct (__next__ self) as [r |] eqn:E; [| discriminate].
  pose proof (next_call_post self r E) as P.
  pose proof (next_keeps_infypp _ _ _ Hu Hi E) as Hi'.
  destruct P as (P1 & _).
  destruct r as [pos char st | st]; simpl in *.
  - destruct (iterate_ fuel st) as [[zs st'] |] eqn:E'; [| discriminate].
    inversion H; subst. eapply IH; [| | exact E']; [rewrite P1 |]; assumption.
  - inversion H; subst. exact Hi'.
Qed.

(** Inside a quoted string, on text without quote character, the scan
    yields nothing. *)
Lemma next_in_string fuel :
  forall self,
    is_empty (_instring self) = false -> _infypp self = false ->
    has_quote (skipn (_it self) (_content self)) = false ->
    _filter_strings self = true ->
    (length (_content self) - _it self < fuel)%nat ->
    exists self', next_ fuel self = Some (StopIteration self').
Proof.
  induction fuel as [| fuel IH]; intros self Hs Hi Hq Hfs Hf; [lia |].
  cbn [next_].
  destruct (nth_error (_content self) (_it self)) as [char |] eqn:Hn.
  - assert (Hlt : (_it self < length (_content self))%nat)
      by (apply nth_error_Some; congruence).
    rewrite (skipn_nth_error _ _ _ Hn) in Hq.
    apply has_quote_cons in Hq. destruct Hq as [Hqc Hqr].
    cbn zeta. simpl. rewrite Hs, Hi, Hqc, Hfs. simpl.
    destruct (_filter_comments self && negb (is_empty (_incomment self))).
    + eexists. reflexivity.
    + apply IH; simpl; auto. lia.
  - eexists. reflexivity.
Qed.

Lemma iterate_in_string self :
  is_empty (_instring self) = false -> _infypp self = false ->
  has_quote (skipn (_it self) (_content self)) = false ->
  _filter_strings self = true ->
  (length (_content self) - _it self <= limit)%nat ->
  exists self', iterate self = Some ([], self').
Proof.
  intros Hs Hi Hq Hfs Hl. unfold iterate. unfold rounds at 1.
  cbn [iterate_].
  destruct (next_in_string (S limit) self Hs Hi Hq Hfs) as (self' & E);
    [lia |].
  unfold __next__. rewrite E. exists self'. reflexivity.
Qed.

(** In code state, on text without marker pair or quote character, the
    scan yields every character up to the first one that opens a
    comment. *)
Lemma iterate_plain_code :
  forall x fuel self,
    skipn (_it self) (_content self) = x ->
    unmarked x = true -> has_quote x = false ->
    _instring self = [] -> _incomment self = [] ->
    _filter_comments self = true ->
    (length x < fuel)%nat ->
    exists self',
      iterate_ fuel self
      = Some (enum_from (_it self) (firstn (code_prefix x) x), self').
Proof.
  induction x as [| c r IH]; intros fuel self Hx Hp Hq Hs Hc Hfc Hf;
    (destruct fuel as [| fuel]; [lia |]); cbn [iterate_].
  - rewrite (next_exhausted self) by (apply skipn_nil_inv; exact Hx).
    exists self. auto.
  - destruct (skipn_cons_inv _ _ _ _ Hx) as [Hn Hr].
    pose proof (unmarked_no_fypp_open _ Hp) as Ho. rewrite <- Hx in Ho.
    apply has_quote_cons in Hq. destruct Hq as [Hqc Hqr].
    cbn [code_prefix].
    destruct (NOTFORTRAN_LINE_RE (firstn 2 (c :: r))) eqn:Hnf.
    + rewrite <- Hx in Hnf.
      rewrite (next_comment_start self c Hn Hs Hc Ho Hnf Hfc).
      eexists. reflexivity.
    + rewrite <- Hx in Hnf.
      rewrite (next_code_char self c Hn Hs Hc Ho Hnf Hqc).
      destruct (IH fuel (set_it self (S (_it self))))
        as (self' & E); simpl; auto.
      * eapply unmarked_cons. exact Hp.
      * simpl in Hf. lia.
      * simpl in E. rewrite E. exists self'. reflexivity.
Qed.

(** In comment state the scan yields nothing. *)
Lemma iterate_in_comment self :
  _instring self = [] -> is_empty (_incomment self) = false ->
  _filter_comments self = true ->
  exists self', iterate self = Some ([], self').
Proof.
  intros Hs Hc Hfc. unfold iterate, rounds. cbn [iterate_].
  destruct (nth_error (_content self) (_it self)) as [c |] eqn:Hn.
  - rewrite (next_in_comment self c Hn Hs Hc Hfc).
    eexists. reflexivity.
  - rewrite (next_exhausted self Hn). exists self. auto.
Qed.

(** In comment state no call is nested, whatever the text holds, and the
    comment state is kept. *)
Lemma next_comment_any frames self :
  _instring self = [] -> is_empty (_incomment self) = false ->
  exists r,
    next_ (S frames) self = Some r /\
    _instring (state_of r) = [] /\
    _incomment (state_of r) = _incomment self.
Proof.
  intros Hs Hc. cbn [next_].
  destruct (nth_error (_content self) (_it self)) as [char |];
    [| eexists; split; [reflexivity | auto]].
  cbn zeta. generalize (next_ frames). intros nx. simpl.
  rewrite Hs, Hc. simpl. rewrite andb_false_r.
  destruct (_filter_comments self); simpl;
    eexists; (split; [reflexivity | auto]).
Qed.

(** So a scan in comment state runs to its end. *)
Lemma iterate_comment_any fuel :
  forall self,
    _instring self = [] -> is_empty (_incomment self) = false ->
    (length (_content self) - _it self < fuel)%nat ->
    exists ys st, iterate_ fuel self = Some (ys, st).
Proof.
  induction fuel as [| fuel IH]; intros self Hs Hc Hf; [lia |].
  cbn [iterate_].
  destruct (next_comment_any limit self Hs Hc) as (r & E & Hs' & Hc').
  fold (__next__ self) in E. rewrite E.
  destruct (next_call_post self r E) as (P1 & _ & _ & _ & P5 & _ & P7).
  destruct r as [pos char st | st]; [| eexists; eexists; reflexivity].
  simpl in *. destruct P7 as [Hpos Hnth].
  assert (Hlt : (_it self < length (_content self))%nat).
  { assert (pos < length (_content self))%nat
      by (apply nth_error_Some; congruence). lia. }
  specialize (P5 Hlt).
  destruct (IH st) as (ys & st' & E');
    [exact Hs' | rewrite Hc'; exact Hc | rewrite P1; lia |].
  rewrite E'. eexists. eexists. reflexivity.
Qed.

(** The scan of lines 206-212, started where a comment opens, yields that
    position first. *)
Lemma second_scan_first c r :
  unmarked (c :: r) = true ->
  NOTFORTRAN_LINE_RE (firstn 2 (c :: r)) = true ->
  exists ys st,
    iterate (CharFilter_init (c :: r) false true) = Some ((0%nat, c) :: ys, st).
Proof.
  intros Hp Hnf. unfold iterate, rounds. cbn [iterate_].
  pose proof (unmarked_no_fypp_open _ Hp) as Ho.
  assert (E : __next__ (CharFilter_init (c :: r) false true)
              = Some (Yield 0 c
                        (set_incomment
                           (set_it (CharFilter_init (c :: r) false true) 1)
                           [c]))).
  { unfold __next__, rounds. cbn [next_]. simpl nth_error. cbn zeta.
    cbn [_it _content CharFilter_init set_it _instring _incomment is_empty].
    rewrite (char2_window (c :: r) 0). cbn [skipn].
    rewrite Ho, Hnf. reflexivity. }
  rewrite E.
  match goal with
  | |- context [iterate_ ?f ?st] =>
      destruct (iterate_comment_any f st) as (ys & st' & E');
        [reflexivity | reflexivity | simpl; lia | rewrite E']
  end.
  exists ys, st'. reflexivity.
Qed.
(** ** The segments of a plain line *)

Lemma slice_nat (x : str) i j :
  (i <= j)%nat ->
  slice x (Z.of_nat i) (Z.of_nat j) = firstn (j - i) (skipn i x).
Proof.
  intros H. replace (Z.of_nat j) with (Z.of_nat i + Z.of_nat (j - i))%Z by lia.
  apply slice_window.
Qed.

Lemma firstn_plus (x : str) n m :
  firstn (n + m) x = firstn n x ++ firstn m (skipn n x).
Proof.
  revert x. induction n as [| n IH]; intros x; [reflexivity |].
  destruct x as [| c x]; simpl.
  - rewrite firstn_nil. reflexivity.
  - rewrite IH. reflexivity.
Qed.

Lemma firstn_skipn_join (x : str) a b c :
  (a <= b <= c)%nat ->
  firstn (b - a) (skipn a x) ++ firstn (c - b) (skipn b x)
  = firstn (c - a) (skipn a x).
Proof.
  intros H.
  replace (c - a)%nat with ((b - a) + (c - b))%nat by lia.
  rewrite firstn_plus, skipn_skipn.
  replace (b - a + a)%nat with b by lia. reflexivity.
Qed.

(** What the loop of lines 192-198 queues when it runs over a run [cs] of
    consecutive characters of a plain line. *)
Lemma fold_enum line :
  unmarked line = true ->
  forall cs a v ls,
    firstn (length cs) (skipn a line) = cs ->
    (a + length cs <= length line)%nat ->
    sv_line_start v = Z.of_nat ls -> (ls <= a)%nat ->
    sv_what_omp v = [] ->
    exists segs ls',
      let v' := fold_left (split_body line) (enum_from a cs) v in
      line_buffer (sv_stream v') = line_buffer (sv_stream v) ++ segs /\
      length (endpos (sv_stream v'))
      = (length (endpos (sv_stream v)) + length segs)%nat /\
      what_omp (sv_stream v')
      = what_omp (sv_stream v) ++ repeat [] (length segs) /\
      infile (sv_stream v') = infile (sv_stream v) /\
      sv_what_omp v' = [] /\
      sv_line_start v' = Z.of_nat ls' /\
      (ls <= ls' <= a + length cs)%nat /\
      concat segs = firstn (ls' - ls) (skipn ls line) /\
      Forall seg_ok segs /\
      (cs <> [] -> sv_pos v' = (Z.of_nat (a + length cs) - 1)%Z) /\
      (cs = [] -> sv_pos v' = sv_pos v) /\
      (cs <> [] -> (a + length cs)%nat = length line -> ls' = length line).
Proof.
  intros Hplain.
  induction cs as [| c r IH]; intros a v ls Hcs Hlen Hls Hle Homp.
  - exists [], ls. cbn [enum_from fold_left length].
    rewrite !app_nil_r, Nat.add_0_r, Nat.sub_diag.
    repeat split; auto; try lia; try congruence.
  - cbn [enum_from fold_left]. cbn [length] in Hlen, Hcs.
    assert (Hr : firstn (length r) (skipn (S a) line) = r).
    { destruct (skipn a line) as [| d t] eqn:E; [simpl in Hcs; discriminate |].
      destruct (skipn_cons_inv _ _ _ _ E) as [_ E'].
      simpl in Hcs. inversion Hcs. rewrite E'. congruence. }
    destruct (Ascii.eqb c ";" || (Z.of_nat a + 1 =? Z.of_nat (length line))%Z)
      eqn:Hb.
    + assert (Hv1 : split_body line v (a, c)
                    = {| sv_stream :=
                           append_segment (sv_stream v)
                             (Z.of_nat a - sv_line_start v)
                             (slice line (sv_line_start v) (Z.of_nat a + 1))
                             (sv_what_omp v);
                         sv_what_omp := [];
                         sv_line_start := Z.of_nat a + 1;
                         sv_pos := Z.of_nat a |})
        by (unfold split_body; cbn [fst snd]; rewrite Hb; reflexivity).
      rewrite Hv1. clear Hv1.
      match goal with
      | |- context [fold_left _ _ ?v1] =>
          destruct (IH (S a) v1 (S a)) as (segs & ls' & H)
      end; auto; try (simpl; lia).
      cbv zeta in H.
      destruct H as (H1 & H2 & H3 & H4 & H5 & H6 & H7 & H8 & H9 & H10
                     & H11 & H12).
      cbn [sv_stream sv_pos append_segment line_buffer endpos what_omp
           infile] in *.
      rewrite Hls, Homp in *.
      replace (Z.of_nat a + 1)%Z with (Z.of_nat (S a)) in * by lia.
      rewrite slice_nat in * by lia.
      exists (firstn (S a - ls) (skipn ls line) :: segs), ls'.
      cbv zeta. cbn [length repeat concat].
      rewrite H1, H3, H2, !length_app, <- !app_assoc. cbn [length app].
      repeat split; auto; try lia;
        try (intros Habs; discriminate Habs).
      * rewrite H8. apply firstn_skipn_join. lia.
      * constructor; [| exact H9]. split.
        -- intros E. apply (f_equal (@length ascii)) in E.
           rewrite length_firstn, length_skipn in E. cbn [length] in E. lia.
        -- apply unmarked_firstn, unmarked_skipn, Hplain.
      * intros _. destruct r as [| d r'].
        -- rewrite (H11 eq_refl). cbn [length]. lia.
        -- rewrite H10 by discriminate. cbn [length]. lia.
      * intros _ Hend. destruct r as [| d r'].
        -- cbn [length] in *. lia.
        -- apply H12; [discriminate | cbn [length] in *; lia].
    + assert (Hv1 : split_body line v (a, c)
                    = {| sv_stream := sv_stream v;
                         sv_what_omp := sv_what_omp v;
                         sv_line_start := sv_line_start v;
                         sv_pos := Z.of_nat a |})
        by (unfold split_body; cbn [fst snd]; rewrite Hb; reflexivity).
      rewrite Hv1. clear Hv1.
      match goal with
      | |- context [fold_left _ _ ?v1] =>
          destruct (IH (S a) v1 ls) as (segs & ls' & H)
      end; auto; try (simpl; lia).
      cbv zeta in H.
      destruct H as (H1 & H2 & H3 & H4 & H5 & H6 & H7 & H8 & H9 & H10
                     & H11 & H12).
      cbn [sv_stream sv_pos] in *.
      exists segs, ls'. cbv zeta. cbn [length].
      repeat split; auto; try lia;
        try (intros Habs; discriminate Habs).
      * intros _. destruct r as [| d r'].
        -- rewrite (H11 eq_refl). cbn [length]. lia.
        -- rewrite H10 by discriminate. cbn [length]. lia.
      * intros _ Hend. destruct r as [| d r'].
        -- apply orb_false_elim in Hb. destruct Hb as [_ Hb].
           apply Z.eqb_neq in Hb. cbn [length] in *. lia.
        -- apply H12; [discriminate | cbn [length] in *; lia].
Qed.

Lemma code_prefix_le x : (code_prefix x <= length x)%nat.
Proof.
  induction x as [| c r IH]; [simpl; lia |].
  cbn [code_prefix length].
  destruct (NOTFORTRAN_LINE_RE (firstn 2 (c :: r))); lia.
Qed.

Lemma code_prefix_stop x :
  (code_prefix x < length x)%nat ->
  NOTFORTRAN_LINE_RE (firstn 2 (skipn (code_prefix x) x)) = true.
Proof.
  induction x as [| c r IH]; [simpl; lia |].
  cbn [code_prefix length].
  destruct (NOTFORTRAN_LINE_RE (firstn 2 (c :: r))) eqn:E; intros H.
  - exact E.
  - cbn [skipn]. apply IH. lia.
Qed.

Lemma slice_from_nat (x : str) i : slice_from x (Z.of_nat i) = skipn i x.
Proof.
  unfold slice_from. rewrite clamp_of_nat.
  destruct (Nat.le_gt_cases i (length x)).
  - rewrite Nat.min_l by lia. reflexivity.
  - rewrite Nat.min_r by lia. rewrite !skipn_all2 by lia. reflexivity.
Qed.

Lemma is_empty_snoc {A : Type} (x : list A) a : is_empty (x ++ [a]) = false.
Proof. destruct x; reflexivity. Qed.

Lemma repeat_snoc {A : Type} (a : A) n : repeat a n ++ [a] = repeat a (S n).
Proof.
  induction n as [| n IH]; [reflexivity |].
  simpl. rewrite IH. reflexivity.
Qed.

(** On a line without semicolon the loop of lines 192-198 queues nothing
    before the end of the line, and there the whole line. *)
Lemma fold_no_semicolon line :
  has_semicolon line = false ->
  forall ys lo v,
    ascending lo ys ->
    Forall (fun y => nth_error line (fst y) = Some (snd y)) ys ->
    sv_line_start v = 0%Z ->
    (sv_stream (fold_left (split_body line) ys v) = sv_stream v /\
     sv_what_omp (fold_left (split_body line) ys v) = sv_what_omp v /\
     sv_line_start (fold_left (split_body line) ys v) = 0%Z /\
     ((sv_pos (fold_left (split_body line) ys v) + 1
       < Z.of_nat (length line))%Z \/
      sv_pos (fold_left (split_body line) ys v) = sv_pos v)) \/
    (sv_stream (fold_left (split_body line) ys v)
     = append_segment (sv_stream v) (Z.of_nat (length line) - 1) line
         (sv_what_omp v) /\
     (sv_pos (fold_left (split_body line) ys v) + 1)%Z
     = Z.of_nat (length line)).
Proof.
  intros Hsemi.
  induction ys as [| [p c] ys IH]; intros lo v Hasc Hall Hls.
  - left. simpl. auto.
  - destruct Hasc as [Hlo Hasc].
    inversion Hall as [| ? ? Hpc Hall']; subst. cbn [fst snd] in Hpc.
    assert (Hp : (p < length line)%nat)
      by (apply nth_error_Some; congruence).
    pose proof (no_semicolon_at _ _ _ Hsemi Hpc) as Hc.
    cbn [fold_left].
    destruct (Z.of_nat p + 1 =? Z.of_nat (length line))%Z eqn:Hend.
    + (* the last character of the line *)
      apply Z.eqb_eq in Hend.
      assert (Hnil : ys = []).
      { destruct ys as [| [q d] ys']; [reflexivity |].
        destruct Hasc as [Hq _].
        inversion Hall' as [| ? ? Hqd _]; subst. cbn [fst snd] in Hqd.
        assert (q < length line)%nat by (apply nth_error_Some; congruence).
        lia. }
      rewrite Hnil. right. cbn [fold_left].
      unfold split_body. cbn [fst snd]. rewrite Hc, Hend, Z.eqb_refl.
      cbn [orb sv_stream sv_pos]. rewrite Hls.
      assert (Hsl : slice line 0 (Z.of_nat (length line)) = line).
      { change 0%Z with (Z.of_nat 0). rewrite slice_nat by lia.
        cbn [skipn]. rewrite Nat.sub_0_r. apply firstn_all. }
      rewrite Hsl.
      split; [f_equal; lia | lia].
    + assert (Hv1 : split_body line v (p, c)
                    = {| sv_stream := sv_stream v;
                         sv_what_omp := sv_what_omp v;
                         sv_line_start := sv_line_start v;
                         sv_pos := Z.of_nat p |})
        by (unfold split_body; cbn [fst snd]; rewrite Hc, Hend; reflexivity).
      rewrite Hv1. apply Z.eqb_neq in Hend.
      match goal with
      | |- context [fold_left _ _ ?v1] =>
          destruct (IH (S p) v1 Hasc Hall' Hls)
            as [(A1 & A2 & A3 & A4) | (B1 & B2)]
      end; cbn [sv_stream sv_what_omp sv_pos] in *.
      * left. repeat split; auto. left.
        destruct A4 as [A4 | A4]; [exact A4 | rewrite A4; lia].
      * right. split; assumption.
Qed.

(** When the loop of lines 192-198 queued nothing and did not reach the end
    of a non-empty line, the whole line becomes the only segment. *)
Lemma queue_rest_whole line v :
  (length line <= limit)%nat ->
  line_buffer (sv_stream v) = [] -> endpos (sv_stream v) = [] ->
  what_omp (sv_stream v) = [] ->
  sv_what_omp v = [] -> sv_line_start v = 0%Z ->
  ((sv_pos v + 1 < Z.of_nat (length line))%Z \/ sv_pos v = (-1)%Z) ->
  exists self1 e,
    queue_rest line false v = Some self1 /\
    line_buffer self1 = [line] /\ endpos self1 = [e] /\
    what_omp self1 = [[]] /\ infile self1 = infile (sv_stream v).
Proof.
  intros Hroom Hb He Hw Ho Hls Hpos. unfold queue_rest. cbv zeta.
  rewrite Ho, Hls.
  destruct (sv_pos v + 1 <? Z.of_nat (length line))%Z eqn:Hlt.
  - destruct (iterate_defined
                (CharFilter_init (slice_from line (sv_pos v + 1)) false true))
      as (ys2 & st2 & E2 & _).
    { cbn [CharFilter_init _content _it]. unfold slice_from.
      rewrite length_skipn. lia. }
    rewrite (first_notfortran_iterate _ _ _ _ _ E2).
    destruct (find_notfortran line (sv_pos v) ys2) as [pos_add |].
    + change 0%Z with (Z.of_nat 0). rewrite slice_from_nat. cbn [skipn].
      cbn [append_segment line_buffer]. rewrite Hb. cbn [app is_empty].
      eexists. eexists. split; [reflexivity |].
      cbn [append_segment line_buffer endpos what_omp infile].
      rewrite Hb, He, Hw. cbn [app]. repeat split.
    + rewrite Hb. cbn [is_empty].
      eexists. eexists. split; [reflexivity |].
      cbn [append_segment line_buffer endpos what_omp infile].
      rewrite Hb, He, Hw. cbn [app]. repeat split.
  - rewrite Hb. cbn [is_empty].
    eexists. eexists. split; [reflexivity |].
    cbn [append_segment line_buffer endpos what_omp infile].
    rewrite Hb, He, Hw. cbn [app]. repeat split.
Qed.

(** When the loop of lines 192-198 reached the end of the line, nothing is
    added. *)
Lemma queue_rest_done line fc v :
  line_buffer (sv_stream v) <> [] ->
  (sv_pos v + 1)%Z = Z.of_nat (length line) ->
  queue_rest line fc v = Some (sv_stream v).
Proof.
  intros Hb Hpos. unfold queue_rest. cbv zeta.
  rewrite Hpos, Z.ltb_irrefl.
  destruct (line_buffer (sv_stream v)); [congruence | reflexivity].
Qed.

(** When the loop of lines 192-198 stopped where a comment opens, the rest
    of the line from [line_start] on is queued. *)
Lemma queue_rest_comment line v k ls :
  unmarked line = true ->
  sv_pos v = (Z.of_nat k - 1)%Z -> (k < length line)%nat ->
  NOTFORTRAN_LINE_RE (firstn 2 (skipn k line)) = true ->
  sv_line_start v = Z.of_nat ls ->
  queue_rest line false v
  = Some (append_segment (sv_stream v)
            (Z.of_nat k - 1 + Z.of_nat 0 - Z.of_nat ls) (skipn ls line)
            (sv_what_omp v)).
Proof.
  intros Hu Hpos Hk Hnf Hls. unfold queue_rest. cbv zeta.
  rewrite Hpos, Hls.
  replace (Z.of_nat k - 1 + 1)%Z with (Z.of_nat k) by lia.
  assert (Hlt : (Z.of_nat k <? Z.of_nat (length line))%Z = true)
    by (apply Z.ltb_lt; lia).
  rewrite Hlt, slice_from_nat.
  destruct (skipn k line) as [| c r] eqn:Esk.
  { apply (f_equal (@length ascii)) in Esk.
    rewrite length_skipn in Esk. simpl in Esk. lia. }
  destruct (second_scan_first c r) as (ys2 & st2 & E2); auto.
  { rewrite <- Esk. apply unmarked_skipn, Hu. }
  rewrite (first_notfortran_iterate _ _ _ _ _ E2). cbn [find_notfortran].
  replace (Z.of_nat k - 1 + 1 + Z.of_nat 0)%Z with (Z.of_nat k) by lia.
  replace (Z.of_nat k - 1 + 3 + Z.of_nat 0)%Z with (Z.of_nat k + 2)%Z by lia.
  rewrite char2_window, Esk, Hnf, slice_from_nat.
  cbn [append_segment line_buffer]. rewrite is_empty_snoc. reflexivity.
Qed.

(** On a line of plain input, with no template continuation pending and
    the scanner outside any interpolation span, the queued segments are
    the line cut in pieces. *)
Lemma queue_segments_plain self line it :
  (length line <= limit)%nat ->
  unmarked line = true ->
  (has_semicolon line = false \/ has_quote line = false) ->
  line_buffer self = [] -> endpos self = [] -> what_omp self = [] ->
  _infypp it = false ->
  exists self1 it1,
    queue_segments self line [] false it = Some (self1, it1) /\
    _infypp it1 = false /\
    infile self1 = infile self /\
    length (endpos self1) = length (line_buffer self1) /\
    what_omp self1 = repeat [] (length (line_buffer self1)) /\
    concat (line_buffer self1) = line /\
    (line = [] -> line_buffer self1 = [[]]) /\
    (line <> [] -> line_buffer self1 <> [] /\ Forall seg_ok (line_buffer self1)).
Proof.
  intros Hroom Hu Hclass Hb He Hw Hi. unfold queue_segments.
  set (scan := update it line true true).
  set (v0 := {| sv_stream := self; sv_what_omp := [];
                sv_line_start := 0; sv_pos := -1 |}).
  destruct (iterate_defined scan) as (ys & it1 & E & P);
    [simpl; lia |].
  assert (Hi1 : _infypp it1 = false).
  { unfold iterate in E. eapply iterate_keeps_infypp; [| | exact E]; auto. }
  rewrite E.
  (* the whole line as the only segment *)
  assert (Hwhole :
            forall self1 e,
              line_buffer self1 = [line] -> endpos self1 = [e] ->
              what_omp self1 = [[]] -> infile self1 = infile self ->
              _infypp it1 = false /\
              infile self1 = infile self /\
              length (endpos self1) = length (line_buffer self1) /\
              what_omp self1 = repeat [] (length (line_buffer self1)) /\
              concat (line_buffer self1) = line /\
              (line = [] -> line_buffer self1 = [[]]) /\
              (line <> [] ->
               line_buffer self1 <> [] /\ Forall seg_ok (line_buffer self1))).
  { intros self1 e H1 H2 H3 H4. rewrite H1, H2, H3.
    cbn [length repeat concat]. rewrite app_nil_r.
    repeat split; auto.
    - intros ->. reflexivity.
    - discriminate.
    - constructor; [| constructor]. split; assumption. }
  set (v := fold_left (split_body line) ys v0).
  assert (Hcase :
            (sv_stream v = self /\ sv_what_omp v = [] /\
             sv_line_start v = 0%Z /\
             ((sv_pos v + 1 < Z.of_nat (length line))%Z \/
              sv_pos v = (-1)%Z)) \/
            (sv_stream v
             = append_segment self (Z.of_nat (length line) - 1) line [] /\
             (sv_pos v + 1)%Z = Z.of_nat (length line)) \/
            (_instring it = [] /\ _incomment it = [] /\
             has_quote line = false)).
  { destruct Hclass as [Hsemi | Hq].
    - destruct P as (_ & _ & _ & Hasc & Hall).
      destruct (fold_no_semicolon line Hsemi ys 0 v0 Hasc Hall eq_refl)
        as [(A1 & A2 & A3 & A4) | (B1 & B2)].
      + left. auto.
      + right. left. auto.
    - destruct (is_empty (_instring it)) eqn:Hs.
      + apply is_empty_true in Hs.
        destruct (is_empty (_incomment it)) eqn:Hc.
        * apply is_empty_true in Hc. right. right. auto.
        * destruct (iterate_in_comment scan) as (it' & E'); auto.
          rewrite E in E'. inversion E'; subst ys.
          left. subst v. simpl. auto.
      + destruct (iterate_in_string scan) as (it' & E'); auto;
          [simpl; lia |].
        rewrite E in E'. inversion E'; subst ys.
        left. subst v. simpl. auto. }
  destruct Hcase as [(A1 & A2 & A3 & A4) | [(B1 & B2) | (Hs & Hc & Hq)]].
  - destruct (queue_rest_whole line v) as (self1 & e & Er & R1 & R2 & R3 & R4);
      try rewrite A1; auto.
    rewrite Er. exists self1, it1. split; [reflexivity |].
    apply (Hwhole self1 e); auto. rewrite R4, A1. reflexivity.
  - rewrite (queue_rest_done line false v).
    + exists (sv_stream v), it1. split; [reflexivity |].
      rewrite B1. apply (Hwhole _ (Z.of_nat (length line) - 1)%Z);
        cbn [append_segment line_buffer endpos what_omp infile];
        rewrite ?Hb, ?He, ?Hw; reflexivity.
    + rewrite B1. cbn [append_segment line_buffer]. rewrite Hb. discriminate.
    + exact B2.
  - (* the scan starts in code state on a line without quote character *)
    destruct (iterate_plain_code line (rounds scan) scan)
      as (it2 & E2); auto; [unfold rounds; simpl; lia |].
    unfold iterate in E. rewrite E in E2. inversion E2 as [[Hys Hit]].
    subst it2.
    change (_it scan) with 0%nat in Hys.
    pose proof (code_prefix_le line) as Hk.
    set (k := code_prefix line) in *.
    destruct (fold_enum line Hu (firstn k line) 0 v0 0)
      as (segs & ls' & F); auto.
    { rewrite length_firstn. cbn [skipn]. rewrite Nat.min_l by lia.
      reflexivity. }
    { rewrite length_firstn. lia. }
    cbv zeta in F. rewrite <- Hys in F. fold v in F.
    destruct F as (F1 & F2 & F3 & F4 & F5 & F6 & F7 & F8 & F9 & F10
                   & F11 & F12).
    rewrite length_firstn, Nat.min_l in * by lia.
    cbn [v0 sv_stream sv_pos] in F1, F2, F3, F4, F10, F11.
    rewrite Hb in F1. rewrite He in F2. rewrite Hw in F3.
    cbn [app length Nat.add] in F1, F2, F3, F7.
    rewrite Nat.sub_0_r in F8. cbn [skipn] in F8.
    assert (Hpos : sv_pos v = (Z.of_nat k - 1)%Z).
    { destruct (firstn k line) as [| c r] eqn:Ef.
      - rewrite (F11 eq_refl).
        apply (f_equal (@length ascii)) in Ef.
        rewrite length_firstn, Nat.min_l in Ef by lia. simpl in Ef.
        rewrite Ef. reflexivity.
      - rewrite F10 by discriminate. lia. }
    destruct (Nat.lt_ge_cases k (length line)) as [Hlt | Hge].
    + (* a comment opens at position k *)
      assert (Hnf := code_prefix_stop line ltac:(fold k; lia)). fold k in Hnf.
      rewrite (queue_rest_comment line v k ls' Hu Hpos Hlt Hnf F6).
      eexists. exists it1. split; [reflexivity |].
      cbn [append_segment line_buffer endpos what_omp infile].
      rewrite F1, F3, F5.
      rewrite !length_app, F2. cbn [length].
      assert (Hcat : concat (segs ++ [skipn ls' line]) = line).
      { rewrite concat_app. cbn [concat]. rewrite app_nil_r, F8.
        apply firstn_skipn. }
      repeat split; auto.
      * rewrite repeat_snoc. f_equal. lia.
      * intros ->. simpl in Hlt. lia.
      * destruct segs; discriminate.
      * apply Forall_app. split; [exact F9 |].
        constructor; [| constructor]. split.
        -- intros Ez. apply (f_equal (@length ascii)) in Ez.
           rewrite length_skipn in Ez. simpl in Ez. lia.
        -- apply unmarked_skipn, Hu.
    + (* the whole line was scanned *)
      assert (Hkl : k = length line) by lia.
      destruct line as [| c0 l0] eqn:El.
      * (* the empty line *)
        assert (Hnil : segs = []).
        { destruct segs as [| sg segs']; [reflexivity |].
          inversion F9 as [| ? ? [Hne _] _]; subst.
          rewrite firstn_nil in F8. cbn [concat] in F8.
          destruct sg; [congruence | discriminate]. }
        rewrite Hnil in *. cbn [length repeat Nat.add] in *.
        destruct (queue_rest_whole [] v)
          as (self1 & e & Er & R1 & R2 & R3 & R4); auto.
        { destruct (endpos (sv_stream v)); [reflexivity | discriminate]. }
        { rewrite F6. simpl in Hkl. f_equal. lia. }
        rewrite Er. exists self1, it1. split; [reflexivity |].
        apply (Hwhole self1 e); auto. rewrite R4. exact F4.
      * rewrite <- El in *.
        assert (Hne : firstn k line <> []).
        { rewrite Hkl, firstn_all, El. discriminate. }
        assert (Hls : ls' = length line) by (apply F12; auto).
        assert (Hcat : concat segs = line).
        { rewrite F8, Hls. apply firstn_all. }
        assert (Hsegs : segs <> []).
        { intros Hz. rewrite Hz in Hcat. simpl in Hcat. rewrite El in Hcat.
          discriminate. }
        rewrite (queue_rest_done line false v).
        -- exists (sv_stream v), it1. split; [reflexivity |].
           rewrite F1, F3, F2.
           repeat split; auto.
           intros Habs. rewrite El in Habs. discriminate.
        -- rewrite F1. exact Hsegs.
        -- rewrite Hpos. lia.
Qed.
(** ** The assembler on plain input *)

Lemma concat_no_sentinels (segs : list str) :
  concat (map (fun p => fst p ++ snd p)
            (combine (repeat [] (length segs)) segs))
  = concat segs.
Proof.
  induction segs as [| sg segs IH]; [reflexivity |].
  simpl. rewrite IH. reflexivity.
Qed.

Lemma pending_ok self :
  stream_ok self ->
  pending self = concat (line_buffer self) ++ expand_tabs (infile self).
Proof.
  intros (_ & Hw & _). unfold pending. rewrite Hw, concat_no_sentinels.
  reflexivity.
Qed.

Lemma refill_plain self it :
  stream_ok self -> line_buffer self = [] -> _infypp it = false ->
  exists self1 it1,
    refill self false it = Some (self1, it1) /\
    _infypp it1 = false /\
    (plain (infile self1) = true /\
     (length (expand_tabs (infile self1)) <= limit)%nat) /\
    length (endpos self1) = length (line_buffer self1) /\
    what_omp self1 = repeat [] (length (line_buffer self1)) /\
    concat (line_buffer self1) ++ expand_tabs (infile self1)
    = expand_tabs (infile self) /\
    ((infile self = [] /\ line_buffer self1 = [[]] /\ infile self1 = []) \/
     (line_buffer self1 <> [] /\ Forall seg_ok (line_buffer self1))).
Proof.
  intros (He & Hw & _ & Hp & Hroom) Hb Hs.
  rewrite Hb in He, Hw. simpl in He, Hw.
  assert (He' : endpos self = []) by (destruct (endpos self); auto; discriminate).
  unfold refill.
  destruct (readline_split (infile self)) as [Hsplit Hnil].
  destruct (plain_readline _ Hp) as (Hline & Hclass & Hrest).
  destruct (readline (infile self)) as [raw rest].
  cbn [fst snd] in Hsplit, Hnil, Hline, Hclass, Hrest.
  rewrite <- Hsplit, expand_tabs_app, length_app in Hroom.
  rewrite (unmarked_no_sentinel _ Hline).
  match goal with
  | |- context [queue_segments ?st _ _ _ _] =>
      destruct (queue_segments_plain st (expand_tabs raw) it)
        as (self1 & it1 & E & Q1 & Q2 & Q3 & Q4 & Q5 & Q6 & Q7); auto;
        [lia |]
  end.
  exists self1, it1. split; [exact E |]. simpl in Q2.
  rewrite Q2, Q5, <- Hsplit, expand_tabs_app.
  repeat split; auto; try lia.
  destruct (expand_tabs raw) as [| c r] eqn:El.
  - left. apply expand_tabs_nil_inv in El. subst raw.
    specialize (Hnil eq_refl). rewrite Hnil in Hsplit. simpl in Hsplit.
    subst rest. auto.
  - right. apply Q7. discriminate.
Qed.

Lemma consume_plain self l seg lb :
  line_buffer self = seg :: lb -> seg_ok seg ->
  length (endpos self) = length (line_buffer self) ->
  what_omp self = repeat [] (length (line_buffer self)) ->
  locals_ok l ->
  exists self' l' f,
    consume self l = Done (self', l', f) /\
    f <> BreakEmpty /\
    line_buffer self' = lb /\ infile self' = infile self /\
    length (endpos self') = length lb /\
    what_omp self' = repeat [] (length lb) /\
    lines l' = lines l ++ [seg] /\
    locals_ok l'.
Proof.
  intros Hb [Hne Hp] He Hw [Hf Hs]. unfold consume.
  rewrite Hb in *. simpl in He, Hw.
  destruct (endpos self) as [| e ep]; [discriminate |].
  rewrite Hw. simpl in He.
  destruct seg as [| c r]; [congruence |]. cbn [is_empty].
  rewrite Hf.
  assert (Hfc : forall cm,
             next_fypp_cont (slice (c :: r) (e + 1) (e + 3)) cm false
             = Some false).
  { intros cm. unfold next_fypp_cont.
    rewrite (unmarked_no_fypp_line_slice _ _ _ Hp).
    destruct (is_empty cm); reflexivity. }
  rewrite Hfc.
  eexists. eexists. eexists. split; [reflexivity |].
  simpl. repeat split; auto.
  destruct (_ || false); discriminate.
Qed.

Lemma iteration_plain self l :
  stream_ok self -> locals_ok l ->
  exists self' l' f,
    iteration self l = Done (self', l', f) /\
    stream_ok self' /\ locals_ok l' /\
    concat (lines l') ++ pending self'
    = concat (lines l) ++ pending self /\
    match f with
    | BreakEmpty => pending self = [] /\ pending self' = []
    | _ => (length (pending self') < length (pending self))%nat
    end.
Proof.
  intros Hok Hl. unfold iteration.
  destruct (line_buffer self) as [| seg lb] eqn:Hb; cbn [is_empty].
  - (* nothing queued: read a line *)
    destruct Hl as [Hf Hs]. rewrite Hf.
    destruct (refill_plain self (string_iter l) Hok Hb Hs)
      as (self1 & it1 & E & Q1 & [Q2 Q2r] & Q3 & Q4 & Q5 & Q6).
    rewrite E. rewrite (pending_ok _ Hok), Hb. cbn [concat app].
    destruct Q6 as [(Hin & Hb1 & Hin1) | (Hne & Hall)].
    + (* end of the input *)
      unfold consume. rewrite Hb1.
      destruct (endpos self1) as [| e ep]; [rewrite Hb1 in Q3; discriminate |].
      rewrite Q4, Hb1. cbn [length repeat is_empty].
      eexists. eexists. eexists. split; [reflexivity |].
      rewrite Hb1 in Q3. simpl in Q3.
      assert (ep = []) by (destruct ep; auto; discriminate). subst ep.
      assert (Hok' : stream_ok
                       {| line_buffer := []; infile := infile self1;
                          line_nr := line_nr self1; endpos := [];
                          what_omp := [] |}).
      { unfold stream_ok. simpl. repeat split; auto. }
      split; [exact Hok' |]. split; [split; [exact Hf | exact Q1] |].
      unfold pending. simpl. rewrite Hin, Hin1. simpl.
      auto.
    + destruct (line_buffer self1) as [| seg lb] eqn:Hb1; [congruence |].
      inversion Hall as [| ? ? Hseg Hrest]; subst.
      destruct (consume_plain self1 (set_string_iter l it1) seg lb)
        as (self' & l' & f & Ec & Hnb & C1 & C2 & C3 & C4 & C5 & C6); auto.
      { rewrite Hb1. exact Q3. }
      { rewrite Hb1. exact Q4. }
      { split; [exact Hf | exact Q1]. }
      rewrite Ec. exists self', l', f. split; [reflexivity |].
      assert (Hok' : stream_ok self').
      { unfold stream_ok. rewrite C1, C2, C3, C4. repeat split; auto. }
      split; [exact Hok' |]. split; [exact C6 |].
      rewrite (pending_ok _ Hok'), C1, C2, C5. simpl in C5.
      rewrite <- Q5. cbn [concat].
      rewrite concat_app. cbn [concat]. rewrite app_nil_r, <- !app_assoc.
      split; [reflexivity |].
      assert (Hlen : (length (concat lb ++ expand_tabs (infile self1))
                      < length (seg ++ concat lb
                                ++ expand_tabs (infile self1)))%nat).
      { rewrite !length_app. destruct Hseg as [Hne' _].
        destruct seg; [congruence | simpl; lia]. }
      destruct f; [congruence | exact Hlen | exact Hlen].
  - (* a queued segment is popped *)
    destruct Hok as (He & Hw & Hall & Hp & Hroom).
    rewrite Hb in He, Hw, Hall.
    inversion Hall as [| ? ? Hseg Hrest]; subst.
    destruct (consume_plain self (set_string_iter l (string_iter l)) seg lb)
      as (self' & l' & f & Ec & Hnb & C1 & C2 & C3 & C4 & C5 & C6);
      try rewrite Hb; auto.
    rewrite Ec. exists self', l', f. split; [reflexivity |].
    assert (Hok : stream_ok self).
    { unfold stream_ok. rewrite Hb. repeat split; auto. }
    assert (Hok' : stream_ok self').
    { unfold stream_ok. rewrite C1, C2, C3, C4. repeat split; auto. }
    split; [exact Hok' |]. split; [exact C6 |].
    rewrite (pending_ok _ Hok'), (pending_ok _ Hok), C1, C2, C5, Hb.
    simpl lines. cbn [concat].
    rewrite concat_app. cbn [concat]. rewrite app_nil_r, <- !app_assoc.
    split; [reflexivity |].
    assert (Hlen : (length (concat lb ++ expand_tabs (infile self))
                    < length (seg ++ concat lb
                              ++ expand_tabs (infile self)))%nat).
    { rewrite !length_app. destruct Hseg as [Hne' _].
      destruct seg; [congruence | simpl; lia]. }
    destruct f; [congruence | exact Hlen | exact Hlen].
Qed.

Lemma while_loop_plain fuel :
  forall self l,
    stream_ok self -> locals_ok l ->
    (length (pending self) < fuel)%nat ->
    exists self' l',
      while_loop fuel self l = Done (self', l') /\
      stream_ok self' /\
      concat (lines l') ++ pending self'
      = concat (lines l) ++ pending self /\
      (length (pending self') <= length (pending self))%nat /\
      (pending self <> [] ->
       (length (pending self') < length (pending self))%nat).
Proof.
  induction fuel as [| fuel IH]; intros self l Hok Hl Hf; [lia |].
  cbn [while_loop].
  destruct (iteration_plain self l Hok Hl)
    as (self1 & l1 & f & E & Hok1 & Hl1 & Hcat & Hf1).
  rewrite E. destruct f.
  - destruct Hf1 as [P0 P1]. exists self1, l1.
    split; [reflexivity |]. split; [exact Hok1 |]. split; [exact Hcat |].
    split; [rewrite P0, P1; lia | intros Hne; congruence].
  - exists self1, l1.
    split; [reflexivity |]. split; [exact Hok1 |]. split; [exact Hcat |].
    split; [lia | intros _; exact Hf1].
  - destruct (IH self1 l1 Hok1 Hl1) as (self' & l' & E' & Hok' & Hcat' & Hle & _);
      [lia |].
    exists self', l'. split; [exact E' |]. split; [exact Hok' |].
    split; [congruence |]. split; lia.
Qed.

Lemma next_fortran_line_plain fuel self :
  stream_ok self -> (length (pending self) < fuel)%nat ->
  exists joined cs ls self',
    next_fortran_line fuel self = Done ((joined, cs, ls), self') /\
    stream_ok self' /\
    concat ls ++ pending self' = pending self /\
    (length (pending self') <= length (pending self))%nat /\
    (pending self <> [] ->
     (length (pending self') < length (pending self))%nat).
Proof.
  intros Hok Hf. unfold next_fortran_line.
  destruct (while_loop_plain fuel self locals_init Hok)
    as (self' & l' & E & Hok' & Hcat & Hle & Hlt); auto.
  { split; reflexivity. }
  rewrite E. exists (joined_line l'), (comments l'), (lines l'), self'.
  split; [reflexivity |]. split; [exact Hok' |].
  split; [exact Hcat |]. split; [exact Hle | exact Hlt].
Qed.

Lemma physical_lines_plain fuel n :
  forall self,
    stream_ok self -> (length (pending self) < fuel)%nat ->
    exists ls self',
      physical_lines n fuel self = Done (ls, self') /\
      concat ls ++ pending self' = pending self /\
      ((length (pending self) <= n)%nat -> pending self' = []).
Proof.
  induction n as [| n IH]; intros self Hok Hf.
  - exists [], self. repeat split; auto.
    intros H. destruct (pending self); [reflexivity | simpl in H; lia].
  - cbn [physical_lines].
    destruct (next_fortran_line_plain fuel self Hok Hf)
      as (j & cs & ls & self1 & E & Hok1 & Hcat & Hle & Hlt).
    rewrite E.
    destruct (IH self1 Hok1) as (rest & self' & E' & Hcat' & Hend); [lia |].
    rewrite E'. exists (ls ++ rest), self'. split; [reflexivity |].
    split.
    + rewrite concat_app, <- app_assoc, Hcat', Hcat. reflexivity.
    + intros Hn. apply Hend.
      destruct (pending self) as [| c0 p0] eqn:Ep.
      * simpl in Hle. lia.
      * assert (length (pending self1) < length (c0 :: p0))%nat
          by (apply Hlt; discriminate).
        simpl in *. lia.
Qed.

(** ** The round trip *)

(** X27. The round trip on plain input. Take a text that holds none of
    the two-character sequences that start a sentinel, an interpolation
    span or a template line directive, in which no line holds both a
    semicolon and a quote character, and which, with its tabs expanded,
    has no more characters than calls of [__next__] may nest. Then any
    number of successive calls return, and the physical lines they
    return, followed by the text still queued or unread, are the input
    with its tabs expanded. Once the number of calls reaches the length
    of the expanded text nothing is left over: the physical lines alone
    are the expanded input, character for character. Lines split at
    semicolons, comments, strings and continuation lines are included. *)
Theorem X27_round_trip_on_plain_input :
  forall text,
    plain text = true ->
    (length (expand_tabs text) <= limit)%nat ->
    forall n fuel,
      (length (expand_tabs text) < fuel)%nat ->
      exists ls self',
        physical_lines n fuel (InputStream_init text) = Done (ls, self') /\
        concat ls ++ pending self' = expand_tabs text /\
        ((length (expand_tabs text) <= n)%nat ->
         concat ls = expand_tabs text).
Proof.
  intros text Hp Hroom n fuel Hf.
  assert (Hok : stream_ok (InputStream_init text)).
  { unfold stream_ok. simpl. repeat split; auto. }
  assert (Hpend : pending (InputStream_init text) = expand_tabs text)
    by reflexivity.
  destruct (physical_lines_plain fuel n (InputStream_init text) Hok)
    as (ls & self' & E & Hcat & Hend); [rewrite Hpend; exact Hf |].
  rewrite Hpend in *.
  exists ls, self'. split; [exact E |]. split; [exact Hcat |].
  intros Hn. rewrite (Hend Hn), app_nil_r in Hcat. exact Hcat.
Qed.

(** * Further properties of the scanner *)

Lemma unfiltered_id self :
  _filter_comments self = false -> _filter_strings self = false ->
  unfiltered self = self.
Proof. destruct self; simpl; intros -> ->; reflexivity. Qed.

Lemma map_snd_enum_from (x : str) i : map snd (enum_from i x) = x.
Proof.
  revert i. induction x as [| c r IH]; intros i; [reflexivity |].
  simpl. rewrite IH. reflexivity.
Qed.

Lemma iterate_unfiltered :
  forall x fuel self,
    skipn (_it self) (_content self) = x ->
    _filter_comments self = false -> _filter_strings self = false ->
    (length x < fuel)%nat ->
    exists self', iterate_ fuel self = Some (enum_from (_it self) x, self').
Proof.
  induction x as [| c r IH]; intros fuel self Hx Hfc Hfs Hf;
    (destruct fuel as [| fuel]; [lia |]); cbn [iterate_].
  - rewrite (next_exhausted self) by (apply skipn_nil_inv; exact Hx).
    exists self. reflexivity.
  - destruct (skipn_cons_inv _ _ _ _ Hx) as [Hn Hr].
    destruct (unfiltered_step self c Hn) as (st & E & Hit & Hc).
    rewrite (unfiltered_id self Hfc Hfs) in E. rewrite E.
    destruct (next_call_synced _ _ E) as [(_ & P2 & P3 & _) _].
    cbn [state_of] in P2, P3.
    destruct (IH fuel st) as (st' & E');
      [ rewrite Hit, Hc; exact Hr | congruence | congruence
      | simpl in Hf; lia | ].
    rewrite E', Hit. exists st'. reflexivity.
Qed.

(** X1. With both filters off the scanner emits every character. An
    object that [update] has bound to a text, whatever scan state it was
    in, yields every position of the text with its character, in order,
    and [filter_all] returns the text unchanged; so does a fresh object. *)
Theorem X1_scan_without_filters :
  forall (self : CharFilter) (string : str),
    (exists self',
        iterate (update self string false false)
        = Some (enum_from 0 string, self')) /\
    filter_all (update self string false false) = Some string /\
    filter_all (CharFilter_init string false false) = Some string.
Proof.
  intros self string.
  assert (G : forall st, _content st = string -> _it st = 0%nat ->
                         _filter_comments st = false ->
                         _filter_strings st = false ->
                         exists st', iterate st = Some (enum_from 0 string, st')).
  { intros st Hc Hi Hfc Hfs.
    destruct (iterate_unfiltered string (rounds st) st) as (st' & E); auto.
    - rewrite Hc, Hi. reflexivity.
    - unfold rounds. rewrite Hc, Hi. lia.
    - rewrite Hi in E. exists st'. exact E. }
  split; [apply G; reflexivity |].
  split.
  - destruct (G (update self string false false)) as (st' & E);
      try reflexivity.
    unfold filter_all, filter_all_. fold (iterate (update self string false false)).
    rewrite E, map_snd_enum_from. reflexivity.
  - destruct (G (CharFilter_init string false false)) as (st' & E);
      try reflexivity.
    unfold filter_all, filter_all_.
    fold (iterate (CharFilter_init string false false)).
    rewrite E, map_snd_enum_from. reflexivity.
Qed.

(** X2. What a scan yields are positions of the text. Whatever the text,
    the position, the scan state and the filter flags: when iterating the
    scanner to exhaustion returns, every pair [(pos, char)] it has
    yielded has [char] at index [pos] of the text, the positions increase
    strictly and start at the position of the iterator or later, and
    [filter_all] returns the characters of these pairs, so that the
    filtered text is a subsequence of the input. [filter_all] raises
    [RecursionError] exactly when the iteration does. The iteration
    returns when [filter_strings] is off, and when no more characters are
    left than calls of [__next__] may nest. *)
Theorem X2_yields_are_positions :
  forall self : CharFilter,
    (forall ys self',
        iterate self = Some (ys, self') ->
        filter_all self = Some (map snd ys) /\
        ascending (_it self) ys /\
        Forall (fun y => nth_error (_content self) (fst y) = Some (snd y))
          ys /\
        _content self' = _content self) /\
    (iterate self = None <-> filter_all self = None) /\
    (_filter_strings self = false
     \/ (length (_content self) - _it self <= limit)%nat ->
     exists ys self', iterate self = Some (ys, self')).
Proof.
  intros self. split; [| split].
  - intros ys st E. pose proof (iterate_post_of _ _ _ E) as P.
    unfold filter_all, filter_all_. fold (iterate self). rewrite E.
    destruct P as (P1 & _ & _ & P4 & P5). auto.
  - unfold filter_all, filter_all_. fold (iterate self).
    destruct (iterate self) as [[ys st] |]; split; intros H;
      try discriminate; reflexivity.
  - intros [H | H].
    + apply iterate_strings_unfiltered; [exact H | unfold rounds; lia].
    + destruct (iterate_defined self H) as (ys & st & E & _).
      exists ys, st. exact E.
Qed.

Lemma fypp_open_nonempty x : FYPP_OPEN_RE x = true -> is_empty x = false.
Proof. destruct x; [discriminate | reflexivity]. Qed.

Ltac settle_flags self :=
  unfold scan_inv; simpl;
  repeat match goal with
  | E : FYPP_OPEN_RE _ = true |- _ =>
      apply fypp_open_nonempty in E; rewrite E
  end;
  destruct (_infypp self), (is_empty (_instring self)),
    (is_empty (_incomment self)); simpl in *; try discriminate; auto.

Lemma next_scan_inv fuel :
  forall self r,
    scan_inv self = true -> next_ fuel self = Some r ->
    scan_inv (state_of r) = true.
Proof.
  induction fuel as [| fuel IH]; intros self r Hi H; [discriminate |].
  cbn [next_] in H.
  destruct (nth_error (_content self) (_it self)) as [char |] eqn:Hn.
  - cbn zeta in H. unfold scan_inv in Hi.
    repeat match type of H with
    | context [if ?b then _ else _] => destruct b eqn:?
    end; simpl in *;
    try (inversion H; subst; settle_flags self; fail);
    try (eapply IH; [| exact H]; settle_flags self; fail).
    (* closing marker of an interpolation span: two nested calls *)
    destruct (next_ fuel (set_instring (set_it self (S (_it self))) [] false))
      as [[pos1 char1 st1 | st1] |] eqn:E1; try discriminate.
    + apply IH in E1; [| settle_flags self].
      eapply IH; [exact E1 | exact H].
    + inversion H; subst. eapply IH; [| exact E1]. settle_flags self.
  - inversion H; subst. exact Hi.
Qed.

Lemma iterate_scan_inv fuel :
  forall self ys self',
    scan_inv self = true -> iterate_ fuel self = Some (ys, self') ->
    scan_inv self' = true.
Proof.
  induction fuel as [| fuel IH]; intros self ys self' Hi H; [discriminate |].
  cbn [iterate_] in H.
  destruct (__next__ self) as [[pos char st | st] |] eqn:E; try discriminate.
  - apply next_scan_inv in E; [| exact Hi].
    destruct (iterate_ fuel st) as [[zs st'] |] eqn:E'; [| discriminate].
    inversion H; subst. eapply IH; [exact E | exact E'].
  - apply next_scan_inv in E; [| exact Hi]. inversion H; subst. exact E.
Qed.

(** X3. Two conditions on the scan state hold of a fresh object and are
    kept by [update], by every call of [__next__] and by a whole
    iteration: the interpolation flag [_infypp] is set only while
    [_instring] is not empty, and [_instring] and [_incomment] are never
    both non-empty. *)
Theorem X3_scan_state_invariant :
  (forall string fc fs, scan_inv (CharFilter_init string fc fs) = true) /\
  (forall self string fc fs,
      scan_inv self = true -> scan_inv (update self string fc fs) = true) /\
  (forall self r,
      scan_inv self = true -> __next__ self = Some r ->
      scan_inv (state_of r) = true) /\
  (forall self ys self',
      scan_inv self = true -> iterate self = Some (ys, self') ->
      scan_inv self' = true).
Proof.
  split; [reflexivity |]. split; [intros self string fc fs H; exact H |].
  split.
  - intros self r Hi H. eapply next_scan_inv; eassumption.
  - intros self ys self' Hi H. eapply iterate_scan_inv; eassumption.
Qed.

Lemma next_keeps_incomment fuel :
  forall self r,
    is_empty (_incomment self) = false -> next_ fuel self = Some r ->
    _incomment (state_of r) = _incomment self /\
    (_filter_comments self = true -> exists st, r = StopIteration st).
Proof.
  induction fuel as [| fuel IH]; intros self r Hi H; [discriminate |].
  cbn [next_] in H.
  destruct (nth_error (_content self) (_it self)) as [char |] eqn:Hn.
  - cbn zeta in H.
    repeat match type of H with
    | context [if ?b then _ else _] => destruct b eqn:?
    end; simpl in *; try congruence;
    try (inversion H; subst; simpl; split; [reflexivity |];
         intros Hfc; try (eexists; reflexivity);
         rewrite Hfc, Hi in *; discriminate);
    try (apply IH in H; [exact H | exact Hi]).
    destruct (next_ fuel (set_instring (set_it self (S (_it self))) [] false))
      as [[pos1 char1 st1 | st1] |] eqn:E1; try discriminate.
    + apply IH in E1; [| exact Hi]. simpl in E1. destruct E1 as [E1 E2].
      apply IH in H; [| rewrite E1; exact Hi].
      destruct H as [H1 H2]. split; [congruence |].
      intros Hfc. destruct (E2 Hfc) as (st & Habs). discriminate.
    + inversion H; subst. apply IH in E1; [| exact Hi]. exact E1.
  - inversion H; subst. split; [reflexivity |]. intros _. eexists. reflexivity.
Qed.

(** In comment state with no string or span open, and comments filtered,
    a call stops and nests none. *)
Lemma next_comment_stop f st0 :
  _instring st0 = [] -> is_empty (_incomment st0) = false ->
  _filter_comments st0 = true ->
  exists st, next_ (S f) st0 = Some (StopIteration st).
Proof.
  intros Hs Hc Hf.
  destruct (next_comment_any f st0 Hs Hc) as (r & E & _).
  destruct (next_keeps_incomment _ _ _ Hc E) as [_ K].
  destruct (K Hf) as (st & ->). exists st. exact E.
Qed.

(** In comment state, with comments filtered, a call stops. It nests one
    call at most, and none when no string or span is open. *)
Lemma next_comment_stops frames self :
  is_empty (_incomment self) = false -> _filter_comments self = true ->
  (1 <= frames)%nat \/ _instring self = [] ->
  exists st, next_ (S frames) self = Some (StopIteration st).
Proof.
  intros Hi Hfc Hr.
  destruct Hr as [Hr | Hr]; [| apply next_comment_stop; assumption].
  destruct frames as [| f]; [lia |]. clear Hr.
  remember (S f) as k eqn:Hk. cbn [next_].
  destruct (nth_error (_content self) (_it self)) as [char |];
    [| eexists; reflexivity].
  cbn zeta.
  repeat match goal with
  | |- context [if ?b then _ else _] => destruct b eqn:?
  end; simpl in *;
  try (eexists; reflexivity);
  try (rewrite Hfc, Hi in *; discriminate);
  try (subst k; apply next_comment_stop; simpl; auto; fail).
  subst k.
  destruct (next_comment_stop f
              (set_instring (set_it self (S (_it self))) [] false))
    as (st & E); [reflexivity | exact Hi | exact Hfc |].
  rewrite E. eexists. reflexivity.
Qed.

(** A scan in comment state, with no string or span open and comments
    filtered, yields nothing and changes nothing in the scan state. *)
Lemma iterate_in_comment_state self :
  _instring self = [] -> is_empty (_incomment self) = false ->
  _filter_comments self = true ->
  exists self',
    iterate self = Some ([], self') /\
    _instring self' = [] /\ _incomment self' = _incomment self.
Proof.
  intros Hs Hi Hfc. unfold iterate. unfold rounds at 1. cbn [iterate_].
  destruct (next_comment_any limit self Hs Hi) as (r & E & Ks & K).
  destruct (next_keeps_incomment _ _ _ Hi E) as [_ K2].
  destruct (K2 Hfc) as (st & ->).
  fold (__next__ self) in E. rewrite E.
  exists st. split; [reflexivity |]. split; [exact Ks | exact K].
Qed.

Lemma iterate_comment_state self :
  is_empty (_incomment self) = false -> _filter_comments self = true ->
  (1 <= limit)%nat \/ _instring self = [] ->
  exists self',
    iterate self = Some ([], self') /\ _incomment self' = _incomment self.
Proof.
  intros Hi Hfc Hr. unfold iterate. unfold rounds at 1. cbn [iterate_].
  destruct (next_comment_stops limit self Hi Hfc Hr) as (st & E).
  fold (__next__ self) in E. rewrite E.
  destruct (next_keeps_incomment _ _ _ Hi E) as [K1 _].
  exists st. split; [reflexivity | exact K1].
Qed.

(** X4. The comment state is never left. Once [_incomment] is not empty
    no call of [__next__] changes it, and [update] keeps it; so an object
    in comment state that is bound to a new text with [filter_comments] on
    yields nothing of that text, whatever it holds, and [filter_all]
    returns the empty string. The first call stops; it nests one call
    when the object was left inside a string or span that the new text
    closes at once, and none otherwise. *)
Theorem X4_comment_state_persists :
  (forall self r,
      is_empty (_incomment self) = false -> __next__ self = Some r ->
      _incomment (state_of r) = _incomment self) /\
  (forall self string fs,
      is_empty (_incomment self) = false ->
      (1 <= limit)%nat \/ _instring self = [] ->
      exists self',
        iterate (update self string true fs) = Some ([], self') /\
        _incomment self' = _incomment self /\
        filter_all (update self string true fs) = Some []).
Proof.
  split.
  - intros self r Hi H. eapply next_keeps_incomment; eassumption.
  - intros self string fs Hi Hr.
    destruct (iterate_comment_state (update self string true fs))
      as (st & E & K); auto.
    exists st. split; [exact E |]. split; [exact K |].
    unfold filter_all, filter_all_.
    fold (iterate (update self string true fs)). rewrite E. reflexivity.
Qed.

(** In comment state a line is queued whole. *)
Lemma queue_segments_in_comment self line omp fc it :
  line_buffer self = [] -> is_empty (_incomment it) = false ->
  _instring it = [] ->
  (forall self1 it1,
      queue_segments self line omp fc it = Some (self1, it1) ->
      exists e w,
        line_buffer self1 = [line] /\
        endpos self1 = endpos self ++ [e] /\
        what_omp self1 = what_omp self ++ [w] /\
        (w = omp \/ w = []) /\
        infile self1 = infile self /\ line_nr self1 = line_nr self /\
        _incomment it1 = _incomment it) /\
  (fc = true \/ (length line <= limit)%nat ->
   exists self1 it1, queue_segments self line omp fc it = Some (self1, it1)).
Proof.
  intros Hb Hi Hs. unfold queue_segments.
  destruct (iterate_comment_state (update it line true true))
    as (it1 & E & K); auto.
  rewrite E. cbn [fold_left]. unfold queue_rest.
  cbn [sv_pos sv_line_start sv_what_omp sv_stream].
  change (-1 + 1)%Z with 0%Z.
  change (slice_from line 0) with line.
  assert (G : forall st e w,
             line_buffer st = [line] -> endpos st = endpos self ++ [e] ->
             what_omp st = what_omp self ++ [w] -> (w = omp \/ w = []) ->
             infile st = infile self -> line_nr st = line_nr self ->
             (forall self1 it1',
                 Some (st, it1) = Some (self1, it1') ->
                 exists e w,
                   line_buffer self1 = [line] /\
                   endpos self1 = endpos self ++ [e] /\
                   what_omp self1 = what_omp self ++ [w] /\
                   (w = omp \/ w = []) /\
                   infile self1 = infile self /\
                   line_nr self1 = line_nr self /\
                   _incomment it1' = _incomment it) /\
             (fc = true \/ (length line <= limit)%nat ->
              exists self1 it1', Some (st, it1) = Some (self1, it1'))).
  { intros st e w G1 G2 G3 G4 G5 G6. split.
    - intros self1 it1' Hq. inversion Hq; subst self1 it1'.
      exists e, w. repeat split; auto.
    - intros _. exists st, it1. reflexivity. }
  assert (Gfall : forall st : InputStream,
             st = self ->
             (forall self1 it1',
                 Some (if is_empty (line_buffer st)
                       then append_segment st (Z.of_nat (length line))
                              line []
                       else st, it1) = Some (self1, it1') ->
                 exists e w,
                   line_buffer self1 = [line] /\
                   endpos self1 = endpos self ++ [e] /\
                   what_omp self1 = what_omp self ++ [w] /\
                   (w = omp \/ w = []) /\
                   infile self1 = infile self /\
                   line_nr self1 = line_nr self /\
                   _incomment it1' = _incomment it) /\
             (fc = true \/ (length line <= limit)%nat ->
              exists self1 it1',
                Some (if is_empty (line_buffer st)
                      then append_segment st (Z.of_nat (length line))
                             line []
                      else st, it1) = Some (self1, it1'))).
  { intros st ->. rewrite Hb. cbn [is_empty].
    apply (G _ (Z.of_nat (length line)) []);
      cbn [append_segment line_buffer endpos what_omp infile line_nr];
      rewrite ?Hb; auto. }
  destruct (0 <? Z.of_nat (length line))%Z eqn:Hlen.
  - destruct fc.
    + cbn [append_segment line_buffer]. rewrite Hb. cbn [app is_empty].
      apply (G _ (-1)%Z omp);
        cbn [append_segment line_buffer endpos what_omp infile line_nr];
        rewrite ?Hb; auto.
    + destruct (first_notfortran line (-1) (CharFilter_init line false true))
        as [[pos_add |] |] eqn:E2.
      * cbn [append_segment line_buffer]. rewrite Hb.
        cbn [app is_empty].
        apply (G _ (-1 + pos_add - 0)%Z omp);
          cbn [append_segment line_buffer endpos what_omp infile
               line_nr];
          rewrite ?Hb; auto.
      * apply Gfall. reflexivity.
      * split; [intros ? ? ?; discriminate |].
        intros [Hr | Hr]; [discriminate |].
        destruct (iterate_defined (CharFilter_init line false true))
          as (ys2 & st2 & E2' & _); [simpl; lia |].
        rewrite (first_notfortran_iterate _ _ _ _ _ E2') in E2.
        discriminate.
  - apply Gfall. reflexivity.
Qed.

Lemma fypp_open_tail c r :
  FYPP_OPEN_RE (c :: r) = false ->
  FYPP_OPEN_RE (firstn 2 (c :: r)) = false /\ FYPP_OPEN_RE r = false.
Proof.
  destruct r as [| d r]; [auto |].
  cbn [FYPP_OPEN_RE firstn]. intros H.
  apply orb_false_elim in H. destruct H as [H1 H2].
  rewrite H1. auto.
Qed.

Lemma code_prefix_before x :
  forall i, (i < code_prefix x)%nat ->
            NOTFORTRAN_LINE_RE (firstn 2 (skipn i x)) = false.
Proof.
  induction x as [| c r IH]; intros i H; [simpl in H; lia |].
  cbn [code_prefix] in H.
  destruct (NOTFORTRAN_LINE_RE (firstn 2 (c :: r))) eqn:E; [lia |].
  destruct i as [| i]; [exact E |].
  cbn [skipn]. apply IH. lia.
Qed.

(** In code state, on text without quote character and interpolation
    marker, the scan yields every character up to the first one that opens
    a comment. *)
Lemma iterate_code_prefix :
  forall x fuel self,
    skipn (_it self) (_content self) = x ->
    FYPP_OPEN_RE x = false -> has_quote x = false ->
    _instring self = [] -> _incomment self = [] ->
    _filter_comments self = true ->
    (length x < fuel)%nat ->
    exists self',
      iterate_ fuel self
      = Some (enum_from (_it self) (firstn (code_prefix x) x), self').
Proof.
  induction x as [| c r IH]; intros fuel self Hx Hp Hq Hs Hc Hfc Hf;
    (destruct fuel as [| fuel]; [lia |]); cbn [iterate_].
  - rewrite (next_exhausted self) by (apply skipn_nil_inv; exact Hx).
    exists self. auto.
  - destruct (skipn_cons_inv _ _ _ _ Hx) as [Hn Hr].
    destruct (fypp_open_tail _ _ Hp) as [Ho Hp'].
    rewrite <- Hx in Ho.
    apply has_quote_cons in Hq. destruct Hq as [Hqc Hqr].
    cbn [code_prefix].
    destruct (NOTFORTRAN_LINE_RE (firstn 2 (c :: r))) eqn:Hnf.
    + rewrite <- Hx in Hnf.
      rewrite (next_comment_start self c Hn Hs Hc Ho Hnf Hfc).
      eexists. reflexivity.
    + rewrite <- Hx in Hnf.
      rewrite (next_code_char self c Hn Hs Hc Ho Hnf Hqc).
      destruct (IH fuel (set_it self (S (_it self))))
        as (self' & E); simpl; auto.
      * simpl in Hf. lia.
      * simpl in E. rewrite E. exists self'. reflexivity.
Qed.

(** X5. On a text with no quote character and no opening interpolation
    marker, a fresh scanner with [filter_comments] on returns exactly the
    characters before the first position [k] whose two-character window
    matches [NOTFORTRAN_LINE_RE] (an exclamation mark, a preprocessor line
    or a template line directive): no window before [k] matches, the
    window at [k] matches unless the text ends there, and nothing from [k]
    on is emitted. *)
Theorem X5_scan_stops_at_first_comment :
  forall (string : str) (fs : bool),
    has_quote string = false -> FYPP_OPEN_RE string = false ->
    exists k,
      filter_all (CharFilter_init string true fs) = Some (firstn k string) /\
      (k <= length string)%nat /\
      (forall i, (i < k)%nat ->
                 NOTFORTRAN_LINE_RE (firstn 2 (skipn i string)) = false) /\
      ((k < length string)%nat ->
       NOTFORTRAN_LINE_RE (firstn 2 (skipn k string)) = true).
Proof.
  intros string fs Hq Hp. exists (code_prefix string).
  split; [| split; [apply code_prefix_le |
                    split; [apply code_prefix_before | apply code_prefix_stop]]].
  destruct (iterate_code_prefix string
              (rounds (CharFilter_init string true fs))
              (CharFilter_init string true fs)) as (st & E); auto.
  { unfold rounds. simpl. lia. }
  unfold filter_all, filter_all_. rewrite E.
  cbn [CharFilter_init _it]. rewrite map_snd_enum_from. reflexivity.
Qed.

(** ** Ordinary characters *)

Lemma ordinary_window c r :
  ordinary c = true ->
  FYPP_OPEN_RE (firstn 2 (c :: r)) = false /\
  NOTFORTRAN_LINE_RE (firstn 2 (c :: r)) = false /\
  is_quote c = false.
Proof.
  unfold ordinary. intros H. apply negb_true_iff in H.
  repeat (apply orb_false_elim in H; destruct H as [H ?]).
  destruct r as [| d r]; cbn [firstn FYPP_OPEN_RE];
    unfold NOTFORTRAN_LINE_RE, FYPP_LINE_RE, CPP_RE, COMMENT_LINE_RE,
      fypp_open_pair;
    unfold is_quote;
    repeat match goal with
    | E : ?b = false |- context [?b] => rewrite E
    end; simpl; auto.
Qed.

Lemma set_it_same self : set_it self (_it self) = self.
Proof. destruct self; reflexivity. Qed.

(** In code state the scan yields a run of ordinary characters one by one
    and stays in code state. *)
Lemma iterate_ordinary_prefix :
  forall a fuel self tail,
    skipn (_it self) (_content self) = a ++ tail ->
    forallb ordinary a = true ->
    _instring self = [] -> _incomment self = [] ->
    iterate_ (length a + fuel) self
    = match iterate_ fuel (set_it self (_it self + length a)) with
      | Some (ys, st) => Some (enum_from (_it self) a ++ ys, st)
      | None => None
      end.
Proof.
  induction a as [| c a IH]; intros fuel self tail Hx Ha Hs Hc.
  - cbn [length Nat.add]. rewrite Nat.add_0_r, set_it_same.
    destruct (iterate_ fuel self) as [[ys st] |]; reflexivity.
  - cbn [length Nat.add iterate_].
    cbn [app] in Hx. destruct (skipn_cons_inv _ _ _ _ Hx) as [Hn Hr].
    cbn [forallb] in Ha. apply andb_prop in Ha. destruct Ha as [Hoc Ha].
    destruct (ordinary_window c (a ++ tail) Hoc) as (Ho & Hnf & Hq).
    rewrite <- Hx in Ho, Hnf.
    rewrite (next_code_char self c Hn Hs Hc Ho Hnf Hq).
    rewrite (IH fuel (set_it self (S (_it self))) tail); auto.
    assert (Est : set_it (set_it self (S (_it self)))
                    (_it (set_it self (S (_it self))) + length a)
                  = set_it self (_it self + S (length a)))
      by (unfold set_it; simpl; f_equal; lia).
    rewrite Est. cbn [set_it _it].
    match goal with
    | |- context [iterate_ fuel ?st] =>
        destruct (iterate_ fuel st) as [[ys st'] |]
    end; reflexivity.
Qed.

(** Inside a quoted string, with strings filtered: the call goes on behind
    the closing quote. *)
Lemma next_skip_string :
  forall b fuel self q tail,
    skipn (_it self) (_content self) = b ++ q :: tail ->
    _instring self = [q] -> _infypp self = false -> _incomment self = [] ->
    is_quote q = true -> existsb (Ascii.eqb q) b = false ->
    _filter_strings self = true ->
    next_ (S (length b) + fuel) self
    = next_ fuel
        (set_instring (set_it self (_it self + S (length b))) [] false).
Proof.
  induction b as [| c b IH]; intros fuel self q tail Hx Hs Hi Hc Hq Hb Hfs.
  - cbn [app] in Hx. destruct (skipn_cons_inv _ _ _ _ Hx) as [Hn Hr].
    cbn [length Nat.add next_]. rewrite Hn. cbn zeta.
    generalize (next_ fuel). intros nx. simpl.
    rewrite Hs, Hi, Hq. simpl. rewrite Ascii.eqb_refl, Hfs. simpl.
    rewrite Nat.add_1_r. reflexivity.
  - cbn [app] in Hx. destruct (skipn_cons_inv _ _ _ _ Hx) as [Hn Hr].
    cbn [existsb] in Hb. apply orb_false_elim in Hb. destruct Hb as [Hqc Hb].
    cbn [length]. change (S (S (length b)) + fuel)%nat
      with (S (S (length b) + fuel)).
    rewrite (next_string_char _ self c q Hn Hs Hi Hc Hfs Hqc).
    rewrite (IH fuel (set_it self (S (_it self))) q tail); auto.
    f_equal. unfold set_instring, set_it. simpl. f_equal. lia.
Qed.

Lemma iterate_same_next fuel a b :
  __next__ a = __next__ b -> iterate_ (S fuel) a = iterate_ (S fuel) b.
Proof. intros H. cbn [iterate_]. rewrite H. reflexivity. Qed.

Lemma iterate_raises fuel a : __next__ a = None -> iterate_ fuel a = None.
Proof. intros H. destruct fuel; [reflexivity |]. cbn [iterate_]. rewrite H. reflexivity. Qed.

(** In code state, with strings filtered, a call made at an opening quote
    gives what a call made behind the closing quote gives with as many
    frames less as the string has characters, delimiters included. *)
Lemma next_over_string fuel self q b tail :
  skipn (_it self) (_content self) = q :: b ++ q :: tail ->
  _instring self = [] -> _infypp self = false -> _incomment self = [] ->
  is_quote q = true -> existsb (Ascii.eqb q) b = false ->
  _filter_strings self = true ->
  next_ (S (S (length b)) + fuel) self
  = next_ fuel (set_it self (_it self + S (S (length b)))).
Proof.
  intros Hx Hs Hi Hc Hq Hb Hfs.
  destruct (skipn_cons_inv _ _ _ _ Hx) as [Hn Hr].
  change (S (S (length b)) + fuel)%nat with (S (S (length b) + fuel)).
  rewrite (next_open_quote _ self q _ Hx Hs Hc Hq Hfs).
  rewrite (next_skip_string b fuel _ q tail); auto.
  f_equal. destruct self; simpl in *; subst. unfold set_instring, set_it.
  simpl. f_equal. lia.
Qed.

(** With room for no more calls than the string has characters and one
    more, the call made at the opening quote raises [RecursionError]. *)
Lemma next_string_raises fuel self q b tail :
  skipn (_it self) (_content self) = q :: b ++ q :: tail ->
  _instring self = [] -> _infypp self = false -> _incomment self = [] ->
  is_quote q = true -> existsb (Ascii.eqb q) b = false ->
  _filter_strings self = true ->
  (fuel <= S (S (length b)))%nat ->
  next_ fuel self = None.
Proof.
  intros Hx Hs Hi Hc Hq Hb Hfs Hf.
  destruct fuel as [| fuel]; [reflexivity |].
  destruct (skipn_cons_inv _ _ _ _ Hx) as [Hn Hr].
  rewrite (next_open_quote _ self q _ Hx Hs Hc Hq Hfs).
  destruct (Nat.le_gt_cases fuel (length b)) as [Hle | Hgt].
  - apply (next_string_short b fuel _ q (q :: tail)); auto.
  - assert (fuel = S (length b) + 0)%nat by lia. subst fuel.
    rewrite (next_skip_string b 0 _ q tail); auto.
Qed.

(** In code state, on ordinary characters up to the end of the text, a
    call nests none: the room plays no part. *)
Lemma next_ordinary_call fuel self c :
  skipn (_it self) (_content self) = c -> forallb ordinary c = true ->
  _instring self = [] -> _incomment self = [] ->
  next_ (S fuel) self = __next__ self.
Proof.
  intros Hx Hc Hs Hi. unfold __next__.
  destruct c as [| h c].
  - apply skipn_nil_inv in Hx. cbn [next_]. rewrite Hx. reflexivity.
  - destruct (skipn_cons_inv _ _ _ _ Hx) as [Hn Hr].
    cbn [forallb] in Hc. apply andb_prop in Hc. destruct Hc as [Hoh Hc].
    destruct (ordinary_window h c Hoh) as (Ho & Hnf & Hq).
    rewrite <- Hx in Ho, Hnf.
    cbn [next_]. rewrite Hn. cbn zeta.
    generalize (next_ fuel), (next_ limit). intros nx ny. simpl.
    rewrite char2_window, Hs, Hi, Ho, Hnf, Hq.
    simpl. rewrite !andb_false_r. reflexivity.
Qed.

Lemma iterate_ordinary :
  forall c self,
    skipn (_it self) (_content self) = c ->
    forallb ordinary c = true ->
    _instring self = [] -> _incomment self = [] ->
    iterate self
    = Some (enum_from (_it self) c, set_it self (_it self + length c)).
Proof.
  intros c self Hx Hc Hs Hi.
  apply (iterate_any_fuel (length c + 1)).
  rewrite (iterate_ordinary_prefix c 1 self []); auto;
    [| rewrite app_nil_r; exact Hx].
  cbn [iterate_].
  rewrite next_exhausted.
  - rewrite app_nil_r. reflexivity.
  - cbn [set_it _content _it]. apply nth_error_None.
    assert (length (skipn (_it self) (_content self)) = length c)
      by (rewrite Hx; reflexivity).
    rewrite length_skipn in H. lia.
Qed.

Lemma skipn_behind {A : Type} (b : list A) q c :
  skipn (S (length b)) (b ++ q :: c) = c.
Proof. induction b as [| x b IH]; [reflexivity | exact IH]. Qed.

(** X6. With [filter_strings] on, a quoted string is removed with its
    delimiters, whatever it holds, when the interpreter has room for it.
    For ordinary text [a] and [c] (no quote and none of the characters
    [!], [#], [$], [@]), a quote character [q] and any text [b] without
    [q] (it may hold the other quote character, semicolons, comment and
    interpolation markers), [filter_all] on [a q b q c] returns [a c],
    with [filter_comments] on or off, when the calls of [__next__] may
    nest two deeper than [b] has characters; otherwise it raises
    [RecursionError]. *)
Theorem X6_quoted_string_is_removed :
  forall (a b c : str) (q : ascii) (fc : bool),
    forallb ordinary a = true -> forallb ordinary c = true ->
    is_quote q = true -> existsb (Ascii.eqb q) b = false ->
    filter_all (CharFilter_init (a ++ q :: b ++ q :: c) fc true)
    = if (length b + 2 <=? limit)%nat then Some (a ++ c) else None.
Proof.
  intros a b c q fc Ha Hc Hq Hb.
  set (text := a ++ q :: b ++ q :: c).
  set (st0 := CharFilter_init text fc true).
  set (st1 := set_it st0 (length a)).
  set (st3 := set_it st1 (length a + S (S (length b)))).
  assert (Hsk1 : skipn (length a) text = q :: b ++ q :: c).
  { unfold text. rewrite skipn_app, Nat.sub_diag, skipn_all. reflexivity. }
  assert (Hsk3 : skipn (length a + S (S (length b))) text = c).
  { rewrite Nat.add_comm, <- skipn_skipn, Hsk1.
    change (skipn (S (S (length b))) (q :: b ++ q :: c))
      with (skipn (S (length b)) (b ++ q :: c)).
    apply skipn_behind. }
  assert (E0 : iterate st0
               = match iterate_ (S (length text)) st1 with
                 | Some (ys, st) => Some (enum_from 0 a ++ ys, st)
                 | None => None
                 end).
  { unfold iterate.
    rewrite (iterate_rounds _ st0 (length a + S (length text)));
      [| unfold rounds; simpl; lia | simpl; lia].
    rewrite (iterate_ordinary_prefix a _ st0 (q :: b ++ q :: c)); auto. }
  unfold filter_all, filter_all_. fold (iterate st0). rewrite E0.
  destruct (length b + 2 <=? limit)%nat eqn:Hroom.
  - apply Nat.leb_le in Hroom.
    assert (E3 : iterate st3
                 = Some (enum_from (length a + S (S (length b))) c,
                         set_it st3 (_it st3 + length c))).
    { apply (iterate_ordinary c st3); auto. }
    assert (E1 : iterate_ (S (length text)) st1
                 = Some (enum_from (length a + S (S (length b))) c,
                         set_it st3 (_it st3 + length c))).
    { rewrite (iterate_same_next _ st1 st3).
      - unfold iterate in E3. eapply iterate_fuel; [exact E3 |].
        unfold rounds. simpl. lia.
      - unfold __next__ at 1.
        replace (S limit)
          with (S (S (length b)) + S (limit - length b - 2))%nat by lia.
        rewrite (next_over_string _ st1 q b c); auto.
        apply (next_ordinary_call _ _ c); auto. }
    rewrite E1, map_app, !map_snd_enum_from. reflexivity.
  - apply Nat.leb_gt in Hroom.
    rewrite iterate_raises; [reflexivity |].
    apply (next_string_raises (S limit) st1 q b c); auto. lia.
Qed.

Lemma sentinels_none n : sentinels [] n = repeat [] n.
Proof. destruct n; reflexivity. Qed.

Lemma statements_concat :
  forall x cur, x <> [] -> concat (statements_ cur x) = cur ++ x.
Proof.
  induction x as [| c r IH]; intros cur H; [congruence |].
  cbn [statements_].
  destruct r as [| d r'].
  - rewrite orb_true_r. simpl. rewrite app_nil_r. reflexivity.
  - cbn [is_empty]. rewrite orb_false_r.
    destruct (Ascii.eqb c ";").
    + cbn [concat]. rewrite (IH []) by discriminate.
      rewrite <- app_assoc. reflexivity.
    + rewrite IH by discriminate. rewrite <- app_assoc. reflexivity.
Qed.

Lemma statements_nonempty x cur : x <> [] -> statements_ cur x <> [].
Proof.
  intros H E. pose proof (statements_concat x cur H) as C.
  rewrite E in C. simpl in C. destruct cur; destruct x; try discriminate.
  congruence.
Qed.

Lemma firstn_skipn_snoc (line : str) ls a c :
  nth_error line a = Some c -> (ls <= a)%nat ->
  firstn (S a - ls) (skipn ls line) = firstn (a - ls) (skipn ls line) ++ [c].
Proof.
  intros Hn Hle.
  rewrite <- (firstn_skipn_join line ls a (S a)) by lia.
  f_equal. replace (S a - a)%nat with 1%nat by lia.
  rewrite (skipn_nth_error _ _ _ Hn). reflexivity.
Qed.

(** What the loop of lines 192-198 queues when it runs over all the
    characters of the line from position [a] on. *)
Lemma fold_statements line :
  forall cs a v ls,
    skipn a line = cs -> sv_line_start v = Z.of_nat ls -> (ls <= a)%nat ->
    let v' := fold_left (split_body line) (enum_from a cs) v in
    let segs := statements_ (firstn (a - ls) (skipn ls line)) cs in
    line_buffer (sv_stream v') = line_buffer (sv_stream v) ++ segs /\
    endpos (sv_stream v')
    = endpos (sv_stream v)
      ++ map (fun p => (Z.of_nat (length p) - 1)%Z) segs /\
    what_omp (sv_stream v')
    = what_omp (sv_stream v) ++ sentinels (sv_what_omp v) (length segs) /\
    infile (sv_stream v') = infile (sv_stream v) /\
    line_nr (sv_stream v') = line_nr (sv_stream v) /\
    (cs <> [] -> sv_pos v' = (Z.of_nat (length line) - 1)%Z).
Proof.
  induction cs as [| c r IH]; intros a v ls Hcs Hls Hle.
  - cbn [enum_from fold_left statements_ map length sentinels].
    rewrite !app_nil_r. repeat split; auto. congruence.
  - destruct (skipn_cons_inv _ _ _ _ Hcs) as [Hn Hr].
    assert (Ha : (a < length line)%nat)
      by (apply nth_error_Some; congruence).
    assert (Hend : (Z.of_nat a + 1 =? Z.of_nat (length line))%Z = is_empty r).
    { pose proof (length_skipn (S a) line) as L. rewrite Hr in L.
      destruct r as [| d r']; cbn [is_empty length] in *.
      - apply Z.eqb_eq. lia.
      - apply Z.eqb_neq. lia. }
    cbn [enum_from fold_left statements_].
    destruct (Ascii.eqb c ";" || is_empty r) eqn:Hcut.
    + assert (Hv1 : split_body line v (a, c)
                    = {| sv_stream :=
                           append_segment (sv_stream v)
                             (Z.of_nat a - Z.of_nat ls)
                             (firstn (a - ls) (skipn ls line) ++ [c])
                             (sv_what_omp v);
                         sv_what_omp := [];
                         sv_line_start := Z.of_nat (S a);
                         sv_pos := Z.of_nat a |}).
      { unfold split_body. cbn [fst snd]. rewrite Hend, Hcut, Hls.
        replace (Z.of_nat a + 1)%Z with (Z.of_nat (S a)) by lia.
        rewrite slice_nat by lia.
        rewrite (firstn_skipn_snoc line ls a c Hn Hle). reflexivity. }
      rewrite Hv1. clear Hv1.
      match goal with
      | |- context [fold_left _ _ ?v1] =>
          destruct (IH (S a) v1 (S a)) as (H1 & H2 & H3 & H4 & H5 & H6)
      end; auto.
      cbn [sv_stream sv_what_omp append_segment line_buffer endpos what_omp
           infile line_nr] in H1, H2, H3, H4, H5.
      rewrite Nat.sub_diag in H1, H2, H3. cbn [firstn] in H1, H2, H3.
      rewrite H1, H2, H3, H4, H5, sentinels_none.
      cbn [map length sentinels]. rewrite <- !app_assoc. cbn [app].
      repeat split; auto.
      * do 2 f_equal. rewrite length_app, length_firstn, length_skipn.
        cbn [length]. lia.
      * intros _. destruct r as [| d r'].
        -- cbn [enum_from fold_left sv_pos].
           assert (Z.of_nat a + 1 = Z.of_nat (length line))%Z.
           { apply Z.eqb_eq. rewrite Hend. reflexivity. }
           lia.
        -- apply H6. discriminate.
    + assert (Hv1 : split_body line v (a, c)
                    = {| sv_stream := sv_stream v;
                         sv_what_omp := sv_what_omp v;
                         sv_line_start := sv_line_start v;
                         sv_pos := Z.of_nat a |}).
      { unfold split_body. cbn [fst snd]. rewrite Hend, Hcut. reflexivity. }
      rewrite Hv1. clear Hv1.
      match goal with
      | |- context [fold_left _ _ ?v1] =>
          destruct (IH (S a) v1 ls) as (H1 & H2 & H3 & H4 & H5 & H6)
      end; auto.
      cbn [sv_stream sv_what_omp] in H1, H2, H3, H4, H5.
      rewrite (firstn_skipn_snoc line ls a c Hn Hle) in H1, H2, H3.
      rewrite H1, H2, H3, H4, H5.
      repeat split; auto.
      intros _. destruct r as [| d r'].
      * rewrite orb_true_r in Hcut. discriminate.
      * apply H6. discriminate.
Qed.

Lemma stream_eta (a : InputStream) lb f n e w :
  line_buffer a = lb -> infile a = f -> line_nr a = n -> endpos a = e ->
  what_omp a = w ->
  a = {| line_buffer := lb; infile := f; line_nr := n; endpos := e;
         what_omp := w |}.
Proof. destruct a; simpl; intros; subst; reflexivity. Qed.

(** On a line of ordinary characters, scanned from code state, the queued
    segments are the statements of the line. *)
Lemma queue_segments_ordinary self line omp fc it :
  forallb ordinary line = true -> line <> [] ->
  _instring it = [] -> _incomment it = [] ->
  queue_segments self line omp fc it
  = Some ({| line_buffer := line_buffer self ++ statements line;
             infile := infile self;
             line_nr := line_nr self;
             endpos := endpos self
                       ++ map (fun p => (Z.of_nat (length p) - 1)%Z)
                            (statements line);
             what_omp := what_omp self
                         ++ sentinels omp (length (statements line)) |},
          set_it (update it line true true) (length line)).
Proof.
  intros Ho Hne Hs Hc. unfold queue_segments.
  rewrite (iterate_ordinary line (update it line true true)); auto.
  cbn [update _it Nat.add].
  set (v0 := {| sv_stream := self; sv_what_omp := omp;
                sv_line_start := 0; sv_pos := -1 |}).
  destruct (fold_statements line line 0 v0 0)
    as (H1 & H2 & H3 & H4 & H5 & H6); auto.
  cbn [Nat.sub firstn v0 sv_stream sv_what_omp] in H1, H2, H3, H4, H5.
  fold (statements line) in H1, H2, H3.
  specialize (H6 Hne).
  set (v := fold_left (split_body line) (enum_from 0 line) v0) in *.
  unfold queue_rest. cbv zeta. rewrite H6.
  replace (Z.of_nat (length line) - 1 + 1 <? Z.of_nat (length line))%Z
    with false by (symmetry; apply Z.ltb_ge; lia).
  rewrite H1.
  assert (Hst : statements line <> []) by (apply statements_nonempty, Hne).
  destruct (line_buffer self ++ statements line) as [| sg segs] eqn:E.
  { apply app_eq_nil in E. destruct E as [_ E]. congruence. }
  cbn [is_empty]. do 2 f_equal.
  apply stream_eta; congruence.
Qed.

(** X7. A line of ordinary characters, scanned from code state, is
    queued statement by statement: the segments added to [line_buffer] are
    the pieces of the line cut behind every semicolon and at its end, each
    semicolon staying with the piece it closes; each end position is the
    index of the last character of its piece; the sentinel of the line is
    queued with the first piece and the empty sentinel with the others.
    The pieces put together are the line, and the scanner is left in code
    state. *)
Theorem X7_statements_are_queued_one_by_one :
  forall (self : InputStream) (line omp : str) (fc : bool) (it : CharFilter),
    forallb ordinary line = true -> is_empty line = false ->
    _instring it = [] -> _incomment it = [] ->
    exists self1 it1,
      queue_segments self line omp fc it = Some (self1, it1) /\
      line_buffer self1 = line_buffer self ++ statements line /\
      endpos self1
      = endpos self
        ++ map (fun p => (Z.of_nat (length p) - 1)%Z) (statements line) /\
      what_omp self1
      = what_omp self ++ sentinels omp (length (statements line)) /\
      concat (statements line) = line /\
      _instring it1 = [] /\ _incomment it1 = [].
Proof.
  intros self line omp fc it Ho Hne Hs Hc.
  assert (Hne' : line <> []) by (intros E; rewrite E in Hne; discriminate).
  clear Hne. rename Hne' into Hne.
  rewrite (queue_segments_ordinary self line omp fc it Ho Hne Hs Hc).
  eexists. eexists. split; [reflexivity |].
  cbn [line_buffer endpos what_omp set_it update _instring _incomment].
  repeat split; auto.
  apply (statements_concat line [] Hne).
Qed.

(** * Further properties of the assembler *)

(** ** The sentinel *)

Lemma lstrip_by_split p x :
  exists ws, x = ws ++ lstrip_by p x /\ forallb p ws = true.
Proof.
  induction x as [| c r IH].
  - exists []. auto.
  - cbn [lstrip_by]. destruct (p c) eqn:E.
    + destruct IH as (ws & H1 & H2). exists (c :: ws). split.
      * cbn [app]. f_equal. exact H1.
      * cbn [forallb]. rewrite E, H2. reflexivity.
    + exists []. auto.
Qed.

Lemma startswith_app w rest : startswith (w ++ rest) w = true.
Proof.
  induction w as [| c w IH]; [destruct rest; reflexivity |].
  cbn [app startswith]. rewrite Ascii.eqb_refl, IH. reflexivity.
Qed.

Lemma skipn_app_exact {A : Type} (w rest : list A) :
  skipn (length w) (w ++ rest) = rest.
Proof. induction w as [| c w IH]; [reflexivity | exact IH]. Qed.

(** Removing a sentinel that follows white space only takes it out of its
    place. *)
Lemma remove_first_after_blanks ws w rest :
  forallb is_space ws = true ->
  remove_first ("!" :: w) (ws ++ ("!" :: w) ++ rest) = ws ++ rest.
Proof.
  intros Hws. induction ws as [| c ws IH].
  - cbn [app remove_first].
    change ("!" :: w ++ rest) with (("!" :: w) ++ rest).
    rewrite startswith_app, skipn_app_exact. reflexivity.
  - cbn [forallb] in Hws. apply andb_prop in Hws. destruct Hws as [Hc Hws].
    cbn [app remove_first startswith].
    assert (Hne : Ascii.eqb "!" c = false).
    { destruct (Ascii.eqb "!" c) eqn:E; [| reflexivity].
      apply Ascii.eqb_eq in E. subst c. discriminate. }
    rewrite Hne. cbn [andb]. f_equal. apply IH. exact Hws.
Qed.

(** X8. When [OMP_SUBS_RE] matches a line, what it captures is [!$], or
    [!$] followed by the letters o, m, p in either case; the line is white
    space, then the sentinel, then the rest; and removing the first
    occurrence of the sentinel, as line 185 does, takes out exactly that
    one and keeps the white space in front of it. Hence the physical line
    that is recorded, [what_omp + line], has the sentinel moved in front of
    the indentation. *)
Theorem X8_sentinel_is_cut_out :
  forall (line w : str),
    OMP_SUBS_RE line = Some w ->
    exists ws rest,
      line = ws ++ w ++ rest /\
      forallb is_space ws = true /\
      remove_first w line = ws ++ rest /\
      (w = ["!"; "$"] \/
       exists o m p,
         w = ["!"; "$"; o; m; p] /\
         eqb_nocase "o" o && eqb_nocase "m" m && eqb_nocase "p" p = true).
Proof.
  intros line w H. unfold OMP_SUBS_RE in H.
  destruct (lstrip_by_split is_space line) as (ws & Hsplit & Hws).
  destruct (lstrip_by is_space line) as [| a [| b r]]; try discriminate.
  destruct (Ascii.eqb a "!" && Ascii.eqb b "$") eqn:Hab; [| discriminate].
  apply andb_prop in Hab. destruct Hab as [Ha Hb].
  apply Ascii.eqb_eq in Ha. apply Ascii.eqb_eq in Hb. subst a b.
  assert (Hshort : w = ["!"; "$"] ->
                   exists ws0 rest,
                     line = ws0 ++ w ++ rest /\
                     forallb is_space ws0 = true /\
                     remove_first w line = ws0 ++ rest /\
                     (w = ["!"; "$"] \/
                      exists o m p,
                        w = ["!"; "$"; o; m; p] /\
                        eqb_nocase "o" o && eqb_nocase "m" m
                        && eqb_nocase "p" p = true)).
  { intros ->. exists ws, r. split; [exact Hsplit |]. split; [exact Hws |].
    split; [| left; reflexivity].
    rewrite Hsplit at 1.
    apply (remove_first_after_blanks ws ["$"] r Hws). }
  destruct r as [| o [| m [| p r']]];
    try (inversion H; subst w; apply Hshort; reflexivity).
  destruct (eqb_nocase "o" o && eqb_nocase "m" m && eqb_nocase "p" p) eqn:E;
    [| inversion H; subst w; apply Hshort; reflexivity].
  inversion H; subst w. clear Hshort.
  exists ws, r'. split; [exact Hsplit |]. split; [exact Hws |].
  split.
  - rewrite Hsplit at 1.
    apply (remove_first_after_blanks ws ["$"; o; m; p] r' Hws).
  - right. exists o, m, p. auto.
Qed.

(** ** When [IndexError] is raised *)

Lemma last_char_none (x : str) : last_char x = None <-> x = [].
Proof.
  unfold last_char. split.
  - destruct (rev x) eqn:E; [| discriminate]. intros _.
    apply (f_equal (@rev ascii)) in E. rewrite rev_involutive in E. exact E.
  - intros ->. reflexivity.
Qed.

Lemma lstrip_by_nil p (x : str) :
  lstrip_by p x = [] <-> forallb p x = true.
Proof.
  induction x as [| c r IH]; [split; reflexivity |].
  cbn [lstrip_by forallb]. destruct (p c); cbn [andb].
  - exact IH.
  - split; discriminate.
Qed.

Lemma forallb_rev (p : ascii -> bool) (x : str) :
  forallb p (rev x) = forallb p x.
Proof.
  induction x as [| c r IH]; [reflexivity |].
  cbn [rev forallb]. rewrite forallb_app, IH. cbn [forallb].
  rewrite andb_true_r. apply andb_comm.
Qed.

Lemma forallb_lstrip_by p (x : str) :
  forallb p (lstrip_by p x) = forallb p x.
Proof.
  induction x as [| c r IH]; [reflexivity |].
  cbn [lstrip_by forallb]. destruct (p c) eqn:E; cbn [andb].
  - exact IH.
  - cbn [forallb]. rewrite E. reflexivity.
Qed.

(** [x.strip()] is empty exactly when [x] is all white space. *)
Lemma strip_by_nil p (x : str) :
  strip_by p x = [] <-> forallb p x = true.
Proof.
  unfold strip_by, rstrip_by. split.
  - intros H. apply (f_equal (@rev ascii)) in H.
    rewrite rev_involutive in H. cbn [rev] in H.
    apply lstrip_by_nil in H. rewrite forallb_rev, forallb_lstrip_by in H.
    exact H.
  - intros H.
    assert (E : lstrip_by p (rev (lstrip_by p x)) = []).
    { apply lstrip_by_nil. rewrite forallb_rev, forallb_lstrip_by. exact H. }
    rewrite E. reflexivity.
Qed.

(** A template line directive does not start with white space. *)
Lemma fypp_line_not_blank n (y : str) :
  FYPP_LINE_RE (firstn n y) = true -> forallb is_space y = false.
Proof.
  destruct y as [| c1 [| c2 y]]; destruct n as [| [| n]];
    cbn [firstn FYPP_LINE_RE]; try discriminate.
  intros H. cbn [forallb].
  assert (Hc : is_space c1 = false).
  { destruct (Ascii.eqb c1 "#") eqn:E1;
      [apply Ascii.eqb_eq in E1; subst c1; reflexivity |].
    destruct (Ascii.eqb c1 "$") eqn:E2;
      [apply Ascii.eqb_eq in E2; subst c1; reflexivity |].
    destruct (Ascii.eqb c1 "@") eqn:E3;
      [apply Ascii.eqb_eq in E3; subst c1; reflexivity |].
    discriminate. }
  rewrite Hc. reflexivity.
Qed.

(** When [next_fypp_cont] fails. *)
Lemma next_fypp_cont_none (line : str) e fc :
  let mark := slice line (e + 1) (e + 3) in
  let line_comments :=
    if NOTFORTRAN_LINE_RE mark || fc then slice_from line (e + 1) else [] in
  next_fypp_cont mark line_comments fc = None <->
  fc = true /\
  is_empty (slice_from line (e + 1)) = false /\
  forallb is_space (slice_from line (e + 1)) = true.
Proof.
  cbv zeta. unfold next_fypp_cont.
  set (mark := slice line (e + 1) (e + 3)).
  set (cm := slice_from line (e + 1)).
  assert (Hmark : FYPP_LINE_RE mark = true -> forallb is_space cm = false).
  { unfold mark, cm, slice, slice_from. apply fypp_line_not_blank. }
  split.
  - destruct (NOTFORTRAN_LINE_RE mark || fc) eqn:Hnf;
      [| cbn [is_empty]; discriminate].
    destruct (is_empty cm) eqn:Hcm; [discriminate |].
    destruct (FYPP_LINE_RE mark || fc) eqn:Hfl; [| discriminate].
    destruct (last_char (strip cm)) eqn:Hl; [discriminate |]. intros _.
    apply last_char_none in Hl. apply strip_by_nil in Hl.
    destruct (FYPP_LINE_RE mark) eqn:Hm.
    + rewrite (Hmark eq_refl) in Hl. discriminate.
    + cbn [orb] in Hfl. auto.
  - intros (-> & Hcm & Hsp). rewrite !orb_true_r, Hcm.
    apply strip_by_nil in Hsp. unfold strip. rewrite Hsp. reflexivity.
Qed.

Lemma consume_index_error self l line lb e ep omp wo :
  line_buffer self = line :: lb -> endpos self = e :: ep ->
  what_omp self = omp :: wo ->
  (consume self l = IndexError <->
   is_empty line = false /\ fypp_cont l = true /\
   is_empty (slice_from line (e + 1)) = false /\
   forallb is_space (slice_from line (e + 1)) = true).
Proof.
  intros Hb He Hw.
  unfold consume. rewrite Hb, He, Hw.
  destruct (is_empty line) eqn:Hline.
  - split; [discriminate | intros (H & _); discriminate].
  - pose proof (next_fypp_cont_none line e (fypp_cont l)) as N.
    cbv zeta in N.
    destruct (next_fypp_cont _ _ (fypp_cont l)) as [fc' |].
    + split; [discriminate |].
      intros (_ & H). apply N in H. discriminate.
    + split; [| reflexivity].
      intros _. split; [reflexivity |]. apply N. reflexivity.
Qed.

(** X9. When a segment is popped, [IndexError] is raised exactly when the
    segment is not empty, a template continuation is pending ([fypp_cont]
    is set) and the comment part [line[endpos+1:]] is not empty but all
    white space: then [line_comments.strip()] is empty and line 249 asks
    for its last character. A template line directive alone never raises,
    since it starts with a character that is not white space. *)
Theorem X9_index_error_condition :
  forall (self : InputStream) (l : locals) (line : str) lb (e : Z) ep
         (omp : str) wo,
    line_buffer self = line :: lb -> endpos self = e :: ep ->
    what_omp self = omp :: wo ->
    (consume self l = IndexError <->
     is_empty line = false /\ fypp_cont l = true /\
     is_empty (slice_from line (e + 1)) = false /\
     forallb is_space (slice_from line (e + 1)) = true).
Proof. intros. eapply consume_index_error; eassumption. Qed.

(** ** What is queued, on any input *)

Lemma slice_piece line a b : piece_of line (slice line a b).
Proof. unfold piece_of, slice. eexists. eexists. reflexivity. Qed.

Lemma slice_from_piece line a : piece_of line (slice_from line a).
Proof.
  unfold piece_of, slice_from.
  exists (clamp (length line) a), (length line).
  rewrite firstn_all2; [reflexivity |]. rewrite length_skipn. lia.
Qed.

Lemma whole_piece line : piece_of line line.
Proof. exists 0%nat, (length line). cbn [skipn]. rewrite firstn_all. reflexivity. Qed.

Lemma extends_by_refl self : extends_by self self [] [] [].
Proof. unfold extends_by. rewrite !app_nil_r. repeat split. Qed.

Lemma extends_by_append self e seg omp :
  extends_by self (append_segment self e seg omp) [seg] [e] [omp].
Proof. unfold extends_by. simpl. repeat split. Qed.

Lemma extends_by_trans a b c s1 e1 w1 s2 e2 w2 :
  extends_by a b s1 e1 w1 -> extends_by b c s2 e2 w2 ->
  extends_by a c (s1 ++ s2) (e1 ++ e2) (w1 ++ w2).
Proof.
  intros (A1 & A2 & A3 & A4 & A5 & A6 & A7) (B1 & B2 & B3 & B4 & B5 & B6 & B7).
  unfold extends_by. rewrite B1, B2, B3, B4, B5, A1, A2, A3, A4, A5.
  rewrite !app_assoc, !length_app. repeat split; auto; lia.
Qed.

(** What the loop of lines 192-198 queues, whatever the scanner yields. *)
Lemma fold_appends line ys :
  forall v,
    exists segs es ws,
      extends_by (sv_stream v)
        (sv_stream (fold_left (split_body line) ys v)) segs es ws /\
      (length segs <= length ys)%nat /\
      Forall (piece_of line) segs /\
      Forall (fun w => w = sv_what_omp v \/ w = []) ws /\
      (sv_what_omp (fold_left (split_body line) ys v) = sv_what_omp v \/
       sv_what_omp (fold_left (split_body line) ys v) = []).
Proof.
  induction ys as [| [p c] ys IH]; intros v.
  - exists [], [], []. cbn [fold_left length].
    split; [apply extends_by_refl |]. repeat split; auto.
  - cbn [fold_left].
    destruct (IH (split_body line v (p, c)))
      as (segs & es & ws & E & L & P & W & O).
    unfold split_body in E, W, O |- *. cbn [fst snd] in *.
    destruct (Ascii.eqb c ";" || (Z.of_nat p + 1 =? Z.of_nat (length line))%Z).
    + cbn [sv_stream sv_what_omp] in E, W, O.
      eexists. eexists. eexists.
      split; [eapply extends_by_trans; [apply extends_by_append | exact E] |].
      cbn [app length]. split; [lia |].
      split; [constructor; [apply slice_piece | exact P] |].
      split.
      * constructor; [left; reflexivity |].
        eapply Forall_impl; [| exact W]. cbv beta. intros w [-> | ->]; auto.
      * right. destruct O as [-> | ->]; reflexivity.
    + cbn [sv_stream sv_what_omp] in E, W, O.
      exists segs, es, ws. cbn [length].
      split; [exact E |]. split; [lia |]. auto.
Qed.

(** What lines 200-217 give is a stream with at most one more segment and
    at least one segment queued. *)
Lemma queue_rest_appends line fc v self1 :
  queue_rest line fc v = Some self1 ->
  exists segs es ws,
    extends_by (sv_stream v) self1 segs es ws /\
    (length segs <= 1)%nat /\
    Forall (piece_of line) segs /\
    Forall (fun w => w = sv_what_omp v \/ w = []) ws /\
    line_buffer self1 <> [].
Proof.
  unfold queue_rest. cbv zeta.
  assert (Fb : forall st segs es ws,
             extends_by (sv_stream v) st segs es ws ->
             (length segs <= 1)%nat ->
             (segs = [] -> line_buffer (sv_stream v) = line_buffer st) ->
             Forall (piece_of line) segs ->
             Forall (fun w => w = sv_what_omp v \/ w = []) ws ->
             Some (if is_empty (line_buffer st)
                   then append_segment st (Z.of_nat (length line)) line []
                   else st) = Some self1 ->
             exists segs' es' ws',
               extends_by (sv_stream v) self1 segs' es' ws' /\
               (length segs' <= 1)%nat /\
               Forall (piece_of line) segs' /\
               Forall (fun w => w = sv_what_omp v \/ w = []) ws' /\
               line_buffer self1 <> []).
  { intros st segs es ws E L Hnil P W.
    destruct (line_buffer st) as [| sg0 lb0] eqn:Hb; cbn [is_empty];
      intros Hq; inversion Hq; subst self1; clear Hq.
    - assert (Hs : segs = []).
      { destruct E as (E1 & _). rewrite Hb in E1.
        symmetry in E1. apply app_eq_nil in E1. tauto. }
      subst segs.
      assert (es = []) by (destruct E as (_ & _ & _ & _ & _ & E6 & _);
                           destruct es; [reflexivity | discriminate]).
      assert (ws = []) by (destruct E as (_ & _ & _ & _ & _ & _ & E7);
                           destruct ws; [reflexivity | discriminate]).
      subst es ws.
      exists [line], [Z.of_nat (length line)], [[]].
      split; [apply (extends_by_trans _ st _ [] [] [] _ _ _ E),
               extends_by_append |].
      split; [simpl; lia |].
      split; [constructor; [apply whole_piece | constructor] |].
      split; [constructor; [right; reflexivity | constructor] |].
      cbn [append_segment line_buffer]. rewrite Hb. discriminate.
    - exists segs, es, ws.
      rewrite Hb. repeat split; auto; try apply E. discriminate. }
  destruct (sv_pos v + 1 <? Z.of_nat (length line))%Z.
  - destruct fc.
    + eapply Fb.
      * apply extends_by_append.
      * simpl; lia.
      * discriminate.
      * constructor; [apply whole_piece | constructor].
      * constructor; [left; reflexivity | constructor].
    + destruct (first_notfortran line (sv_pos v)
                  (CharFilter_init (slice_from line (sv_pos v + 1)) false true))
        as [[pos_add |] |]; [| | discriminate].
      * eapply Fb.
        -- apply extends_by_append.
        -- simpl; lia.
        -- discriminate.
        -- constructor; [apply slice_from_piece | constructor].
        -- constructor; [left; reflexivity | constructor].
      * eapply Fb; [apply extends_by_refl | simpl; lia | reflexivity
                    | constructor | constructor].
  - eapply Fb; [apply extends_by_refl | simpl; lia | reflexivity
                | constructor | constructor].
Qed.

(** The pairs of an iteration are no more than the characters left. *)
Lemma ascending_count (x : str) :
  forall ys lo,
    ascending lo ys ->
    Forall (fun y => nth_error x (fst y) = Some (snd y)) ys ->
    (lo + length ys <= Nat.max lo (length x))%nat.
Proof.
  induction ys as [| [p c] ys IH]; simpl; intros lo A F; [lia |].
  destruct A as [A1 A2]. inversion F as [| ? ? F1 F2]; subst.
  simpl in F1.
  assert (p < length x)%nat by (apply nth_error_Some; congruence).
  specialize (IH _ A2 F2). lia.
Qed.

(** What lines 186-217 give is a stream: segments are queued behind what
    was queued, each a run of characters of the line, and something is
    queued afterwards. *)
Lemma queue_segments_appends self line omp fc it self1 it1 :
  queue_segments self line omp fc it = Some (self1, it1) ->
  exists segs es ws,
    extends_by self self1 segs es ws /\
    (length segs <= length line + 1)%nat /\
    Forall (piece_of line) segs /\
    Forall (fun w => w = omp \/ w = []) ws /\
    line_buffer self1 <> [].
Proof.
  unfold queue_segments.
  destruct (iterate (update it line true true)) as [[ys it1'] |] eqn:E;
    [| discriminate].
  pose proof (iterate_post_of _ _ _ E) as P.
  set (v0 := {| sv_stream := self; sv_what_omp := omp;
                sv_line_start := 0; sv_pos := -1 |}).
  destruct (fold_appends line ys v0) as (s1 & e1 & w1 & F1 & F2 & F3 & F4 & F5).
  destruct (queue_rest line fc (fold_left (split_body line) ys v0))
    as [self1' |] eqn:R1; [| discriminate].
  intros Hq. inversion Hq; subst self1' it1'; clear Hq.
  destruct (queue_rest_appends line fc _ _ R1)
    as (s2 & e2 & w2 & R2 & R3 & R4 & R5 & R6).
  exists (s1 ++ s2), (e1 ++ e2), (w1 ++ w2).
  split; [exact (extends_by_trans _ _ _ _ _ _ _ _ _ F1 R2) |].
  split.
  - rewrite length_app.
    destruct P as (_ & _ & _ & Pa & Pn).
    pose proof (ascending_count line ys _ Pa Pn) as C.
    cbn [update _it _content] in C. lia.
  - split; [apply Forall_app; auto |].
    split; [| exact R6].
    apply Forall_app. split; [exact F4 |].
    eapply Forall_impl; [| exact R5]. cbv beta.
    cbn [v0 sv_what_omp] in F5.
    intros w [-> | ->]; [destruct F5 as [-> | ->]; auto | auto].
Qed.

(** ** Termination *)

Lemma expand_tabs_length x : (length (expand_tabs x) <= 8 * length x)%nat.
Proof.
  induction x as [| c r IH]; [simpl; lia |].
  rewrite expand_tabs_cons, length_app. cbn [length].
  destruct (Ascii.eqb c tab); simpl; lia.
Qed.

Lemma remove_first_length w x : (length (remove_first w x) <= length x)%nat.
Proof.
  induction x as [| c r IH]; cbn [remove_first].
  - destruct (startswith [] w); [rewrite skipn_nil |]; simpl; lia.
  - destruct (startswith (c :: r) w).
    + rewrite length_skipn. lia.
    + simpl. lia.
Qed.

Lemma readline_length f :
  (length (fst (readline f)) + length (snd (readline f)) = length f)%nat.
Proof.
  destruct (readline_split f) as [H _].
  rewrite <- H at 3. rewrite length_app. reflexivity.
Qed.

Lemma piece_of_nil sg : piece_of [] sg -> sg = [].
Proof.
  intros (m & n & ->). rewrite skipn_nil, firstn_nil. reflexivity.
Qed.

(** What lines 177-217 give is a stream. *)
Lemma refill_appends self fc it self1 it1 :
  refill self fc it = Some (self1, it1) ->
  exists segs es ws,
    line_buffer self1 = line_buffer self ++ segs /\
    endpos self1 = endpos self ++ es /\
    what_omp self1 = what_omp self ++ ws /\
    infile self1 = snd (readline (infile self)) /\
    line_nr self1 = (line_nr self + 1)%Z /\
    length es = length segs /\ length ws = length segs /\
    (length segs <= 8 * length (fst (readline (infile self))) + 1)%nat /\
    line_buffer self1 <> [] /\
    Forall (piece_of
              (snd (strip_sentinel
                      (expand_tabs (fst (readline (infile self)))))))
      segs /\
    Forall (fun w =>
              w = fst (strip_sentinel
                         (expand_tabs (fst (readline (infile self)))))
              \/ w = []) ws.
Proof.
  unfold refill, strip_sentinel.
  destruct (readline (infile self)) as [raw rest]. cbn [fst snd].
  set (line0 := expand_tabs raw).
  assert (L0 : (length line0 <= 8 * length raw)%nat)
    by apply expand_tabs_length.
  set (self0 := {| line_buffer := line_buffer self; infile := rest;
                   line_nr := line_nr self + 1; endpos := endpos self;
                   what_omp := what_omp self |}).
  assert (G : forall omp line,
             (length line <= length line0)%nat ->
             queue_segments self0 line omp fc it = Some (self1, it1) ->
             exists segs es ws,
               line_buffer self1 = line_buffer self ++ segs /\
               endpos self1 = endpos self ++ es /\
               what_omp self1 = what_omp self ++ ws /\
               infile self1 = rest /\
               line_nr self1 = (line_nr self + 1)%Z /\
               length es = length segs /\ length ws = length segs /\
               (length segs <= 8 * length raw + 1)%nat /\
               line_buffer self1 <> [] /\
               Forall (piece_of line) segs /\
               Forall (fun w => w = omp \/ w = []) ws).
  { intros omp line Hl E.
    destruct (queue_segments_appends self0 line omp fc it _ _ E)
      as (segs & es & ws & X & Ls & P & W & Ne).
    exists segs, es, ws.
    destruct X as (X1 & X2 & X3 & X4 & X5 & X6 & X7).
    repeat split; auto; lia. }
  destruct (OMP_SUBS_RE line0) as [w |].
  - apply (G w (remove_first w line0)). apply remove_first_length.
  - apply (G [] line0). apply Nat.le_refl.
Qed.

Lemma consume_pops self l self' l' f :
  consume self l = Done (self', l', f) ->
  exists line e omp,
    line_buffer self = line :: line_buffer self' /\
    endpos self = e :: endpos self' /\
    what_omp self = omp :: what_omp self' /\
    infile self' = infile self /\ line_nr self' = line_nr self /\
    (f = BreakEmpty <-> line = []).
Proof.
  unfold consume.
  destruct (line_buffer self) as [| line lb]; [discriminate |].
  destruct (endpos self) as [| e ep]; [discriminate |].
  destruct (what_omp self) as [| omp wo]; [discriminate |].
  destruct line as [| c r]; cbn [is_empty].
  - intros H. inversion H; subst. exists [], e, omp. simpl.
    repeat split; auto.
  - destruct (next_fypp_cont _ _ _) as [fc' |]; [| discriminate].
    intros H. inversion H; subst. exists (c :: r), e, omp. simpl.
    repeat split; auto; try discriminate.
    destruct (_ || fc'); discriminate.
Qed.

Lemma consume_fuel self l : consume self l <> OutOfFuel.
Proof.
  unfold consume.
  destruct (line_buffer self) as [| line lb]; [discriminate |].
  destruct (endpos self) as [| e ep]; [discriminate |].
  destruct (what_omp self) as [| omp wo]; [discriminate |].
  destruct (is_empty line); [discriminate |].
  destruct (next_fypp_cont _ _ _); discriminate.
Qed.

(** An iteration never lacks fuel, and one that goes round again has used
    up a queued segment or a line of the input. *)
Lemma iteration_progress self l :
  iteration self l <> OutOfFuel /\
  forall self' l',
    iteration self l = Done (self', l', Again) ->
    (work self' < work self)%nat.
Proof.
  unfold iteration.
  destruct (line_buffer self) as [| sg lb] eqn:Hb; cbn [is_empty].
  - destruct (refill self (fypp_cont l) (string_iter l))
      as [[self1 it1] |] eqn:E;
      [| split; [discriminate | intros ? ? ?; discriminate]].
    destruct (refill_appends self (fypp_cont l) (string_iter l) _ _ E)
      as (segs & es & ws & R1 & R2 & R3 & R4 & R5 & R6
          & R7 & R8 & R9 & R10 & R11).
    split; [apply consume_fuel |].
    intros self' l' H. apply consume_pops in H.
      destruct H as (line & e & omp & P1 & P2 & P3 & P4 & P5 & P6).
      unfold work. rewrite Hb, P4, R4. cbn [length Nat.add].
      pose proof (readline_length (infile self)) as RL.
      rewrite Hb in R1. cbn [app] in R1. rewrite R1 in P1.
      assert (Hs : length segs = S (length (line_buffer self')))
        by (rewrite P1; reflexivity).
      destruct (fst (readline (infile self))) as [| c0 raw0] eqn:Hraw.
      * (* end of the input: the segment popped is empty *)
        exfalso. cbn [expand_tabs flat_map strip_sentinel OMP_SUBS_RE
                      lstrip_by snd] in R10.
        rewrite P1 in R10. inversion R10 as [| ? ? Hp _]; subst.
        apply piece_of_nil in Hp.
        destruct P6 as [_ P6]. specialize (P6 Hp). discriminate.
      * cbn [length] in *. lia.
  - split; [apply consume_fuel |].
    intros self' l' H. apply consume_pops in H.
      destruct H as (line & e & omp & P1 & P2 & P3 & P4 & P5 & P6).
      unfold work. rewrite Hb in P1. inversion P1; subst.
      rewrite Hb, P4. cbn [length]. lia.
Qed.

Lemma while_loop_fuel fuel :
  forall self l,
    (work self < fuel)%nat -> while_loop fuel self l <> OutOfFuel.
Proof.
  induction fuel as [| fuel IH]; intros self l Hf; [lia |].
  cbn [while_loop].
  destruct (iteration_progress self l) as [Hne Hwork].
  destruct (iteration self l) as [[[self1 l1] f] | | |]; try congruence.
  destruct f; try discriminate.
  apply IH. specialize (Hwork _ _ eq_refl). lia.
Qed.

Lemma while_loop_more_fuel fuel :
  forall self l fuel',
    while_loop fuel self l <> OutOfFuel -> (fuel <= fuel')%nat ->
    while_loop fuel' self l = while_loop fuel self l.
Proof.
  induction fuel as [| fuel IH]; intros self l fuel' H Hle;
    [cbn in H; congruence |].
  destruct fuel' as [| fuel']; [lia |].
  cbn [while_loop] in *.
  destruct (iteration self l) as [[[self1 l1] f] | | |]; try reflexivity.
  destruct f; try reflexivity.
  apply IH; [exact H | lia].
Qed.

(** X10. [next_fortran_line] terminates on every stream: with more fuel
    than the number of queued segments plus nine times the number of
    characters still unread, the loop does not run out of fuel (the call
    returns, or raises [IndexError] or [RecursionError]), and any larger
    amount of fuel gives the same outcome. *)
Theorem X10_next_fortran_line_terminates :
  forall (self : InputStream) (fuel : nat),
    (length (line_buffer self) + 9 * length (infile self) < fuel)%nat ->
    next_fortran_line fuel self <> OutOfFuel /\
    forall fuel',
      (fuel <= fuel')%nat ->
      next_fortran_line fuel' self = next_fortran_line fuel self.
Proof.
  intros self fuel Hf.
  pose proof (while_loop_fuel fuel self locals_init Hf) as H.
  unfold next_fortran_line. split.
  - destruct (while_loop fuel self locals_init) as [[st l'] | | |];
      congruence.
  - intros fuel' Hle.
    rewrite (while_loop_more_fuel fuel self locals_init fuel' H Hle).
    reflexivity.
Qed.

(** ** The queues in step *)

Lemma refill_synced self fc it self1 it1 :
  synced self -> refill self fc it = Some (self1, it1) ->
  synced self1 /\ line_buffer self1 <> [].
Proof.
  intros [S1 S2] H.
  destruct (refill_appends self fc it _ _ H)
    as (segs & es & ws & R1 & R2 & R3 & R4 & R5 & R6
        & R7 & R8 & R9 & _).
  split; [| exact R9].
  unfold synced. rewrite R1, R2, R3, !length_app. lia.
Qed.

Lemma consume_synced self l self' l' f :
  synced self -> consume self l = Done (self', l', f) -> synced self'.
Proof.
  intros [S1 S2] H. apply consume_pops in H.
  destruct H as (line & e & omp & P1 & P2 & P3 & _).
  unfold synced. rewrite P1, P2, P3 in *. cbn [length] in *. lia.
Qed.

Lemma iteration_synced self l self' l' f :
  synced self -> iteration self l = Done (self', l', f) -> synced self'.
Proof.
  intros Hs H. unfold iteration in H.
  destruct (line_buffer self) as [| sg lb] eqn:Hb; cbn [is_empty] in H.
  - destruct (refill self (fypp_cont l) (string_iter l))
      as [[self1 it1] |] eqn:E; [| discriminate].
    apply (refill_synced _ _ _ _ _ Hs) in E.
    eapply consume_synced; [apply E | exact H].
  - eapply consume_synced; [exact Hs | exact H].
Qed.

Lemma while_loop_synced fuel :
  forall self l self' l',
    synced self -> while_loop fuel self l = Done (self', l') -> synced self'.
Proof.
  induction fuel as [| fuel IH]; intros self l self' l' Hs H; [discriminate |].
  cbn [while_loop] in H.
  destruct (iteration self l) as [[[self1 l1] f] | | |] eqn:E;
    try discriminate.
  apply (iteration_synced _ _ _ _ _ Hs) in E.
  destruct f.
  - inversion H; subst. exact E.
  - inversion H; subst. exact E.
  - eapply IH; [exact E | exact H].
Qed.

(** With the queues in step, only [line_comments.strip()[-1]] can raise. *)
Lemma iteration_index_error self l :
  synced self -> iteration self l = IndexError -> fypp_cont l = true.
Proof.
  intros Hs H. unfold iteration in H.
  assert (G : forall st l0,
             synced st -> line_buffer st <> [] ->
             consume st l0 = IndexError -> fypp_cont l0 = true).
  { intros st l0 [S1 S2] Hne Hc.
    destruct (line_buffer st) as [| line lb] eqn:Hb; [congruence |].
    destruct (endpos st) as [| e ep] eqn:He; [discriminate |].
    destruct (what_omp st) as [| omp wo] eqn:Hw; [discriminate |].
    apply (consume_index_error st l0 line lb e ep omp wo Hb He Hw) in Hc.
    tauto. }
  destruct (line_buffer self) as [| sg lb] eqn:Hb; cbn [is_empty] in H.
  - destruct (refill self (fypp_cont l) (string_iter l))
      as [[self1 it1] |] eqn:E; [| discriminate].
    apply (refill_synced _ _ _ _ _ Hs) in E. destruct E as [E1 E2].
    apply (G self1 (set_string_iter l it1) E1 E2 H).
  - apply (G self (set_string_iter l (string_iter l)) Hs); [| exact H].
    rewrite Hb. discriminate.
Qed.

(** X11. The three queues stay in step: they have the same length in a
    new stream, and after every call that returns if they had before it.
    With the queues in step [popleft] never raises: an iteration raises
    [IndexError] only while a template continuation is pending. *)
Theorem X11_queues_stay_in_step :
  (forall text, synced (InputStream_init text)) /\
  (forall fuel self t self',
      synced self -> next_fortran_line fuel self = Done (t, self') ->
      synced self') /\
  (forall self l,
      synced self -> iteration self l = IndexError -> fypp_cont l = true).
Proof.
  split; [intros text; split; reflexivity |]. split.
  - intros fuel self t self' Hs H. unfold next_fortran_line in H.
    destruct (while_loop fuel self locals_init) as [[st l'] | | |] eqn:E;
      try discriminate.
    inversion H; subst. eapply while_loop_synced; eassumption.
  - apply iteration_index_error.
Qed.

(** ** One line at a time *)

Lemma no_newline_one_line x : no_newline x = true -> one_line x = true.
Proof.
  induction x as [| c r IH]; [reflexivity |].
  cbn [no_newline forallb one_line]. intros H. apply andb_prop in H.
  destruct H as [-> H]. rewrite (IH H). reflexivity.
Qed.

Lemma one_line_cases x :
  one_line x = true ->
  no_newline x = true \/ exists z, x = z ++ [nl] /\ no_newline z = true.
Proof.
  induction x as [| c r IH]; [left; reflexivity |].
  cbn [one_line]. intros H. apply andb_prop in H. destruct H as [H1 H2].
  destruct (Ascii.eqb c nl) eqn:Ec.
  - cbn [negb orb] in H1. destruct r; [| discriminate].
    apply Ascii.eqb_eq in Ec. subst c. right. exists []. auto.
  - destruct (IH H2) as [N | (z & -> & N)].
    + left. cbn [no_newline forallb]. rewrite Ec. exact N.
    + right. exists (c :: z). split; [reflexivity |].
      cbn [no_newline forallb]. rewrite Ec. exact N.
Qed.

Lemma no_newline_app x y :
  no_newline (x ++ y) = no_newline x && no_newline y.
Proof. apply forallb_app. Qed.

Lemma one_line_app x y :
  no_newline x = true -> one_line y = true -> one_line (x ++ y) = true.
Proof.
  induction x as [| c r IH]; intros Hx Hy; [exact Hy |].
  cbn [no_newline forallb] in Hx. apply andb_prop in Hx.
  destruct Hx as [Hc Hr]. cbn [app one_line]. rewrite Hc, (IH Hr Hy).
  reflexivity.
Qed.

Lemma one_line_newline_text x b :
  no_newline x = true -> one_line (x ++ newline_text b) = true.
Proof. intros H. apply one_line_app; [exact H | destruct b; reflexivity]. Qed.

Lemma one_line_tail c r : one_line (c :: r) = true -> one_line r = true.
Proof. cbn [one_line]. intros H. apply andb_prop in H. tauto. Qed.

Lemma one_line_skipn n :
  forall x, one_line x = true -> one_line (skipn n x) = true.
Proof.
  induction n as [| n IH]; intros x H; [exact H |].
  destruct x as [| c r]; [reflexivity |].
  cbn [skipn]. apply IH. eapply one_line_tail. exact H.
Qed.

Lemma one_line_firstn n :
  forall x, one_line x = true -> one_line (firstn n x) = true.
Proof.
  induction n as [| n IH]; intros x H; [reflexivity |].
  destruct x as [| c r]; [reflexivity |].
  cbn [firstn one_line]. cbn [one_line] in H. apply andb_prop in H.
  destruct H as [H1 H2]. rewrite (IH r H2), andb_true_r.
  destruct (Ascii.eqb c nl); [| reflexivity].
  cbn [negb orb] in *. destruct r; [| discriminate].
  rewrite firstn_nil. reflexivity.
Qed.

Lemma one_line_piece line sg :
  one_line line = true -> piece_of line sg -> one_line sg = true.
Proof.
  intros H (m & n & ->). apply one_line_firstn, one_line_skipn, H.
Qed.

Lemma readline_one_line f : one_line (fst (readline f)) = true.
Proof.
  induction f as [| c r IH]; [reflexivity |].
  cbn [readline]. destruct (Ascii.eqb c nl) eqn:Ec;
    [cbn [fst one_line is_empty]; rewrite orb_true_r; reflexivity |].
  destruct (readline r) as [l r']. cbn [fst] in *.
  cbn [one_line]. rewrite Ec, IH. reflexivity.
Qed.

Lemma expand_tabs_one_line x :
  one_line x = true -> one_line (expand_tabs x) = true.
Proof.
  induction x as [| c r IH]; intros H; [reflexivity |].
  pose proof (one_line_tail _ _ H) as Hr. specialize (IH Hr).
  rewrite expand_tabs_cons.
  destruct (Ascii.eqb c tab) eqn:Et.
  - apply one_line_app; [reflexivity | exact IH].
  - cbn [app one_line]. rewrite IH, andb_true_r.
    cbn [one_line] in H. apply andb_prop in H. destruct H as [H _].
    destruct (Ascii.eqb c nl); [| reflexivity].
    cbn [negb orb] in *. destruct r; [reflexivity | discriminate].
Qed.

Lemma remove_first_one_line w x :
  one_line x = true -> one_line (remove_first w x) = true.
Proof.
  induction x as [| c r IH]; intros H; cbn [remove_first].
  - destruct (startswith [] w); [rewrite skipn_nil |]; reflexivity.
  - destruct (startswith (c :: r) w).
    + apply one_line_skipn, H.
    + pose proof (one_line_tail _ _ H) as Hr.
      cbn [one_line]. rewrite (IH Hr), andb_true_r.
      cbn [one_line] in H. apply andb_prop in H. destruct H as [H _].
      destruct (Ascii.eqb c nl); [| reflexivity].
      cbn [negb orb] in *. destruct r; [| discriminate].
      cbn [remove_first]. destruct (startswith [] w);
        [rewrite skipn_nil |]; reflexivity.
Qed.

Lemma eqb_nocase_not_nl low c :
  Ascii.eqb low nl = false ->
  Ascii.eqb (ascii_of_nat (nat_of_ascii low - 32)) nl = false ->
  eqb_nocase low c = true -> Ascii.eqb c nl = false.
Proof.
  unfold eqb_nocase. intros H1 H2 H. apply orb_prop in H.
  destruct H as [H | H]; apply Ascii.eqb_eq in H; subst c; assumption.
Qed.

Lemma sentinel_no_newline line w :
  OMP_SUBS_RE line = Some w -> no_newline w = true.
Proof.
  unfold OMP_SUBS_RE.
  destruct (lstrip_by is_space line) as [| a [| b r]]; try discriminate.
  destruct (Ascii.eqb a "!" && Ascii.eqb b "$") eqn:Hab; [| discriminate].
  apply andb_prop in Hab. destruct Hab as [Ha Hb].
  apply Ascii.eqb_eq in Ha. apply Ascii.eqb_eq in Hb. subst a b.
  destruct r as [| o [| m [| p r']]];
    try (intros H; inversion H; reflexivity).
  destruct (eqb_nocase "o" o && eqb_nocase "m" m && eqb_nocase "p" p) eqn:E;
    [| intros H; inversion H; reflexivity].
  intros H. inversion H; subst w.
  apply andb_prop in E. destruct E as [E Ep].
  apply andb_prop in E. destruct E as [Eo Em].
  apply eqb_nocase_not_nl in Eo; [| reflexivity | reflexivity].
  apply eqb_nocase_not_nl in Em; [| reflexivity | reflexivity].
  apply eqb_nocase_not_nl in Ep; [| reflexivity | reflexivity].
  cbn [no_newline forallb]. rewrite Eo, Em, Ep. reflexivity.
Qed.

Lemma strip_sentinel_lines line :
  one_line line = true ->
  one_line (snd (strip_sentinel line)) = true /\
  no_newline (fst (strip_sentinel line)) = true.
Proof.
  intros H. unfold strip_sentinel.
  destruct (OMP_SUBS_RE line) as [w |] eqn:E; cbn [fst snd].
  - split; [apply remove_first_one_line, H |].
    eapply sentinel_no_newline. exact E.
  - split; [exact H | reflexivity].
Qed.

(** ** What [strip] and [rstrip] leave *)

Lemma lstrip_by_skipn p (x : str) : exists k, lstrip_by p x = skipn k x.
Proof.
  induction x as [| c r IH]; [exists 0%nat; reflexivity |].
  cbn [lstrip_by]. destruct (p c).
  - destruct IH as (k & ->). exists (S k). reflexivity.
  - exists 0%nat. reflexivity.
Qed.

Lemma lstrip_by_in p (x : str) c : In c (lstrip_by p x) -> In c x.
Proof.
  destruct (lstrip_by_skipn p x) as (k & ->). intros H.
  rewrite <- (firstn_skipn k x). apply in_or_app. right. exact H.
Qed.

Lemma rstrip_by_in p (x : str) c : In c (rstrip_by p x) -> In c x.
Proof.
  unfold rstrip_by. intros H. apply in_rev in H.
  apply lstrip_by_in in H. apply in_rev in H. exact H.
Qed.

Lemma strip_by_in p (x : str) c : In c (strip_by p x) -> In c x.
Proof.
  unfold strip_by. intros H. apply rstrip_by_in in H.
  apply lstrip_by_in in H. exact H.
Qed.

Lemma no_newline_subset (x y : str) :
  (forall c, In c y -> In c x) -> no_newline x = true ->
  no_newline y = true.
Proof.
  unfold no_newline. intros Hs Hx. rewrite forallb_forall in *.
  intros c Hc. apply Hx, Hs, Hc.
Qed.

Lemma rstrip_by_snoc p (z : str) c :
  p c = true -> rstrip_by p (z ++ [c]) = rstrip_by p z.
Proof.
  intros H. unfold rstrip_by. rewrite rev_app_distr. cbn [rev app lstrip_by].
  rewrite H. reflexivity.
Qed.

(** Stripping a set of characters that holds the newline from the right
    end of one line leaves no newline. *)
Lemma rstrip_one_line p (x : str) :
  p nl = true -> one_line x = true -> no_newline (rstrip_by p x) = true.
Proof.
  intros Hp H. destruct (one_line_cases x H) as [N | (z & -> & N)].
  - eapply no_newline_subset; [| exact N]. intros c. apply rstrip_by_in.
  - rewrite (rstrip_by_snoc p z nl Hp).
    eapply no_newline_subset; [| exact N]. intros c. apply rstrip_by_in.
Qed.

Lemma strip_one_line (x : str) :
  one_line x = true -> no_newline (strip x) = true.
Proof.
  intros H. unfold strip, strip_by. apply rstrip_one_line; [reflexivity |].
  destruct (lstrip_by_skipn is_space x) as (k & ->).
  apply one_line_skipn, H.
Qed.

Lemma refill_queued_lines self fc it self1 it1 :
  queued_lines self -> refill self fc it = Some (self1, it1) ->
  queued_lines self1.
Proof.
  intros [Q1 Q2] H.
  destruct (refill_appends self fc it _ _ H)
    as (segs & es & ws & R1 & R2 & R3 & _ & _ & _
        & _ & _ & _ & R10 & R11).
  destruct (strip_sentinel_lines
              (expand_tabs (fst (readline (infile self)))))
    as [L1 L2].
  { apply expand_tabs_one_line, readline_one_line. }
  unfold queued_lines. rewrite R1, R3. split.
  - apply Forall_app. split; [exact Q1 |].
    eapply Forall_impl; [| exact R10]. cbv beta.
    intros sg. apply one_line_piece. exact L1.
  - apply Forall_app. split; [exact Q2 |].
    eapply Forall_impl; [| exact R11]. cbv beta.
    intros w [-> | ->]; [exact L2 | reflexivity].
Qed.

Lemma slice_to_one_line x b :
  one_line x = true -> one_line (slice_to x b) = true.
Proof. intros H. unfold slice_to. apply one_line_firstn, H. Qed.

Lemma slice_from_one_line x a :
  one_line x = true -> one_line (slice_from x a) = true.
Proof. intros H. unfold slice_from. apply one_line_skipn, H. Qed.

Lemma consume_joined_lines self l self' l' f :
  queued_lines self -> joined_lines l ->
  consume self l = Done (self', l', f) ->
  queued_lines self' /\ joined_lines l'.
Proof.
  intros [Q1 Q2] (J1 & J2 & J3). unfold consume.
  destruct (line_buffer self) as [| line lb]; [discriminate |].
  destruct (endpos self) as [| e ep]; [discriminate |].
  destruct (what_omp self) as [| omp wo]; [discriminate |].
  inversion Q1 as [| ? ? Hline Hlb]; subst.
  inversion Q2 as [| ? ? Homp Hwo]; subst.
  destruct (is_empty line).
  - intros H. inversion H; subst. split; [split; assumption |].
    split; [| split]; assumption.
  - destruct (next_fypp_cont _ _ _) as [fc' |]; [| discriminate].
    intros H. inversion H; subst; clear H.
    split; [split; assumption |].
    assert (Hcore : no_newline
                      (strip_by (Ascii.eqb "&")
                         (strip (slice_to line (e + 1)))) = true).
    { eapply no_newline_subset; [intros c; apply strip_by_in |].
      apply strip_one_line, slice_to_one_line, Hline. }
    unfold joined_lines. cbn [joined_line comments lines].
    split; [| split].
    + destruct (is_empty (strip (joined_line l))).
      * rewrite app_assoc. apply one_line_newline_text.
        rewrite no_newline_app, Homp, Hcore. reflexivity.
      * rewrite app_assoc. apply one_line_newline_text.
        rewrite no_newline_app, Hcore, andb_true_r.
        apply rstrip_one_line; [reflexivity | exact J1].
    + apply Forall_app. split; [exact J2 |].
      constructor; [| constructor].
      apply rstrip_one_line; [reflexivity |].
      destruct (_ || fypp_cont l);
        [apply slice_from_one_line, Hline | reflexivity].
    + apply Forall_app. split; [exact J3 |].
      constructor; [| constructor]. apply one_line_app; assumption.
Qed.

Lemma iteration_joined_lines self l self' l' f :
  queued_lines self -> joined_lines l ->
  iteration self l = Done (self', l', f) ->
  queued_lines self' /\ joined_lines l'.
Proof.
  intros Q J H. unfold iteration in H.
  destruct (is_empty (line_buffer self)).
  - destruct (refill self (fypp_cont l) (string_iter l))
      as [[self1 it1] |] eqn:E; [| discriminate].
    apply (refill_queued_lines _ _ _ _ _ Q) in E.
    eapply consume_joined_lines; [exact E | | exact H]. exact J.
  - eapply consume_joined_lines; [exact Q | | exact H]. exact J.
Qed.

Lemma while_loop_joined_lines fuel :
  forall self l self' l',
    queued_lines self -> joined_lines l ->
    while_loop fuel self l = Done (self', l') ->
    queued_lines self' /\ joined_lines l'.
Proof.
  induction fuel as [| fuel IH]; intros self l self' l' Q J H;
    [discriminate |].
  cbn [while_loop] in H.
  destruct (iteration self l) as [[[self1 l1] f] | | |] eqn:E;
    try discriminate.
  destruct (iteration_joined_lines _ _ _ _ _ Q J E) as [Q1 J1].
  destruct f.
  - inversion H; subst. auto.
  - inversion H; subst. auto.
  - eapply IH; eassumption.
Qed.

(** X12. One line at a time. For a stream whose queued segments hold no
    newline before their last character and whose queued sentinels hold no
    newline (a new stream is one), every call that returns gives a joined
    text with no newline before its last character, comments with no
    newline at all and physical lines with no newline before their last
    character, and leaves a stream of the same kind. *)
Theorem X12_one_line_at_a_time :
  (forall text, queued_lines (InputStream_init text)) /\
  (forall fuel self joined cs ls self',
      queued_lines self ->
      next_fortran_line fuel self = Done ((joined, cs, ls), self') ->
      one_line joined = true /\
      Forall (fun c => no_newline c = true) cs /\
      Forall (fun p => one_line p = true) ls /\
      queued_lines self').
Proof.
  split; [intros text; split; constructor |].
  intros fuel self joined cs ls self' Q H.
  unfold next_fortran_line in H.
  destruct (while_loop fuel self locals_init) as [[st l'] | | |] eqn:E;
    try discriminate.
  destruct (while_loop_joined_lines fuel self locals_init st l' Q) as [Q' J'].
  - split; [reflexivity |]. split; constructor.
  - exact E.
  - inversion H; subst; clear H. destruct J' as (J1 & J2 & J3). auto.
Qed.

(** ** Lines of code *)

Lemma readline_line body rest :
  no_newline body = true ->
  readline (body ++ nl :: rest) = (body ++ [nl], rest).
Proof.
  induction body as [| c r IH]; intros H.
  - reflexivity.
  - cbn [no_newline forallb] in H. apply andb_prop in H.
    destruct H as [Hc Hr]. apply negb_true_iff in Hc.
    cbn [app readline]. rewrite Hc, (IH Hr). reflexivity.
Qed.

Lemma expand_tabs_ordinary x :
  forallb ordinary x = true -> forallb ordinary (expand_tabs x) = true.
Proof.
  induction x as [| c r IH]; intros H; [reflexivity |].
  cbn [forallb] in H. apply andb_prop in H. destruct H as [Hc Hr].
  rewrite expand_tabs_cons, forallb_app, (IH Hr), andb_true_r.
  destruct (Ascii.eqb c tab); [reflexivity |].
  cbn [forallb]. rewrite Hc. reflexivity.
Qed.

Lemma expand_tabs_no_newline x :
  no_newline x = true -> no_newline (expand_tabs x) = true.
Proof.
  induction x as [| c r IH]; intros H; [reflexivity |].
  cbn [no_newline forallb] in H. apply andb_prop in H.
  destruct H as [Hc Hr].
  rewrite expand_tabs_cons, no_newline_app, (IH Hr), andb_true_r.
  destruct (Ascii.eqb c tab); [reflexivity |].
  cbn [no_newline forallb]. rewrite Hc. reflexivity.
Qed.

Lemma forallb_skipn {A : Type} (p : A -> bool) n :
  forall x, forallb p x = true -> forallb p (skipn n x) = true.
Proof.
  induction n as [| n IH]; intros x H; [exact H |].
  destruct x as [| c r]; [reflexivity |].
  cbn [forallb] in H. apply andb_prop in H. cbn [skipn]. apply IH. tauto.
Qed.

Lemma ordinary_no_sentinel x :
  forallb ordinary x = true -> OMP_SUBS_RE x = None.
Proof.
  intros H. unfold OMP_SUBS_RE.
  destruct (lstrip_by_skipn is_space x) as (k & ->).
  apply (forallb_skipn _ k) in H.
  destruct (skipn k x) as [| a [| b r]]; try reflexivity.
  cbn [forallb] in H. apply andb_prop in H. destruct H as [Ha _].
  destruct (ordinary_window a [] Ha) as (_ & Hnf & _).
  cbn [firstn] in Hnf. unfold NOTFORTRAN_LINE_RE in Hnf.
  apply orb_false_elim in Hnf. destruct Hnf as [_ Hc].
  cbn [COMMENT_LINE_RE] in Hc. rewrite Hc. reflexivity.
Qed.

Lemma statements_no_semicolon :
  forall x cur,
    has_semicolon x = false -> x <> [] -> statements_ cur x = [cur ++ x].
Proof.
  unfold has_semicolon.
  induction x as [| c r IH]; intros cur H Hne; [congruence |].
  cbn [existsb] in H. apply orb_false_elim in H. destruct H as [Hc Hr].
  cbn [statements_].
  replace (Ascii.eqb c ";") with false
    by (symmetry; rewrite Ascii.eqb_sym; exact Hc).
  destruct r as [| d r'].
  - reflexivity.
  - cbn [is_empty orb]. rewrite (IH (cur ++ [c]) Hr) by discriminate.
    rewrite <- app_assoc. reflexivity.
Qed.

Lemma last_char_snoc (x : str) c : last_char (x ++ [c]) = Some c.
Proof. unfold last_char. rewrite rev_app_distr. reflexivity. Qed.

Lemma lstrip_by_snoc p (x : str) c :
  lstrip_by p (x ++ [c])
  = if forallb p x then lstrip_by p [c] else lstrip_by p x ++ [c].
Proof.
  induction x as [| a r IH]; [reflexivity |].
  cbn [app lstrip_by forallb]. destruct (p a); [exact IH | reflexivity].
Qed.

(** White space at the end of a text does not show after [strip]. *)
Lemma strip_snoc_space (x : str) c :
  is_space c = true -> strip (x ++ [c]) = strip x.
Proof.
  intros Hc. unfold strip, strip_by. rewrite lstrip_by_snoc.
  destruct (forallb is_space x) eqn:E.
  - cbn [lstrip_by]. rewrite Hc.
    apply lstrip_by_nil in E. rewrite E. reflexivity.
  - apply rstrip_by_snoc. exact Hc.
Qed.

Lemma slice_to_all (x : str) : slice_to x (Z.of_nat (length x)) = x.
Proof.
  unfold slice_to. rewrite clamp_of_nat, Nat.min_id. apply firstn_all.
Qed.

Lemma slice_behind (x : str) :
  slice x (Z.of_nat (length x)) (Z.of_nat (length x) + 2) = [].
Proof. rewrite char2_window, skipn_all. reflexivity. Qed.

Lemma code_only_parts body :
  code_only body = true ->
  forallb ordinary body = true /\ has_semicolon body = false /\
  no_newline body = true.
Proof.
  unfold code_only. intros H. apply andb_prop in H. destruct H as [H H3].
  apply andb_prop in H. destruct H as [H1 H2].
  apply negb_true_iff in H2. auto.
Qed.

Lemma recorded_line body :
  code_only body = true ->
  forallb ordinary (recorded body) = true /\
  has_semicolon (recorded body) = false /\
  recorded body <> [] /\
  expand_tabs (body ++ [nl]) = recorded body.
Proof.
  intros H. destruct (code_only_parts body H) as (H1 & H2 & H3).
  unfold recorded. split; [| split; [| split]].
  - rewrite forallb_app, (expand_tabs_ordinary _ H1). reflexivity.
  - unfold has_semicolon. rewrite existsb_app.
    fold (has_semicolon (expand_tabs body)).
    rewrite (has_semicolon_expand_tabs _ H2). reflexivity.
  - destruct (expand_tabs body); discriminate.
  - rewrite expand_tabs_app. reflexivity.
Qed.

(** Lines 220-264 on a queued line of code. *)
Lemma consume_code_line self l body lb ep wo :
  line_buffer self = recorded body :: lb ->
  endpos self = (Z.of_nat (length (recorded body)) - 1)%Z :: ep ->
  what_omp self = [] :: wo ->
  fypp_cont l = false ->
  consume self l
  = Done ({| line_buffer := lb; infile := infile self;
             line_nr := line_nr self; endpos := ep; what_omp := wo |},
          {| joined_line := joined_with (joined_line l) body;
             comments := comments l ++ [[]];
             lines := lines l ++ [recorded body];
             continuation := carries body (continuation l);
             fypp_cont := false;
             string_iter := string_iter l |},
          if carries body (continuation l) then Again else BreakComplete).
Proof.
  intros Hb He Hw Hf. unfold consume. rewrite Hb, He, Hw, Hf.
  replace (Z.of_nat (length (recorded body)) - 1 + 1)%Z
    with (Z.of_nat (length (recorded body))) by lia.
  replace (Z.of_nat (length (recorded body)) - 1 + 3)%Z
    with (Z.of_nat (length (recorded body)) + 2)%Z by lia.
  rewrite slice_to_all, slice_behind.
  assert (Hne : is_empty (recorded body) = false)
    by (unfold recorded; destruct (expand_tabs body); reflexivity).
  rewrite Hne.
  change (NOTFORTRAN_LINE_RE [] || false) with false. cbv iota.
  change (next_fypp_cont [] [] false) with (Some false). cbv iota.
  assert (Hl : last_char (recorded body) = Some nl)
    by apply last_char_snoc.
  assert (Hst : strip (recorded body) = strip (expand_tabs body))
    by apply (strip_snoc_space (expand_tabs body) nl eq_refl).
  rewrite Hl, Hst, Ascii.eqb_refl.
  cbn [app newline_text rstrip_by rev lstrip_by].
  rewrite orb_false_r.
  unfold joined_with, carries, continued, code_of. reflexivity.
Qed.

(** One iteration that reads a line of code. *)
Lemma iteration_code_line self l body rest :
  code_only body = true ->
  line_buffer self = [] -> endpos self = [] -> what_omp self = [] ->
  infile self = body ++ nl :: rest ->
  fypp_cont l = false ->
  _instring (string_iter l) = [] -> _incomment (string_iter l) = [] ->
  exists it1,
    iteration self l
    = Done ({| line_buffer := []; infile := rest;
               line_nr := line_nr self + 1; endpos := []; what_omp := [] |},
            {| joined_line := joined_with (joined_line l) body;
               comments := comments l ++ [[]];
               lines := lines l ++ [recorded body];
               continuation := carries body (continuation l);
               fypp_cont := false;
               string_iter := it1 |},
            if carries body (continuation l) then Again else BreakComplete)
    /\ _instring it1 = [] /\ _incomment it1 = [].
Proof.
  intros Hc Hb He Hw Hin Hf Hs Hi.
  destruct (code_only_parts body Hc) as (H1 & H2 & H3).
  destruct (recorded_line body Hc) as (R1 & R2 & R3 & R4).
  unfold iteration. rewrite Hb. cbn [is_empty].
  unfold refill. rewrite Hin, (readline_line body rest H3), R4.
  rewrite (ordinary_no_sentinel _ R1).
  rewrite (queue_segments_ordinary _ (recorded body) [] (fypp_cont l)
             (string_iter l) R1 R3 Hs Hi).
  cbn [line_buffer endpos what_omp infile line_nr].
  rewrite Hb, He, Hw.
  unfold statements. rewrite (statements_no_semicolon _ [] R2 R3).
  cbn [app map length sentinels repeat].
  exists (set_it (update (string_iter l) (recorded body) true true)
            (length (recorded body))).
  split; [| split; [exact Hs | exact Hi]].
  rewrite (consume_code_line _ _ body [] [] []);
    [reflexivity | reflexivity | reflexivity | reflexivity | exact Hf].
Qed.

(** X13. A physical line of code only (no quote, none of [!], [#], [$],
    [@], no semicolon) whose stripped text does not end in [&], read with
    nothing queued, is returned by one call as one logical line: the joined
    text is the line with its tabs expanded, stripped of surrounding white
    space and of any [&] at its ends, followed by a newline; [comments] is
    one empty string; [lines] is the line with its tabs expanded; and the
    stream has read exactly this line. *)
Theorem X13_line_of_code :
  forall (body rest : str) (self : InputStream) (fuel : nat),
    code_only body = true -> continued body = false ->
    line_buffer self = [] -> endpos self = [] -> what_omp self = [] ->
    infile self = body ++ nl :: rest ->
    next_fortran_line (S fuel) self
    = Done ((code_of body ++ [nl], [[]], [recorded body]),
            {| line_buffer := []; infile := rest;
               line_nr := line_nr self + 1; endpos := []; what_omp := [] |}).
Proof.
  intros body rest self fuel Hc Hn Hb He Hw Hin.
  destruct (iteration_code_line self locals_init body rest Hc Hb He Hw Hin)
    as (it1 & E & _); try reflexivity.
  unfold next_fortran_line. cbn [while_loop]. rewrite E.
  unfold carries. rewrite Hn. cbn [locals_init continuation].
  destruct (is_empty (strip (expand_tabs body))); reflexivity.
Qed.

(** ** Continuation lines *)

Lemma lstrip_by_id p (y : str) :
  forallb (fun c => negb (p c)) y = true -> lstrip_by p y = y.
Proof.
  destruct y as [| c r]; [reflexivity |].
  cbn [forallb lstrip_by]. intros H. apply andb_prop in H.
  destruct H as [H _]. apply negb_true_iff in H. rewrite H. reflexivity.
Qed.

Lemma no_newline_sym (x : str) :
  no_newline x = true ->
  forallb (fun c => negb (Ascii.eqb nl c)) x = true.
Proof.
  induction x as [| c r IH]; [reflexivity |].
  cbn [no_newline forallb]. intros H. apply andb_prop in H.
  destruct H as [Hc Hr]. rewrite Ascii.eqb_sym, Hc. exact (IH Hr).
Qed.

Lemma rstrip_newline_id (x : str) :
  no_newline x = true -> rstrip_by (Ascii.eqb nl) x = x.
Proof.
  intros H. unfold rstrip_by. rewrite lstrip_by_id.
  - apply rev_involutive.
  - rewrite forallb_rev. apply no_newline_sym, H.
Qed.

Lemma code_of_no_newline body :
  no_newline body = true -> no_newline (code_of body) = true.
Proof.
  intros H. unfold code_of.
  eapply no_newline_subset; [| apply expand_tabs_no_newline, H].
  intros c Hc. apply strip_by_in in Hc. apply strip_by_in in Hc. exact Hc.
Qed.

Lemma is_empty_strip (x : str) :
  is_empty (strip x) = forallb is_space x.
Proof.
  destruct (forallb is_space x) eqn:E.
  - apply strip_by_nil in E. unfold strip. rewrite E. reflexivity.
  - destruct (strip x) eqn:Es; [| reflexivity].
    apply strip_by_nil in Es. congruence.
Qed.

(** Once the joined text holds code, a further line of code is put behind
    it. *)
Lemma joined_with_code a body :
  no_newline a = true -> is_empty (strip a) = false ->
  no_newline body = true ->
  joined_with (a ++ [nl]) body = (a ++ code_of body) ++ [nl] /\
  no_newline (a ++ code_of body) = true /\
  is_empty (strip (a ++ code_of body)) = false.
Proof.
  intros Ha Hs Hb. unfold joined_with.
  rewrite (strip_snoc_space a nl eq_refl), Hs.
  rewrite (rstrip_by_snoc (Ascii.eqb nl) a nl eq_refl).
  rewrite (rstrip_newline_id a Ha), app_assoc.
  split; [reflexivity |]. split.
  - rewrite no_newline_app, Ha, (code_of_no_newline body Hb). reflexivity.
  - rewrite is_empty_strip in *. rewrite forallb_app, Hs. reflexivity.
Qed.

Lemma fold_joined_with bodies :
  forall a,
    no_newline a = true -> is_empty (strip a) = false ->
    forallb no_newline bodies = true ->
    fold_left joined_with bodies (a ++ [nl])
    = (a ++ concat (map code_of bodies)) ++ [nl].
Proof.
  induction bodies as [| b bs IH]; intros a Ha Hs Hb.
  - cbn [fold_left map concat]. rewrite app_nil_r. reflexivity.
  - cbn [forallb] in Hb. apply andb_prop in Hb. destruct Hb as [Hb Hbs].
    destruct (joined_with_code a b Ha Hs Hb) as (J1 & J2 & J3).
    cbn [fold_left map concat]. rewrite J1, (IH _ J2 J3 Hbs).
    rewrite <- !app_assoc. reflexivity.
Qed.

Lemma goes_on_parts b :
  goes_on b = true -> code_only b = true /\ carries b true = true.
Proof. unfold goes_on. intros H. apply andb_prop in H. exact H. Qed.

Lemma closes_parts b :
  closes b = true -> code_only b = true /\ carries b true = false.
Proof.
  unfold closes. intros H. apply andb_prop in H. destruct H as [H1 H2].
  apply negb_true_iff in H2. auto.
Qed.

(** The loop over the lines of code that follow a continued line. *)
Lemma while_loop_code_lines :
  forall mid fuel self l last rest,
    forallb goes_on mid = true -> closes last = true ->
    line_buffer self = [] -> endpos self = [] -> what_omp self = [] ->
    infile self = text_of (mid ++ [last]) ++ rest ->
    fypp_cont l = false -> continuation l = true ->
    _instring (string_iter l) = [] -> _incomment (string_iter l) = [] ->
    (length mid < fuel)%nat ->
    exists l',
      while_loop fuel self l
      = Done ({| line_buffer := []; infile := rest;
                 line_nr := line_nr self + Z.of_nat (S (length mid));
                 endpos := []; what_omp := [] |}, l') /\
      joined_line l' = fold_left joined_with (mid ++ [last]) (joined_line l) /\
      comments l' = comments l ++ repeat [] (S (length mid)) /\
      lines l' = lines l ++ map recorded (mid ++ [last]).
Proof.
  induction mid as [| b mid IH];
    intros fuel self l last rest Hm Hl Hb He Hw Hin Hf Hc Hs Hi Hfuel;
    (destruct fuel as [| fuel]; [lia |]); cbn [while_loop].
  - destruct (closes_parts last Hl) as [L1 L2].
    cbn [app text_of map concat] in Hin. rewrite app_nil_r, <- app_assoc in Hin.
    destruct (iteration_code_line self l last rest L1 Hb He Hw Hin Hf Hs Hi)
      as (it1 & E & _).
    rewrite E, Hc, L2. eexists. split; [reflexivity |].
    cbn [joined_line comments lines app fold_left length repeat map].
    auto.
  - cbn [forallb] in Hm. apply andb_prop in Hm. destruct Hm as [Hg Hm].
    destruct (goes_on_parts b Hg) as [G1 G2].
    cbn [app text_of map concat] in Hin. rewrite <- !app_assoc in Hin.
    cbn [app] in Hin.
    destruct (iteration_code_line self l b _ G1 Hb He Hw Hin Hf Hs Hi)
      as (it1 & E & Hs1 & Hi1).
    rewrite E, Hc, G2.
    match goal with
    | |- context [while_loop fuel ?st ?l1] =>
        destruct (IH fuel st l1 last rest) as (l' & E' & J & C & L)
    end; auto; [cbn [length] in Hfuel; lia |].
    exists l'. split.
    + rewrite E'. cbn [line_nr length].
      replace (line_nr self + Z.of_nat (S (S (length mid))))%Z
        with (line_nr self + 1 + Z.of_nat (S (length mid)))%Z by lia.
      reflexivity.
    + cbn [joined_line comments lines] in J, C, L.
      rewrite J, C, L. cbn [app fold_left length repeat map].
      rewrite <- !app_assoc. cbn [app].
      repeat split; auto.
Qed.

Lemma code_lines_no_newline mid last :
  forallb goes_on mid = true -> closes last = true ->
  forallb no_newline (mid ++ [last]) = true.
Proof.
  intros Hm Hl. rewrite forallb_app. apply andb_true_intro. split.
  - rewrite forallb_forall in *. intros b Hb. specialize (Hm b Hb).
    apply goes_on_parts in Hm. destruct Hm as [Hm _].
    apply code_only_parts in Hm. tauto.
  - cbn [forallb]. apply closes_parts in Hl. destruct Hl as [Hl _].
    apply code_only_parts in Hl. destruct Hl as (_ & _ & ->). reflexivity.
Qed.

(** X14. Continuation lines are joined. Take a first line of code whose
    stripped text ends in [&] and holds code besides, then any number of
    lines of code that end in [&] or are blank, then a line of code that is
    not blank and does not end in [&]. One call reads them all and returns
    as joined text the codes of the lines, each stripped of white space and
    of [&] at its ends, one behind the other, with one newline at the end;
    one empty comment for each line; and the lines as read, tabs
    expanded. *)
Theorem X14_continuation_lines_are_joined :
  forall (first : str) (mid : list str) (last rest : str)
         (self : InputStream) (fuel : nat),
    code_only first = true -> continued first = true ->
    is_empty (strip (code_of first)) = false ->
    forallb goes_on mid = true -> closes last = true ->
    line_buffer self = [] -> endpos self = [] -> what_omp self = [] ->
    infile self = text_of (first :: mid ++ [last]) ++ rest ->
    (S (length mid) < fuel)%nat ->
    next_fortran_line fuel self
    = Done ((concat (map code_of (first :: mid ++ [last])) ++ [nl],
             repeat [] (S (S (length mid))),
             map recorded (first :: mid ++ [last])),
            {| line_buffer := []; infile := rest;
               line_nr := line_nr self + Z.of_nat (S (S (length mid)));
               endpos := []; what_omp := [] |}).
Proof.
  intros first mid last rest self fuel Hc Hcont Hcode Hm Hl Hb He Hw Hin
    Hfuel.
  destruct fuel as [| fuel]; [lia |].
  cbn [text_of map concat] in Hin. rewrite <- !app_assoc in Hin.
  cbn [app] in Hin.
  destruct (iteration_code_line self locals_init first _ Hc Hb He Hw Hin)
    as (it1 & E & Hs1 & Hi1); try reflexivity.
  unfold next_fortran_line. cbn [while_loop]. rewrite E.
  assert (Hcar : carries first (continuation locals_init) = true)
    by (unfold carries; rewrite Hcont; reflexivity).
  rewrite Hcar.
  match goal with
  | |- context [while_loop fuel ?st ?l1] =>
      destruct (while_loop_code_lines mid fuel st l1 last rest)
        as (l' & E' & J & C & L)
  end; auto; [lia |].
  rewrite E'. cbn [joined_line comments lines locals_init line_nr] in *.
  rewrite J, C, L.
  assert (J0 : joined_with [] first = code_of first ++ [nl]) by reflexivity.
  rewrite J0.
  assert (Hn : no_newline (code_of first) = true).
  { apply code_of_no_newline. apply code_only_parts in Hc. tauto. }
  rewrite (fold_joined_with (mid ++ [last]) (code_of first) Hn Hcode
             (code_lines_no_newline mid last Hm Hl)).
  cbn [map concat app repeat].
  replace (line_nr self + 1 + Z.of_nat (S (length mid)))%Z
    with (line_nr self + Z.of_nat (S (S (length mid))))%Z by lia.
  reflexivity.
Qed.

(** ** A line with a comment *)

(** The loop of lines 192-198 over a run of characters without semicolon
    that ends before the end of the line queues nothing. *)
Lemma fold_no_cut line :
  forall cs a v,
    has_semicolon cs = false -> (a + length cs < length line)%nat ->
    fold_left (split_body line) (enum_from a cs) v
    = {| sv_stream := sv_stream v; sv_what_omp := sv_what_omp v;
         sv_line_start := sv_line_start v;
         sv_pos := match cs with
                   | [] => sv_pos v
                   | _ => (Z.of_nat (a + length cs) - 1)%Z
                   end |}.
Proof.
  induction cs as [| c r IH]; intros a v Hs Hlen.
  - destruct v; reflexivity.
  - unfold has_semicolon in Hs. cbn [existsb] in Hs.
    apply orb_false_elim in Hs. destruct Hs as [Hc Hr].
    cbn [enum_from fold_left length] in *.
    assert (Hv1 : split_body line v (a, c)
                  = {| sv_stream := sv_stream v;
                       sv_what_omp := sv_what_omp v;
                       sv_line_start := sv_line_start v;
                       sv_pos := Z.of_nat a |}).
    { unfold split_body. cbn [fst snd].
      rewrite Ascii.eqb_sym, Hc.
      replace (Z.of_nat a + 1 =? Z.of_nat (length line))%Z with false
        by (symmetry; apply Z.eqb_neq; lia).
      reflexivity. }
    rewrite Hv1, (IH (S a)); [| exact Hr | lia].
    cbn [sv_stream sv_what_omp sv_line_start sv_pos].
    f_equal. destruct r as [| d r']; cbn [length]; lia.
Qed.

(** The scan of a line stops where the comment starts. *)
Lemma iterate_up_to_comment it code tail :
  forallb ordinary code = true ->
  _instring it = [] -> _incomment it = [] ->
  exists it1,
    iterate (update it (code ++ "!" :: tail) true true)
    = Some (enum_from 0 code, it1).
Proof.
  intros Hc Hs Hi.
  set (scan := update it (code ++ "!" :: tail) true true).
  assert (Hsk : skipn (length code) (code ++ "!" :: tail) = "!" :: tail).
  { rewrite skipn_app, Nat.sub_diag, skipn_all. reflexivity. }
  eexists. apply (iterate_any_fuel (length code + 1)).
  rewrite (iterate_ordinary_prefix code 1 scan ("!" :: tail)); auto.
  cbn [iterate_].
  rewrite (next_comment_start (set_it scan (_it scan + length code)) "!").
  - rewrite app_nil_r. reflexivity.
  - cbn [set_it scan update _content _it Nat.add].
    apply (proj1 (skipn_cons_inv _ _ _ _ Hsk)).
  - exact Hs.
  - exact Hi.
  - cbn [set_it scan update _content _it Nat.add]. rewrite Hsk.
    destruct tail; reflexivity.
  - cbn [set_it scan update _content _it Nat.add]. rewrite Hsk.
    destruct tail; reflexivity.
  - reflexivity.
Qed.

(** The scan of lines 206-212, started at an exclamation mark, yields that
    position first. *)
Lemma second_scan_comment tail :
  exists ys st,
    iterate (CharFilter_init ("!" :: tail) false true)
    = Some ((0%nat, "!") :: ys, st).
Proof.
  unfold iterate, rounds. cbn [iterate_].
  assert (E : __next__ (CharFilter_init ("!" :: tail) false true)
              = Some (Yield 0 "!"
                        (set_incomment
                           (set_it (CharFilter_init ("!" :: tail) false true)
                              1) ["!"]))).
  { unfold __next__, rounds. cbn [next_]. simpl nth_error. cbn zeta.
    cbn [_it _content CharFilter_init set_it _instring _incomment is_empty].
    rewrite (char2_window ("!" :: tail) 0). cbn [skipn].
    destruct tail; reflexivity. }
  rewrite E.
  match goal with
  | |- context [iterate_ ?f ?st] =>
      destruct (iterate_comment_any f st) as (ys & st' & E');
        [reflexivity | reflexivity | simpl; lia | rewrite E']
  end.
  exists ys, st'. reflexivity.
Qed.

Lemma last_char_no_newline (x : str) :
  no_newline x = true ->
  match last_char x with Some c => Ascii.eqb c nl | None => false end
  = false.
Proof.
  intros H. unfold last_char.
  destruct (rev x) as [| c r] eqn:E; [reflexivity |].
  assert (Hin : In c x) by (apply in_rev; rewrite E; left; reflexivity).
  unfold no_newline in H. rewrite forallb_forall in H.
  apply H in Hin. apply negb_true_iff in Hin. exact Hin.
Qed.

Lemma firstn_app_exact {A : Type} (x y : list A) :
  firstn (length x) (x ++ y) = x.
Proof.
  rewrite firstn_app, Nat.sub_diag, firstn_all. cbn [firstn].
  apply app_nil_r.
Qed.

(** Lines 186-217 on a line of code followed by a comment: the line is
    queued whole, with the end of its code as end position. *)
Lemma queue_segments_commented self code tail omp it :
  forallb ordinary code = true -> has_semicolon code = false ->
  _instring it = [] -> _incomment it = [] ->
  exists it1,
    queue_segments self (code ++ "!" :: tail) omp false it
    = Some (append_segment self (Z.of_nat (length code) - 1)
              (code ++ "!" :: tail) omp, it1).
Proof.
  intros Hc Hsemi Hs Hi. unfold queue_segments.
  destruct (iterate_up_to_comment it code tail Hc Hs Hi) as (it1 & E).
  rewrite E. exists it1.
  set (line := code ++ "!" :: tail).
  assert (Hlen : (length code < length line)%nat).
  { unfold line. rewrite length_app. cbn [length]. lia. }
  rewrite (fold_no_cut line code 0); [| exact Hsemi | simpl; lia].
  cbn [sv_stream sv_what_omp sv_line_start sv_pos Nat.add].
  assert (Hpos : match code with
                 | [] => (-1)%Z
                 | _ => (Z.of_nat (length code) - 1)%Z
                 end = (Z.of_nat (length code) - 1)%Z)
    by (destruct code; reflexivity).
  rewrite Hpos. unfold queue_rest. cbv zeta.
  cbn [sv_stream sv_what_omp sv_line_start sv_pos].
  replace (Z.of_nat (length code) - 1 + 1)%Z with (Z.of_nat (length code))
    by lia.
  replace (Z.of_nat (length code) <? Z.of_nat (length line))%Z with true
    by (symmetry; apply Z.ltb_lt; lia).
  assert (Hsk : skipn (length code) line = "!" :: tail).
  { unfold line. rewrite skipn_app, Nat.sub_diag, skipn_all. reflexivity. }
  rewrite slice_from_nat, Hsk.
  destruct (second_scan_comment tail) as (ys2 & st2 & E2).
  rewrite (first_notfortran_iterate _ _ _ _ _ E2).
  cbn [find_notfortran].
  replace (Z.of_nat (length code) - 1 + 1 + Z.of_nat 0)%Z
    with (Z.of_nat (length code)) by lia.
  replace (Z.of_nat (length code) - 1 + 3 + Z.of_nat 0)%Z
    with (Z.of_nat (length code) + 2)%Z by lia.
  rewrite char2_window, Hsk.
  replace (NOTFORTRAN_LINE_RE (firstn 2 ("!" :: tail))) with true
    by (destruct tail; reflexivity).
  change (slice_from line 0) with line.
  cbn [append_segment line_buffer]. rewrite is_empty_snoc.
  do 3 f_equal. lia.
Qed.

(** X15. A physical line with code and a comment that starts with [!],
    read with nothing queued: when the code does not end in [&] and the
    line carries no sentinel, one call returns the stripped code as joined
    text, without a newline; the comment from the exclamation mark on,
    without its newline, as the only entry of [comments], whatever the
    comment holds; and the line as read in [lines]. *)
Theorem X15_line_with_comment :
  forall (code cm rest : str) (self : InputStream) (fuel : nat),
    code_only code = true -> no_newline cm = true ->
    continued code = false ->
    OMP_SUBS_RE (recorded_with_comment code cm) = None ->
    line_buffer self = [] -> endpos self = [] -> what_omp self = [] ->
    infile self = code ++ "!" :: cm ++ nl :: rest ->
    next_fortran_line (S fuel) self
    = Done ((code_of code, ["!" :: expand_tabs cm],
             [recorded_with_comment code cm]),
            {| line_buffer := []; infile := rest;
               line_nr := line_nr self + 1; endpos := []; what_omp := [] |}).
Proof.
  intros code cm rest self fuel Hc Hcm Hcont Homp Hb He Hw Hin.
  destruct (code_only_parts code Hc) as (H1 & H2 & H3).
  set (B := expand_tabs code). set (C := expand_tabs cm).
  assert (HB1 : forallb ordinary B = true) by apply expand_tabs_ordinary, H1.
  assert (HB2 : has_semicolon B = false)
    by apply has_semicolon_expand_tabs, H2.
  assert (HB3 : no_newline B = true) by apply expand_tabs_no_newline, H3.
  assert (HC : no_newline C = true) by apply expand_tabs_no_newline, Hcm.
  assert (Hread : readline (infile self)
                  = ((code ++ "!" :: cm) ++ [nl], rest)).
  { rewrite Hin.
    replace (code ++ "!" :: cm ++ nl :: rest)
      with ((code ++ "!" :: cm) ++ nl :: rest)
      by (rewrite <- app_assoc; reflexivity).
    apply readline_line. rewrite no_newline_app, H3.
    cbn [no_newline forallb]. exact Hcm. }
  assert (Hline : expand_tabs ((code ++ "!" :: cm) ++ [nl])
                  = recorded_with_comment code cm).
  { unfold recorded_with_comment. rewrite !expand_tabs_app.
    rewrite <- app_assoc. reflexivity. }
  unfold next_fortran_line. cbn [while_loop].
  unfold iteration. rewrite Hb. cbn [is_empty].
  unfold refill. rewrite Hread, Hline, Homp.
  unfold recorded_with_comment. fold B. fold C.
  cbn [locals_init fypp_cont string_iter].
  match goal with
  | |- context [queue_segments ?st _ _ _ ?it] =>
      destruct (queue_segments_commented st B (C ++ [nl]) [] it HB1 HB2)
        as (it1 & E); [reflexivity | reflexivity |]
  end.
  rewrite E.
  set (L := B ++ "!" :: C ++ [nl]).
  unfold consume.
  cbn [append_segment line_buffer endpos what_omp infile line_nr
       set_string_iter joined_line comments lines continuation fypp_cont
       string_iter locals_init].
  rewrite Hb, He, Hw. cbn [app].
  assert (HL : is_empty L = false) by (unfold L; destruct B; reflexivity).
  rewrite HL.
  replace (Z.of_nat (length B) - 1 + 1)%Z with (Z.of_nat (length B)) by lia.
  replace (Z.of_nat (length B) - 1 + 3)%Z with (Z.of_nat (length B) + 2)%Z
    by lia.
  assert (Hsk : skipn (length B) L = "!" :: C ++ [nl]).
  { unfold L. rewrite skipn_app, Nat.sub_diag, skipn_all. reflexivity. }
  assert (Hcore : slice_to L (Z.of_nat (length B)) = B).
  { unfold slice_to. rewrite clamp_of_nat, Nat.min_l.
    - apply firstn_app_exact.
    - unfold L. rewrite length_app. lia. }
  rewrite Hcore, char2_window, slice_from_nat, Hsk.
  replace (NOTFORTRAN_LINE_RE (firstn 2 ("!" :: C ++ [nl]))) with true
    by (destruct C; reflexivity).
  cbn [orb].
  assert (Hmark : next_fypp_cont (firstn 2 ("!" :: C ++ [nl]))
                    ("!" :: C ++ [nl]) false = Some false)
    by (destruct C; reflexivity).
  rewrite Hmark.
  rewrite (last_char_no_newline B HB3).
  fold (continued code). unfold B at 1 2. fold (continued code).
  rewrite Hcont.
  change ("!" :: C ++ [nl]) with (("!" :: C) ++ [nl]).
  rewrite (rstrip_by_snoc (Ascii.eqb nl) ("!" :: C) nl eq_refl).
  rewrite (rstrip_newline_id ("!" :: C)) by exact HC.
  cbn [newline_text app is_empty strip strip_by rstrip_by lstrip_by rev].
  rewrite app_nil_r.
  destruct (is_empty (strip (expand_tabs code))); reflexivity.
Qed.

(** ** Lines read in comment state *)

(** X16. While the scanner is in comment state, a physical line is
    queued as one segment, whatever it holds: no segment ends at a
    semicolon. One scanner serves all the lines of a call and never leaves
    the comment state, so this is the case of every line that is read in
    the same call after a line with a comment. The line is queued when a
    template continuation is pending, and when it has no more characters
    than calls of [__next__] may nest; otherwise the second scan, which
    filters strings, can raise [RecursionError]. *)
Theorem X16_in_comment_state_line_is_queued_whole :
  forall (self : InputStream) (line omp : str) (fc : bool) (it : CharFilter),
    line_buffer self = [] -> is_empty (_incomment it) = false ->
    _instring it = [] ->
    (forall self1 it1,
        queue_segments self line omp fc it = Some (self1, it1) ->
        exists e w,
          line_buffer self1 = [line] /\
          endpos self1 = endpos self ++ [e] /\
          what_omp self1 = what_omp self ++ [w] /\
          (w = omp \/ w = []) /\
          _incomment it1 = _incomment it) /\
    (fc = true \/ (length line <= limit)%nat ->
     exists self1 it1,
       queue_segments self line omp fc it = Some (self1, it1)).
Proof.
  intros self line omp fc it Hb Hi Hs.
  destruct (queue_segments_in_comment self line omp fc it Hb Hi Hs)
    as [A B].
  split; [| exact B].
  intros self1 it1 E.
  destruct (A self1 it1 E) as (e & w & H1 & H2 & H3 & H4 & _ & _ & H5).
  exists e, w. repeat split; assumption.
Qed.

(** ** The sentinel patterns, and texts without string opener *)

(** X17. [OMP_SUBS_RE] unifies the two other sentinel patterns: on every
    line it captures what [OMP_DIR_RE] captures when that pattern matches,
    and otherwise what [OMP_RE] captures; it fails exactly when both
    fail. *)
Theorem X17_omp_patterns_unified :
  forall line : str,
    OMP_SUBS_RE line
    = match OMP_DIR_RE line with
      | Some w => Some w
      | None => OMP_RE line
      end.
Proof.
  intros line. unfold OMP_SUBS_RE, OMP_DIR_RE, OMP_RE.
  destruct (lstrip_by is_space line) as [| a [| b r]]; try reflexivity.
  destruct (Ascii.eqb a "!" && Ascii.eqb b "$"); cbn [andb].
  - destruct r as [| o [| m [| p r']]]; try reflexivity.
    destruct (eqb_nocase "o" o && eqb_nocase "m" m && eqb_nocase "p" p);
      reflexivity.
  - destruct r as [| o [| m [| p r']]]; reflexivity.
Qed.

(** With comments not filtered and no string or span ever opened, a call
    yields the next character. *)
Lemma next_no_string self c :
  nth_error (_content self) (_it self) = Some c ->
  _instring self = [] -> _filter_comments self = false ->
  FYPP_OPEN_RE (firstn 2 (skipn (_it self) (_content self))) = false ->
  is_quote c = false ->
  exists st,
    __next__ self = Some (Yield (_it self) c st) /\
    _content st = _content self /\ _it st = S (_it self) /\
    _instring st = [] /\ _filter_comments st = false.
Proof.
  intros Hn Hs Hfc Ho Hq. unfold __next__, rounds. cbn [next_].
  rewrite Hn. cbn zeta. simpl. rewrite char2_window, Hs, Ho, Hq, Hfc.
  simpl.
  destruct (is_empty (_incomment self));
    [destruct (NOTFORTRAN_LINE_RE _) |];
    simpl; rewrite ?Hs, ?andb_false_r; simpl;
    eexists; (split; [reflexivity |]); simpl; auto.
Qed.

Lemma iterate_no_string :
  forall x fuel self,
    skipn (_it self) (_content self) = x ->
    FYPP_OPEN_RE x = false -> has_quote x = false ->
    _instring self = [] -> _filter_comments self = false ->
    (length x < fuel)%nat ->
    exists self',
      iterate_ fuel self = Some (enum_from (_it self) x, self').
Proof.
  induction x as [| c r IH]; intros fuel self Hx Hp Hq Hs Hfc Hf;
    (destruct fuel as [| fuel]; [lia |]); cbn [iterate_].
  - rewrite (next_exhausted self) by (apply skipn_nil_inv; exact Hx).
    exists self. reflexivity.
  - destruct (skipn_cons_inv _ _ _ _ Hx) as [Hn Hr].
    destruct (fypp_open_tail _ _ Hp) as [Ho Hp']. rewrite <- Hx in Ho.
    apply has_quote_cons in Hq. destruct Hq as [Hqc Hqr].
    destruct (next_no_string self c Hn Hs Hfc Ho Hqc)
      as (st & E & S1 & S2 & S3 & S4).
    rewrite E.
    destruct (IH fuel st) as (st' & E');
      [ rewrite S1, S2; exact Hr | exact Hp' | exact Hqr | exact S3
      | exact S4 | simpl in Hf; lia | ].
    rewrite E', S2. exists st'. reflexivity.
Qed.

(** X18. A text in which [STR_OPEN_RE] finds nothing (no opening
    interpolation marker, no quote, no exclamation mark) passes a fresh
    scanner unchanged when comments are not filtered, with
    [filter_strings] on or off. *)
Theorem X18_text_without_string_opener :
  forall (string : str) (fs : bool),
    STR_OPEN_RE string = false ->
    filter_all (CharFilter_init string false fs) = Some string.
Proof.
  intros string fs H. unfold STR_OPEN_RE in H.
  apply orb_false_elim in H. destruct H as [Ho Hq].
  assert (Hquote : has_quote string = false).
  { unfold has_quote. clear Ho.
    induction string as [| c r IH]; [reflexivity |].
    cbn [existsb] in *. apply orb_false_elim in Hq. destruct Hq as [Hc Hr].
    apply orb_false_elim in Hc. destruct Hc as [-> _]. exact (IH Hr). }
  destruct (iterate_no_string string
              (rounds (CharFilter_init string false fs))
              (CharFilter_init string false fs)) as (st & E); auto.
  { unfold rounds. simpl. lia. }
  unfold filter_all, filter_all_. rewrite E.
  cbn [CharFilter_init _it]. rewrite map_snd_enum_from. reflexivity.
Qed.

(** ** Statements of one line *)

(** Lines 220-264 on a queued segment without comment part. *)
Lemma consume_whole_segment self l p lb ep wo omp :
  line_buffer self = p :: lb ->
  endpos self = (Z.of_nat (length p) - 1)%Z :: ep ->
  what_omp self = omp :: wo ->
  is_empty p = false -> fypp_cont l = false ->
  consume self l
  = Done ({| line_buffer := lb; infile := infile self;
             line_nr := line_nr self; endpos := ep; what_omp := wo |},
          {| joined_line :=
               if is_empty (strip (joined_line l))
               then omp ++ strip_by (Ascii.eqb "&") (strip p)
                    ++ newline_text (endswith p nl)
               else rstrip_by (Ascii.eqb nl) (joined_line l)
                    ++ strip_by (Ascii.eqb "&") (strip p)
                    ++ newline_text (endswith p nl);
             comments := comments l ++ [[]];
             lines := lines l ++ [omp ++ p];
             continuation :=
               if endswith (strip p) "&" then true
               else if is_empty (strip p) then continuation l else false;
             fypp_cont := false;
             string_iter := string_iter l |},
          if (if endswith (strip p) "&" then true
              else if is_empty (strip p) then continuation l else false)
             || false
          then Again else BreakComplete).
Proof.
  intros Hb He Hw Hne Hf. unfold consume. rewrite Hb, He, Hw, Hf, Hne.
  replace (Z.of_nat (length p) - 1 + 1)%Z with (Z.of_nat (length p)) by lia.
  replace (Z.of_nat (length p) - 1 + 3)%Z with (Z.of_nat (length p) + 2)%Z
    by lia.
  rewrite slice_to_all, slice_behind.
  change (NOTFORTRAN_LINE_RE [] || false) with false. cbv iota.
  change (next_fypp_cont [] [] false) with (Some false). cbv iota.
  reflexivity.
Qed.

Lemma complete_parts p :
  complete p = true -> is_empty p = false /\ endswith (strip p) "&" = false.
Proof.
  unfold complete. intros H. apply andb_prop in H. destruct H as [H1 H2].
  apply negb_true_iff in H1. apply negb_true_iff in H2. auto.
Qed.

(** A call that finds a complete segment queued returns it. *)
Lemma next_fortran_line_queued fuel self p lb ep wo omp :
  line_buffer self = p :: lb ->
  endpos self = (Z.of_nat (length p) - 1)%Z :: ep ->
  what_omp self = omp :: wo ->
  complete p = true ->
  next_fortran_line (S fuel) self
  = Done (statement_triple omp p,
          {| line_buffer := lb; infile := infile self;
             line_nr := line_nr self; endpos := ep; what_omp := wo |}).
Proof.
  intros Hb He Hw Hc. destruct (complete_parts p Hc) as [Hne Hcont].
  unfold next_fortran_line. cbn [while_loop]. unfold iteration.
  rewrite Hb. cbn [is_empty].
  rewrite (consume_whole_segment self
             (set_string_iter locals_init (string_iter locals_init))
             p lb ep wo omp Hb He Hw Hne eq_refl).
  rewrite Hcont. cbn [set_string_iter locals_init continuation joined_line
                      comments lines app].
  destruct (is_empty (strip p)); reflexivity.
Qed.

Lemma calls_queued fuel :
  forall ps ws self,
    line_buffer self = ps ->
    endpos self = map (fun p => (Z.of_nat (length p) - 1)%Z) ps ->
    what_omp self = ws -> length ws = length ps ->
    forallb complete ps = true ->
    calls (length ps) (S fuel) self
    = Done (map (fun wp => statement_triple (fst wp) (snd wp))
              (combine ws ps),
            {| line_buffer := []; infile := infile self;
               line_nr := line_nr self; endpos := []; what_omp := [] |}).
Proof.
  induction ps as [| p ps IH]; intros ws self Hb He Hw Hl Hc.
  - destruct ws; [| discriminate]. cbn [length calls combine map].
    f_equal. f_equal. destruct self; simpl in *; subst; reflexivity.
  - destruct ws as [| w ws]; [discriminate |].
    cbn [forallb] in Hc. apply andb_prop in Hc. destruct Hc as [Hp Hps].
    cbn [length calls map] in *.
    rewrite (next_fortran_line_queued fuel self p ps _ ws w Hb He Hw Hp).
    rewrite (IH ws);
      [reflexivity | reflexivity | reflexivity | reflexivity | lia
       | exact Hps].
Qed.

Lemma statements_pieces :
  forall x cur, forallb (fun p => negb (is_empty p)) (statements_ cur x) = true.
Proof.
  induction x as [| c r IH]; intros cur; [reflexivity |].
  cbn [statements_].
  destruct (Ascii.eqb c ";" || is_empty r).
  - cbn [forallb]. rewrite IH, is_empty_snoc. reflexivity.
  - apply IH.
Qed.

Lemma combine_repeat_nil (ps : list str) :
  map (fun wp => statement_triple (fst wp) (snd wp))
    (combine (sentinels [] (length ps)) ps)
  = map (statement_triple []) ps.
Proof.
  rewrite sentinels_none.
  induction ps as [| p ps IH]; [reflexivity |].
  cbn [length repeat combine map fst snd]. rewrite IH. reflexivity.
Qed.

(** X19. Statements come back one per call. Take a physical line of
    ordinary characters, semicolons allowed, none of whose statements ends
    in [&] once stripped, read with nothing queued. As many successive
    calls as the line has statements return them in order: each joined
    text is the statement stripped of white space, its semicolon kept,
    with a newline only for the statement that ends the line; each
    [comments] is one empty string; each [lines] is the statement as it
    stands in the line. The line is read once, by the first call. *)
Theorem X19_statements_one_per_call :
  forall (body rest : str) (self : InputStream) (fuel : nat),
    forallb ordinary body = true -> no_newline body = true ->
    forallb (fun p => negb (endswith (strip p) "&"))
      (statements (recorded body)) = true ->
    line_buffer self = [] -> endpos self = [] -> what_omp self = [] ->
    infile self = body ++ nl :: rest ->
    calls (length (statements (recorded body))) (S fuel) self
    = Done (map (statement_triple []) (statements (recorded body)),
            {| line_buffer := []; infile := rest;
               line_nr := line_nr self + 1; endpos := []; what_omp := [] |}).
Proof.
  intros body rest self fuel Ho Hn Hcont Hb He Hw Hin.
  set (L := recorded body) in *.
  assert (HL1 : forallb ordinary L = true).
  { unfold L, recorded. rewrite forallb_app, (expand_tabs_ordinary _ Ho).
    reflexivity. }
  assert (HL2 : L <> []) by (unfold L, recorded; destruct (expand_tabs body);
                             discriminate).
  assert (HL3 : expand_tabs (body ++ [nl]) = L)
    by (unfold L, recorded; rewrite expand_tabs_app; reflexivity).
  assert (Hcomplete : forallb complete (statements L) = true).
  { pose proof (statements_pieces L []) as Hp. fold (statements L) in Hp.
    unfold complete. rewrite forallb_forall in *. intros p Hin'.
    rewrite (Hp p Hin'), (Hcont p Hin'). reflexivity. }
  destruct (statements L) as [| p ps] eqn:Hst.
  { exfalso. apply (statements_nonempty L [] HL2). exact Hst. }
  (* the first call reads the line *)
  cbn [forallb] in Hcomplete. apply andb_prop in Hcomplete.
  destruct Hcomplete as [Hp Hps].
  destruct (complete_parts p Hp) as [Hne Hpc].
  cbn [length calls].
  assert (E1 : next_fortran_line (S fuel) self
               = Done (statement_triple [] p,
                       {| line_buffer := ps; infile := rest;
                          line_nr := line_nr self + 1;
                          endpos := map (fun p => (Z.of_nat (length p) - 1)%Z)
                                      ps;
                          what_omp := repeat [] (length ps) |})).
  { unfold next_fortran_line. cbn [while_loop]. unfold iteration.
    rewrite Hb. cbn [is_empty]. unfold refill.
    rewrite Hin, (readline_line body rest Hn), HL3.
    rewrite (ordinary_no_sentinel _ HL1).
    rewrite (queue_segments_ordinary _ L [] _ _ HL1 HL2);
      [| reflexivity | reflexivity].
    cbn [line_buffer endpos what_omp infile line_nr].
    rewrite Hb, He, Hw, Hst. cbn [app map length sentinels].
    erewrite (consume_whole_segment _ _ p ps _ (repeat [] (length ps)) []);
      [| reflexivity | reflexivity | reflexivity | exact Hne | reflexivity].
    rewrite Hpc.
    cbn [set_string_iter locals_init continuation joined_line comments
         lines app infile line_nr].
    destruct (is_empty (strip p)); reflexivity. }
  rewrite E1.
  rewrite (calls_queued fuel ps (repeat [] (length ps)));
    [| reflexivity | reflexivity | reflexivity | apply repeat_length
     | exact Hps].
  cbn [infile line_nr map].
  rewrite <- sentinels_none, combine_repeat_nil. reflexivity.
Qed.

(** ** A line with a sentinel *)



Lemma expand_tabs_blank ws :
  forallb is_space ws = true -> forallb is_space (expand_tabs ws) = true.
Proof.
  induction ws as [| c r IH]; intros H; [reflexivity |].
  cbn [forallb] in H. apply andb_prop in H. destruct H as [Hc Hr].
  rewrite expand_tabs_cons, forallb_app, (IH Hr), andb_true_r.
  destruct (Ascii.eqb c tab); [reflexivity |].
  cbn [forallb]. rewrite Hc. reflexivity.
Qed.


Lemma not_close_window x r :
  Ascii.eqb x "}" = false -> FYPP_CLOSE_RE (firstn 2 (x :: r)) = false.
Proof.
  intros H. destruct r as [| y r]; [reflexivity |].
  cbn [firstn FYPP_CLOSE_RE]. unfold fypp_close_pair. rewrite H. reflexivity.
Qed.

(** An opening marker, with strings filtered: a nested call goes on
    behind its first character, inside the span. *)
Lemma next_open_span fuel self o rest :
  skipn (_it self) (_content self) = o :: "{" :: rest ->
  fypp_open_pair o "{" = true ->
  _instring self = [] -> _incomment self = [] ->
  _filter_strings self = true ->
  next_ (S fuel) self
  = next_ fuel (set_instring (set_it self (S (_it self))) [o; "{"] true).
Proof.
  intros Hx Ho Hs Hc Hfs.
  destruct (skipn_cons_inv _ _ _ _ Hx) as [Hn Hr].
  cbn [next_]. rewrite Hn. cbn zeta.
  generalize (next_ fuel). intros nx.
  simpl. rewrite char2_window, Hx, Hs, Hc. cbn [firstn FYPP_OPEN_RE].
  rewrite Ho, Hfs. simpl. rewrite andb_false_r. reflexivity.
Qed.

(** Inside a span, with strings filtered, a character that does not start
    a closing marker is passed over by a nested call. *)
Lemma next_span_char fuel self c :
  nth_error (_content self) (_it self) = Some c ->
  is_empty (_instring self) = false -> _infypp self = true ->
  _incomment self = [] -> _filter_strings self = true ->
  Ascii.eqb c "}" = false ->
  next_ (S fuel) self = next_ fuel (set_it self (S (_it self))).
Proof.
  intros Hn Hs Hi Hc Hfs Hb.
  cbn [next_]. rewrite Hn. cbn zeta.
  generalize (next_ fuel). intros nx.
  simpl. rewrite char2_window, (skipn_nth_error _ _ _ Hn).
  rewrite (not_close_window c _ Hb), Hs, Hi, Hc, Hfs. simpl.
  rewrite andb_false_r. reflexivity.
Qed.

Lemma next_skip_span :
  forall b fuel self tail,
    skipn (_it self) (_content self) = b ++ tail ->
    existsb (Ascii.eqb "}") b = false ->
    is_empty (_instring self) = false -> _infypp self = true ->
    _incomment self = [] -> _filter_strings self = true ->
    next_ (length b + fuel) self
    = next_ fuel (set_it self (_it self + length b)).
Proof.
  induction b as [| c b IH]; intros fuel self tail Hx Hb Hs Hi Hc Hfs.
  - cbn [length Nat.add]. rewrite Nat.add_0_r, set_it_same. reflexivity.
  - cbn [app] in Hx. destruct (skipn_cons_inv _ _ _ _ Hx) as [Hn Hr].
    cbn [existsb] in Hb. apply orb_false_elim in Hb. destruct Hb as [Hcb Hb].
    rewrite Ascii.eqb_sym in Hcb.
    cbn [length Nat.add].
    rewrite (next_span_char _ self c Hn Hs Hi Hc Hfs Hcb).
    rewrite (IH fuel (set_it self (S (_it self))) tail); auto.
    f_equal. unfold set_it. simpl. f_equal. lia.
Qed.

(** Inside a span that goes on for the characters of [b] and more, a
    call with room for no more calls than [b] has characters raises
    [RecursionError]. *)
Lemma next_span_short :
  forall b fuel self tail,
    skipn (_it self) (_content self) = b ++ tail ->
    existsb (Ascii.eqb "}") b = false ->
    is_empty (_instring self) = false -> _infypp self = true ->
    _incomment self = [] -> _filter_strings self = true ->
    (fuel <= length b)%nat ->
    next_ fuel self = None.
Proof.
  induction b as [| c b IH]; intros fuel self tail Hx Hb Hs Hi Hc Hfs Hf.
  - cbn [length] in Hf. destruct fuel; [reflexivity | lia].
  - destruct fuel as [| fuel]; [reflexivity |].
    cbn [app] in Hx. destruct (skipn_cons_inv _ _ _ _ Hx) as [Hn Hr].
    cbn [existsb] in Hb. apply orb_false_elim in Hb. destruct Hb as [Hcb Hb].
    rewrite Ascii.eqb_sym in Hcb.
    rewrite (next_span_char _ self c Hn Hs Hi Hc Hfs Hcb).
    apply (IH fuel (set_it self (S (_it self))) tail); auto.
    cbn [length] in Hf. lia.
Qed.

(** A closing marker, with strings filtered: the call nests one call that
    takes the second character of the marker as a character of code,
    drops what it yields and nests another that goes on behind it. *)
Lemma next_close_span fuel self k c :
  skipn (_it self) (_content self) = "}" :: k :: c ->
  is_empty (_instring self) = false -> _infypp self = true ->
  _incomment self = [] -> _filter_strings self = true ->
  plain_closer k c = true ->
  next_ (S fuel) self
  = match fuel with
    | O => None
    | S _ =>
        next_ fuel (set_instring (set_it self (S (S (_it self)))) [] false)
    end.
Proof.
  intros Hx Hs Hi Hc Hfs Hk.
  destruct (skipn_cons_inv _ _ _ _ Hx) as [Hn Hr].
  destruct (skipn_cons_inv _ _ _ _ Hr) as [Hn2 Hr2].
  pose proof Hk as Hk0.
  unfold plain_closer in Hk. apply andb_prop in Hk. destruct Hk as [Hk Hh].
  set (stA := set_instring (set_it self (S (_it self))) [] false).
  set (stB := set_instring (set_it self (S (S (_it self)))) [] false).
  assert (EA : forall f, next_ (S f) stA = Some (Yield (S (_it self)) k stB)).
  { intros f.
    assert (W : FYPP_OPEN_RE (firstn 2 (k :: c)) = false /\
                NOTFORTRAN_LINE_RE (firstn 2 (k :: c)) = false /\
                is_quote k = false).
    { apply orb_prop in Hk.
      destruct Hk as [Hk | Hk]; apply Ascii.eqb_eq in Hk; subst k;
        destruct c as [| h c']; cbn [firstn]; try (repeat split; reflexivity);
        apply negb_true_iff in Hh; apply orb_false_elim in Hh;
        destruct Hh as [Hh1 Hh2];
        unfold NOTFORTRAN_LINE_RE, FYPP_LINE_RE, CPP_RE, COMMENT_LINE_RE;
        cbn [FYPP_OPEN_RE]; unfold fypp_open_pair; simpl;
        rewrite Hh1, Hh2; repeat split; reflexivity. }
    destruct W as (W1 & W2 & W3).
    assert (C1 : FYPP_OPEN_RE (firstn 2 (skipn (_it stA) (_content stA)))
                 = false)
      by (cbn [stA set_instring set_it _it _content]; rewrite Hr; exact W1).
    assert (C2 : NOTFORTRAN_LINE_RE
                   (firstn 2 (skipn (_it stA) (_content stA))) = false)
      by (cbn [stA set_instring set_it _it _content]; rewrite Hr; exact W2).
    exact (next_code_char_at f stA k Hn2 eq_refl Hc C1 C2 W3). }
  assert (Hcl : FYPP_CLOSE_RE (firstn 2 ("}" :: k :: c)) = true).
  { cbn [firstn FYPP_CLOSE_RE]. unfold fypp_close_pair.
    apply orb_prop in Hk.
    destruct Hk as [Hk | Hk]; apply Ascii.eqb_eq in Hk; subst k; reflexivity. }
  destruct fuel as [| f].
  - cbn [next_]. rewrite Hn. cbn zeta.
    cbn [set_it set_instring _content _it _instring _infypp _incomment
         _filter_strings _filter_comments].
    rewrite char2_window, Hx, Hs, Hi, Hfs, Hcl. reflexivity.
  - remember (S f) as g eqn:Hg. cbn [next_]. rewrite Hn. cbn zeta.
    cbn [set_it set_instring _content _it _instring _infypp _incomment
         _filter_strings _filter_comments].
    rewrite char2_window, Hx, Hs, Hi, Hfs, Hcl.
    fold stA. fold stB. subst g. rewrite EA. reflexivity.
Qed.

(** With room for no more calls than the span has characters and two
    more, the call made at the opening marker raises [RecursionError]. *)
Lemma next_span_raises fuel self o b k c :
  skipn (_it self) (_content self) = o :: "{" :: b ++ "}" :: k :: c ->
  fypp_open_pair o "{" = true ->
  existsb (Ascii.eqb "}") b = false -> plain_closer k c = true ->
  _instring self = [] -> _incomment self = [] ->
  _filter_strings self = true ->
  (fuel <= length b + 3)%nat ->
  next_ fuel self = None.
Proof.
  intros Hx Ho Hb Hk Hs Hc Hfs Hf.
  destruct fuel as [| fuel]; [reflexivity |].
  rewrite (next_open_span _ self o _ Hx Ho Hs Hc Hfs).
  set (st2 := set_instring (set_it self (S (_it self))) [o; "{"] true).
  assert (Hsk2 : skipn (_it st2) (_content st2)
                 = ("{" :: b) ++ "}" :: k :: c)
    by apply (skipn_cons_inv _ _ _ _ Hx).
  assert (Hb' : existsb (Ascii.eqb "}") ("{" :: b) = false)
    by (cbn [existsb]; rewrite Hb; reflexivity).
  destruct (Nat.le_gt_cases fuel (length ("{" :: b))) as [Hle | Hgt].
  - apply (next_span_short ("{" :: b) fuel st2 ("}" :: k :: c));
      auto.
  - assert (fuel = length ("{" :: b) + 1)%nat by (cbn [length] in *; lia).
    subst fuel.
    rewrite (next_skip_span ("{" :: b) 1 st2 ("}" :: k :: c)); auto.
    rewrite (next_close_span 0 _ k c); auto.
    cbn [set_it _it _content]. rewrite Nat.add_comm, <- skipn_skipn, Hsk2.
    apply skipn_app_exact.
Qed.

(** X21. With [filter_strings] on, an interpolation span is removed with
    both its markers, when the interpreter has room for it. For ordinary
    text [a] and [c], an opening marker [#{], [${] or [@{], any span text
    [b] without closing brace, and a closing marker [}$] or [}@] that is
    not followed by a colon or an opening brace, [filter_all] on [a], the
    span and [c] returns [a c], with [filter_comments] on or off, when
    the calls of [__next__] may nest three deeper than [b] has
    characters; otherwise it raises [RecursionError]. *)
Theorem X21_interpolation_span_is_removed :
  forall (a b c : str) (o k : ascii) (fc : bool),
    forallb ordinary a = true -> forallb ordinary c = true ->
    fypp_open_pair o "{" = true ->
    existsb (Ascii.eqb "}") b = false ->
    plain_closer k c = true ->
    filter_all (CharFilter_init (a ++ o :: "{" :: b ++ "}" :: k :: c) fc true)
    = if (length b + 3 <=? limit)%nat then Some (a ++ c) else None.
Proof.
  intros a b c o k fc Ha Hc Ho Hb Hk.
  set (text := a ++ o :: "{" :: b ++ "}" :: k :: c).
  set (st0 := CharFilter_init text fc true).
  set (st1 := set_it st0 (length a)).
  set (st2 := set_instring (set_it st1 (S (length a))) [o; "{"] true).
  set (st3 := set_it st2 (S (length a) + length ("{" :: b))).
  set (st5 := set_instring (set_it st3 (S (S (_it st3)))) [] false).
  assert (Hsk1 : skipn (length a) text = o :: "{" :: b ++ "}" :: k :: c).
  { unfold text. rewrite skipn_app, Nat.sub_diag, skipn_all. reflexivity. }
  assert (Hsk2 : skipn (S (length a)) text = ("{" :: b) ++ "}" :: k :: c).
  { apply (skipn_cons_inv _ _ _ _ Hsk1). }
  assert (Hsk3 : skipn (S (length a) + length ("{" :: b)) text
                 = "}" :: k :: c).
  { rewrite Nat.add_comm, <- skipn_skipn, Hsk2. apply skipn_app_exact. }
  assert (Hsk5 : skipn (S (S (S (length a) + length ("{" :: b)))) text = c).
  { destruct (skipn_cons_inv _ _ _ _ Hsk3) as [_ H].
    apply (skipn_cons_inv _ _ _ _ H). }
  assert (E0 : iterate st0
               = match iterate_ (S (length text)) st1 with
                 | Some (ys, st) => Some (enum_from 0 a ++ ys, st)
                 | None => None
                 end).
  { unfold iterate.
    rewrite (iterate_rounds _ st0 (length a + S (length text)));
      [| unfold rounds; simpl; lia | simpl; lia].
    rewrite (iterate_ordinary_prefix a _ st0
               (o :: "{" :: b ++ "}" :: k :: c)); auto. }
  unfold filter_all, filter_all_. fold (iterate st0). rewrite E0.
  destruct (length b + 3 <=? limit)%nat eqn:Hroom.
  - apply Nat.leb_le in Hroom.
    assert (N : __next__ st1 = __next__ st5).
    { unfold __next__ at 1.
      rewrite (next_open_span _ st1 o _ Hsk1 Ho); try reflexivity.
      fold st2.
      replace limit
        with (length ("{" :: b) + S (S (limit - length b - 3)))%nat
        by (cbn [length]; lia).
      rewrite (next_skip_span ("{" :: b) _ st2 ("}" :: k :: c));
        try reflexivity;
        [| exact Hsk2 | cbn [existsb]; rewrite Hb; reflexivity].
      fold st3.
      rewrite (next_close_span _ st3 k c); try reflexivity;
        [| exact Hsk3 | exact Hk].
      fold st5. apply (next_ordinary_call _ _ c); auto. }
    assert (E5 : iterate st5
                 = Some (enum_from (_it st5) c,
                         set_it st5 (_it st5 + length c)))
      by (apply (iterate_ordinary c st5); auto).
    assert (E1 : iterate_ (S (length text)) st1
                 = Some (enum_from (_it st5) c,
                         set_it st5 (_it st5 + length c))).
    { rewrite (iterate_same_next _ st1 st5 N).
      unfold iterate in E5. eapply iterate_fuel; [exact E5 |].
      unfold rounds. simpl. lia. }
    rewrite E1, map_app, !map_snd_enum_from. reflexivity.
  - apply Nat.leb_gt in Hroom.
    rewrite iterate_raises; [reflexivity |].
    apply (next_span_raises (S limit) st1 o b k c); auto; lia.
Qed.

(** Inside a quoted string that the text does not close, with strings
    filtered, a call runs to the end of the text, one nested call for
    every character. *)
Lemma next_string_rest :
  forall b fuel self q,
    skipn (_it self) (_content self) = b ->
    _instring self = [q] -> _infypp self = false -> _incomment self = [] ->
    _filter_strings self = true -> existsb (Ascii.eqb q) b = false ->
    next_ (S (length b) + fuel) self
    = Some (StopIteration (set_it self (_it self + length b))).
Proof.
  induction b as [| c b IH]; intros fuel self q Hx Hs Hi Hc Hfs Hb.
  - cbn [length Nat.add]. rewrite Nat.add_0_r, set_it_same.
    cbn [next_]. rewrite (skipn_nil_inv _ _ Hx). reflexivity.
  - destruct (skipn_cons_inv _ _ _ _ Hx) as [Hn Hr].
    cbn [existsb] in Hb. apply orb_false_elim in Hb. destruct Hb as [Hqc Hb].
    cbn [length]. change (S (S (length b)) + fuel)%nat
      with (S (S (length b) + fuel)).
    rewrite (next_string_char _ self c q Hn Hs Hi Hc Hfs Hqc).
    rewrite (IH fuel (set_it self (S (_it self))) q); auto.
    do 2 f_equal. unfold set_it. simpl. f_equal. lia.
Qed.

(** X22. A string may stay open from one text to the next. After the
    scan of [a q b1], where [q] is a quote character that [b1] does not
    hold, the object remembers the open delimiter; bound by [update] to
    [b2 q c], it passes over [b2] and the closing [q], and [filter_all]
    returns [c]. Both scans return when the calls of [__next__] may nest
    one deeper than [b1] and than [b2] have characters; with less room
    for [b1] the first scan raises [RecursionError]. *)
Theorem X22_string_open_across_update :
  forall (a b1 b2 c : str) (q : ascii) (fc fc' : bool),
    forallb ordinary a = true -> forallb ordinary c = true ->
    is_quote q = true ->
    existsb (Ascii.eqb q) b1 = false -> existsb (Ascii.eqb q) b2 = false ->
    ((length b1 + 1 <= limit)%nat -> (length b2 + 1 <= limit)%nat ->
     exists st,
       iterate (CharFilter_init (a ++ q :: b1) fc true)
       = Some (enum_from 0 a, st) /\
       _instring st = [q] /\
       filter_all (update st (b2 ++ q :: c) fc' true) = Some c) /\
    ((limit < length b1 + 1)%nat ->
     iterate (CharFilter_init (a ++ q :: b1) fc true) = None).
Proof.
  intros a b1 b2 c q fc fc' Ha Hc Hq Hb1 Hb2.
  set (text := a ++ q :: b1).
  set (st0 := CharFilter_init text fc true).
  set (st1 := set_it st0 (length a)).
  set (st2 := set_instring (set_it st1 (S (length a))) [q] false).
  set (st3 := set_it st2 (S (length a) + length b1)).
  assert (Hsk1 : skipn (length a) text = q :: b1).
  { unfold text. rewrite skipn_app, Nat.sub_diag, skipn_all. reflexivity. }
  assert (Hsk2 : skipn (S (length a)) text = b1)
    by apply (skipn_cons_inv _ _ _ _ Hsk1).
  assert (P0 : iterate st0
               = match iterate_ (S (length text)) st1 with
                 | Some (ys, st) => Some (enum_from 0 a ++ ys, st)
                 | None => None
                 end).
  { unfold iterate.
    rewrite (iterate_rounds _ st0 (length a + S (length text)));
      [| unfold rounds; simpl; lia | simpl; lia].
    rewrite (iterate_ordinary_prefix a _ st0 (q :: b1)); auto. }
  split.
  - intros Hr1 Hr2.
    assert (N1 : __next__ st1 = Some (StopIteration st3)).
    { unfold __next__.
      rewrite (next_open_quote _ st1 q b1 Hsk1); try reflexivity;
        [| exact Hq].
      replace limit with (S (length b1) + (limit - length b1 - 1))%nat
        by lia.
      apply (next_string_rest b1 _ st2 q); try reflexivity; assumption. }
    assert (E0 : iterate st0 = Some (enum_from 0 a, st3)).
    { rewrite P0. cbn [iterate_]. rewrite N1, app_nil_r. reflexivity. }
    exists st3. split; [exact E0 |]. split; [reflexivity |].
    set (u := update st3 (b2 ++ q :: c) fc' true).
    set (u2 := set_instring (set_it u (S (length b2))) [] false).
    assert (N2 : __next__ u = __next__ u2).
    { unfold __next__ at 1.
      replace (S limit)
        with (S (length b2) + S (limit - length b2 - 1))%nat by lia.
      rewrite (next_skip_string b2 _ u q c); try reflexivity; auto.
      change (set_instring (set_it u (_it u + S (length b2))) [] false)
        with u2.
      apply (next_ordinary_call _ _ c); auto.
      cbn [u2 u update set_it set_instring _it _content].
      apply skipn_behind. }
    assert (E2 : iterate u2
                 = Some (enum_from (S (length b2)) c,
                         set_it u2 (_it u2 + length c))).
    { apply (iterate_ordinary c u2); auto.
      cbn [u2 u update set_it set_instring _it _content].
      apply skipn_behind. }
    assert (E1 : iterate u
                 = Some (enum_from (S (length b2)) c,
                         set_it u2 (_it u2 + length c))).
    { unfold iterate in *. unfold rounds at 1. unfold rounds at 1 in E2.
      rewrite (iterate_same_next _ u u2 N2).
      eapply iterate_fuel; [exact E2 |]. simpl. lia. }
    unfold filter_all, filter_all_. fold (iterate u). rewrite E1.
    apply f_equal, map_snd_enum_from.
  - intros Hr. rewrite P0. rewrite iterate_raises; [reflexivity |].
    unfold __next__.
    rewrite (next_open_quote _ st1 q b1 Hsk1); try reflexivity;
      [| exact Hq].
    apply (next_string_short b1 limit _ q []); try reflexivity; auto;
      [| lia].
    cbn [set_instring set_it _it _content st1 st0 CharFilter_init].
    rewrite app_nil_r. exact Hsk2.
Qed.

(** * The line number *)

Lemma count_lines_readline f :
  forall inside,
    f <> [] \/ inside = true ->
    count_lines_ inside f = S (count_lines (snd (readline f))).
Proof.
  induction f as [| c r IH]; intros inside H.
  - destruct H as [H | ->]; [congruence | reflexivity].
  - cbn [count_lines_ readline].
    destruct (Ascii.eqb c nl); [reflexivity |].
    rewrite (IH true) by (right; reflexivity).
    destruct (readline r) as [l r']. reflexivity.
Qed.

Lemma iteration_line_count self l self1 l1 f :
  iteration self l = Done (self1, l1, f) ->
  lines_in_all self1 = lines_in_all self \/
  (f = BreakEmpty /\ infile self1 = [] /\
   lines_in_all self1 = (lines_in_all self + 1)%Z).
Proof.
  unfold iteration.
  destruct (line_buffer self) as [| sg lb] eqn:Hb; cbn [is_empty].
  - destruct (refill self (fypp_cont l) (string_iter l))
      as [[self0 it1] |] eqn:E; [| discriminate].
    destruct (refill_appends self (fypp_cont l) (string_iter l) _ _ E)
      as (segs & es & ws & R1 & R2 & R3 & R4 & R5 & R6
          & R7 & R8 & R9 & R10 & R11).
    intros H. apply consume_pops in H.
    destruct H as (line & e & omp & P1 & P2 & P3 & P4 & P5 & P6).
    unfold lines_in_all. rewrite P4, P5, R4, R5.
    destruct (infile self) as [| c0 f0] eqn:Hin.
    + (* a read at the end of the input *)
      right. cbn [readline snd count_lines count_lines_].
      cbn [readline fst expand_tabs flat_map strip_sentinel OMP_SUBS_RE
           lstrip_by snd] in R10.
      rewrite Hb in R1. cbn [app] in R1. rewrite R1 in P1.
      rewrite P1 in R10. inversion R10 as [| ? ? Hp _]; subst.
      apply piece_of_nil in Hp.
      split; [apply P6, Hp |]. split; [reflexivity | lia].
    + left. unfold count_lines at 2.
      rewrite (count_lines_readline (c0 :: f0) false)
        by (left; discriminate).
      lia.
  - intros H. apply consume_pops in H.
    destruct H as (line & e & omp & P1 & P2 & P3 & P4 & P5 & P6).
    left. unfold lines_in_all. rewrite P4, P5. reflexivity.
Qed.

Lemma while_loop_line_count fuel :
  forall self l self' l',
    while_loop fuel self l = Done (self', l') ->
    lines_in_all self' = lines_in_all self \/
    (infile self' = [] /\ lines_in_all self' = (lines_in_all self + 1)%Z).
Proof.
  induction fuel as [| fuel IH]; intros self l self' l' H; [discriminate |].
  cbn [while_loop] in H.
  destruct (iteration self l) as [[[self1 l1] f] | | |] eqn:E;
    try discriminate.
  apply iteration_line_count in E.
  destruct f.
  - inversion H; subst. destruct E as [E | (_ & E1 & E2)]; auto.
  - inversion H; subst. destruct E as [E | (E0 & _)];
      [auto | discriminate].
  - destruct E as [E | (E0 & _)]; [| discriminate].
    apply IH in H. rewrite E in H. exact H.
Qed.

(** X23. [line_nr] counts the lines read. Across every call that
    returns, [line_nr] plus the number of lines still unread stays the
    same, with one exception: a read at the end of the input adds one to
    [line_nr] although no line was left. *)
Theorem X23_line_number_counts_reads :
  forall (fuel : nat) (self : InputStream) t (self' : InputStream),
    next_fortran_line fuel self = Done (t, self') ->
    (line_nr self' + Z.of_nat (count_lines (infile self'))
     = line_nr self + Z.of_nat (count_lines (infile self)))%Z \/
    (infile self' = [] /\
     line_nr self'
     = (line_nr self + Z.of_nat (count_lines (infile self)) + 1)%Z).
Proof.
  intros fuel self t self' H. unfold next_fortran_line in H.
  destruct (while_loop fuel self locals_init) as [[st l'] | | |] eqn:E;
    try discriminate.
  inversion H; subst; clear H.
  apply while_loop_line_count in E. unfold lines_in_all in E.
  destruct E as [E | [E1 E2]]; [left; exact E |].
  right. split; [exact E1 |]. rewrite E1 in E2.
  cbn [count_lines count_lines_] in E2. lia.
Qed.

(** * Template line directives *)

Lemma notfortran_not_open (x : str) :
  NOTFORTRAN_LINE_RE (firstn 2 x) = true -> FYPP_OPEN_RE (firstn 2 x) = false.
Proof.
  destruct x as [| a [| b r]]; try reflexivity.
  cbn [firstn FYPP_OPEN_RE]. rewrite orb_false_r.
  unfold NOTFORTRAN_LINE_RE, FYPP_LINE_RE, CPP_RE, COMMENT_LINE_RE,
    fypp_open_pair.
  destruct (Ascii.eqb b "{") eqn:Eb; [| rewrite andb_false_r; reflexivity].
  apply Ascii.eqb_eq in Eb. subst b. cbn.
  destruct (Ascii.eqb a "#") eqn:E1;
    [apply Ascii.eqb_eq in E1; subst a; discriminate |].
  destruct (Ascii.eqb a "$") eqn:E2;
    [apply Ascii.eqb_eq in E2; subst a; discriminate |].
  destruct (Ascii.eqb a "@") eqn:E3;
    [apply Ascii.eqb_eq in E3; subst a; discriminate |].
  reflexivity.
Qed.

(** The scan of a line that starts with a marker yields nothing and ends
    in comment state. *)
Lemma iterate_at_marker it m r :
  NOTFORTRAN_LINE_RE (firstn 2 (m :: r)) = true ->
  _instring it = [] -> _incomment it = [] ->
  exists it1,
    iterate (update it (m :: r) true true) = Some ([], it1) /\
    is_empty (_incomment it1) = false /\ _instring it1 = [].
Proof.
  intros Hnf Hs Hi.
  set (scan := update it (m :: r) true true).
  exists (set_incomment (set_it scan 1) [m]).
  split; [| split; [reflexivity | exact Hs]].
  unfold iterate. unfold rounds at 1. cbn [iterate_].
  rewrite (next_comment_start scan m); try reflexivity; auto.
  apply (notfortran_not_open (m :: r) Hnf).
Qed.

(** The scan of lines 206-212, started at a marker, yields that position
    first. *)
Lemma second_scan_marker m r :
  NOTFORTRAN_LINE_RE (firstn 2 (m :: r)) = true ->
  exists ys st,
    iterate (CharFilter_init (m :: r) false true)
    = Some ((0%nat, m) :: ys, st).
Proof.
  intros Hnf. pose proof (notfortran_not_open (m :: r) Hnf) as Ho.
  unfold iterate, rounds. cbn [iterate_].
  assert (E : __next__ (CharFilter_init (m :: r) false true)
              = Some (Yield 0 m
                        (set_incomment
                           (set_it (CharFilter_init (m :: r) false true) 1)
                           [m]))).
  { unfold __next__, rounds. cbn [next_]. simpl nth_error. cbn zeta.
    cbn [_it _content CharFilter_init set_it _instring _incomment is_empty].
    rewrite (char2_window (m :: r) 0). cbn [skipn].
    rewrite Ho, Hnf. reflexivity. }
  rewrite E.
  match goal with
  | |- context [iterate_ ?f ?st] =>
      destruct (iterate_comment_any f st) as (ys & st' & E');
        [reflexivity | reflexivity | simpl; lia | rewrite E']
  end.
  exists ys, st'. reflexivity.
Qed.

(** Lines 186-217 on a line that starts with a marker. *)
Lemma queue_segments_marker_line self m r omp it :
  NOTFORTRAN_LINE_RE (firstn 2 (m :: r)) = true ->
  _instring it = [] -> _incomment it = [] ->
  exists it1,
    queue_segments self (m :: r) omp false it
    = Some (append_segment self (-1) (m :: r) omp, it1) /\
    is_empty (_incomment it1) = false /\ _instring it1 = [].
Proof.
  intros Hnf Hs Hi. unfold queue_segments.
  destruct (iterate_at_marker it m r Hnf Hs Hi) as (it1 & E & Hc).
  rewrite E. exists it1. split; [| exact Hc].
  cbn [fold_left]. unfold queue_rest. cbv zeta.
  cbn [sv_pos sv_line_start sv_what_omp sv_stream].
  change (-1 + 1)%Z with 0%Z.
  change (slice_from (m :: r) 0) with (m :: r).
  replace (0 <? Z.of_nat (length (m :: r)))%Z with true
    by (symmetry; apply Z.ltb_lt; cbn [length]; lia).
  destruct (second_scan_marker m r Hnf) as (ys2 & st2 & E2).
  rewrite (first_notfortran_iterate _ _ _ _ _ E2).
  cbn [find_notfortran].
  change (-1 + 1 + Z.of_nat 0)%Z with (Z.of_nat 0).
  change (-1 + 3 + Z.of_nat 0)%Z with (Z.of_nat 0 + 2)%Z.
  rewrite char2_window. cbn [skipn]. rewrite Hnf.
  cbn [append_segment line_buffer]. rewrite is_empty_snoc. reflexivity.
Qed.

(** Lines 186-217 with a template continuation pending, the scanner in
    comment state. *)
Lemma queue_segments_continued self line omp it :
  is_empty line = false -> is_empty (_incomment it) = false ->
  _instring it = [] ->
  exists it1,
    queue_segments self line omp true it
    = Some (append_segment self (-1) line omp, it1) /\
    is_empty (_incomment it1) = false /\ _instring it1 = [].
Proof.
  intros Hne Hi Hs. unfold queue_segments.
  destruct (iterate_in_comment_state (update it line true true))
    as (it1 & E & Ks & K); auto.
  rewrite E. exists it1.
  split; [| split; [rewrite K; exact Hi | exact Ks]].
  cbn [fold_left]. unfold queue_rest. cbv zeta.
  cbn [sv_pos sv_line_start sv_what_omp sv_stream].
  change (-1 + 1)%Z with 0%Z.
  replace (0 <? Z.of_nat (length line))%Z with true
    by (symmetry; apply Z.ltb_lt; destruct line;
        [discriminate | cbn [length]; lia]).
  cbn [append_segment line_buffer]. rewrite is_empty_snoc. reflexivity.
Qed.

(** Lines 220-264 on a queued line that is all comment. *)
Lemma consume_comment_only self l d lb ep wo :
  line_buffer self = (d ++ [nl]) :: lb ->
  endpos self = (-1)%Z :: ep ->
  what_omp self = [] :: wo ->
  no_newline d = true -> forallb is_space d = false ->
  NOTFORTRAN_LINE_RE (firstn 2 (d ++ [nl])) || fypp_cont l = true ->
  FYPP_LINE_RE (firstn 2 (d ++ [nl])) || fypp_cont l = true ->
  joined_line l = [] ->
  consume self l
  = Done ({| line_buffer := lb; infile := infile self;
             line_nr := line_nr self; endpos := ep; what_omp := wo |},
          {| joined_line := [];
             comments := comments l ++ [d];
             lines := lines l ++ [d ++ [nl]];
             continuation := continuation l;
             fypp_cont := endswith (strip d) "&";
             string_iter := string_iter l |},
          if continuation l || endswith (strip d) "&"
          then Again else BreakComplete).
Proof.
  intros Hb He Hw Hn Hd Hnf Hfl Hj. unfold consume. rewrite Hb, He, Hw, Hj.
  assert (Hne : is_empty (d ++ [nl]) = false) by apply is_empty_snoc.
  rewrite Hne.
  change (-1 + 1)%Z with (Z.of_nat 0). change (-1 + 3)%Z with (Z.of_nat 0 + 2)%Z.
  rewrite char2_window. cbn [skipn].
  change (slice_to (d ++ [nl]) (Z.of_nat 0)) with (@nil ascii).
  change (slice_from (d ++ [nl]) (Z.of_nat 0)) with (d ++ [nl]).
  rewrite Hnf. unfold next_fypp_cont. rewrite Hne, Hfl.
  rewrite (strip_snoc_space d nl eq_refl).
  assert (Hst : is_empty (strip d) = false)
    by (rewrite is_empty_strip; exact Hd).
  unfold endswith.
  destruct (last_char (strip d)) as [c |] eqn:Hl.
  - rewrite (rstrip_by_snoc (Ascii.eqb nl) d nl eq_refl).
    rewrite (rstrip_newline_id d Hn). reflexivity.
  - apply last_char_none in Hl. rewrite Hl in Hst. discriminate.
Qed.

Lemma directive_more_parts b :
  directive_more b = true ->
  no_newline b = true /\ forallb is_space (expand_tabs b) = false /\
  OMP_SUBS_RE (recorded b) = None.
Proof.
  unfold directive_more. intros H. apply andb_prop in H.
  destruct H as [H H3]. apply andb_prop in H. destruct H as [H1 H2].
  apply negb_true_iff in H2.
  destruct (OMP_SUBS_RE (recorded b)); [discriminate | auto].
Qed.

(** One iteration that reads a line while a template continuation is
    pending. *)
Lemma iteration_directive_more self l b rest :
  directive_more b = true ->
  line_buffer self = [] -> endpos self = [] -> what_omp self = [] ->
  infile self = b ++ nl :: rest ->
  fypp_cont l = true -> joined_line l = [] ->
  is_empty (_incomment (string_iter l)) = false ->
  _instring (string_iter l) = [] ->
  exists it1,
    iteration self l
    = Done ({| line_buffer := []; infile := rest;
               line_nr := line_nr self + 1; endpos := []; what_omp := [] |},
            {| joined_line := [];
               comments := comments l ++ [expand_tabs b];
               lines := lines l ++ [recorded b];
               continuation := continuation l;
               fypp_cont := continued b;
               string_iter := it1 |},
            if continuation l || continued b then Again else BreakComplete)
    /\ is_empty (_incomment it1) = false /\ _instring it1 = [].
Proof.
  intros Hd Hb He Hw Hin Hf Hj Hi Hs.
  destruct (directive_more_parts b Hd) as (D1 & D2 & D3).
  unfold iteration. rewrite Hb. cbn [is_empty].
  unfold refill. rewrite Hin, (readline_line b rest D1).
  rewrite expand_tabs_app.
  change (expand_tabs [nl]) with [nl]. fold (recorded b).
  rewrite D3, Hf.
  match goal with
  | |- context [queue_segments ?st _ _ _ _] =>
      destruct (queue_segments_continued st (recorded b) []
                  (string_iter l)) as (it1 & E & Hc);
        [apply is_empty_snoc | exact Hi | exact Hs |]
  end.
  rewrite E. exists it1. split; [| exact Hc].
  unfold recorded.
  rewrite (consume_comment_only _ _ (expand_tabs b) [] [] []);
    cbn [append_segment line_buffer endpos what_omp set_string_iter
         fypp_cont joined_line];
    rewrite ?Hb, ?He, ?Hw, ?Hf, ?orb_true_r;
    try reflexivity; try assumption.
  apply expand_tabs_no_newline, D1.
Qed.

(** One iteration that reads a template line directive. *)
Lemma iteration_directive_first self l b rest :
  FYPP_LINE_RE (expand_tabs b) = true -> no_newline b = true ->
  line_buffer self = [] -> endpos self = [] -> what_omp self = [] ->
  infile self = b ++ nl :: rest ->
  fypp_cont l = false -> joined_line l = [] ->
  _instring (string_iter l) = [] -> _incomment (string_iter l) = [] ->
  exists it1,
    iteration self l
    = Done ({| line_buffer := []; infile := rest;
               line_nr := line_nr self + 1; endpos := []; what_omp := [] |},
            {| joined_line := [];
               comments := comments l ++ [expand_tabs b];
               lines := lines l ++ [recorded b];
               continuation := continuation l;
               fypp_cont := continued b;
               string_iter := it1 |},
            if continuation l || continued b then Again else BreakComplete)
    /\ is_empty (_incomment it1) = false /\ _instring it1 = [].
Proof.
  intros Hd Hn Hb He Hw Hin Hf Hj Hs Hi.
  destruct (expand_tabs b) as [| m1 [| m2 r]] eqn:Eb; try discriminate.
  assert (Hmark : FYPP_LINE_RE (firstn 2 (recorded b)) = true)
    by (unfold recorded; rewrite Eb; exact Hd).
  assert (Hnf : NOTFORTRAN_LINE_RE (firstn 2 (recorded b)) = true)
    by (unfold NOTFORTRAN_LINE_RE; rewrite Hmark; reflexivity).
  assert (Hblank : forallb is_space (expand_tabs b) = false).
  { apply (fypp_line_not_blank 2). rewrite Eb. exact Hd. }
  assert (Homp : OMP_SUBS_RE (recorded b) = None).
  { unfold OMP_SUBS_RE, recorded. rewrite Eb. cbn [app lstrip_by].
    assert (Hm : is_space m1 = false /\ Ascii.eqb m1 "!" = false).
    { cbn [FYPP_LINE_RE] in Hd.
      destruct (Ascii.eqb m1 "#") eqn:E1;
        [apply Ascii.eqb_eq in E1; subst m1; split; reflexivity |].
      destruct (Ascii.eqb m1 "$") eqn:E2;
        [apply Ascii.eqb_eq in E2; subst m1; split; reflexivity |].
      destruct (Ascii.eqb m1 "@") eqn:E3;
        [apply Ascii.eqb_eq in E3; subst m1; split; reflexivity |].
      discriminate. }
    destruct Hm as [-> ->]. reflexivity. }
  unfold iteration. rewrite Hb. cbn [is_empty].
  unfold refill. rewrite Hin, (readline_line b rest Hn).
  rewrite expand_tabs_app.
  change (expand_tabs [nl]) with [nl]. fold (recorded b).
  rewrite Homp, Hf.
  assert (Hrec : recorded b = m1 :: (m2 :: r) ++ [nl])
    by (unfold recorded; rewrite Eb; reflexivity).
  match goal with
  | |- context [queue_segments ?st _ _ _ _] =>
      destruct (queue_segments_marker_line st m1 ((m2 :: r) ++ [nl]) []
                  (string_iter l)) as (it1 & E & Hc);
        [rewrite <- Hrec; exact Hnf | exact Hs | exact Hi |]
  end.
  rewrite <- Hrec in E. rewrite E. exists it1. split; [| exact Hc].
  unfold continued. rewrite Eb. unfold recorded. rewrite Eb.
  unfold recorded in Hnf, Hmark. rewrite Eb in Hnf, Hmark, Hblank.
  rewrite (consume_comment_only _ _ (m1 :: m2 :: r) [] [] []);
    cbn [append_segment line_buffer endpos what_omp set_string_iter
         fypp_cont joined_line];
    rewrite ?Hb, ?He, ?Hw, ?Hf, ?Hnf, ?Hmark;
    try reflexivity; try assumption.
  rewrite <- Eb. apply expand_tabs_no_newline, Hn.
Qed.

Lemma while_loop_directive_lines :
  forall more fuel self l rest,
    more <> [] ->
    forallb directive_more more = true -> chain more = true ->
    line_buffer self = [] -> endpos self = [] -> what_omp self = [] ->
    infile self = text_of more ++ rest ->
    fypp_cont l = true -> continuation l = false -> joined_line l = [] ->
    is_empty (_incomment (string_iter l)) = false ->
    _instring (string_iter l) = [] ->
    (length more <= fuel)%nat ->
    exists l',
      while_loop fuel self l
      = Done ({| line_buffer := []; infile := rest;
                 line_nr := line_nr self + Z.of_nat (length more);
                 endpos := []; what_omp := [] |}, l') /\
      joined_line l' = [] /\
      comments l' = comments l ++ map expand_tabs more /\
      lines l' = lines l ++ map recorded more.
Proof.
  induction more as [| b more IH];
    intros fuel self l rest Hne Hm Hch Hb He Hw Hin Hf Hc Hj Hi Hs Hfuel;
    [congruence |].
  destruct fuel as [| fuel]; [cbn [length] in Hfuel; lia |].
  cbn [forallb] in Hm. apply andb_prop in Hm. destruct Hm as [Hd Hm].
  cbn [text_of map concat] in Hin. rewrite <- !app_assoc in Hin.
  cbn [app] in Hin.
  destruct (iteration_directive_more self l b _ Hd Hb He Hw Hin Hf Hj Hi Hs)
    as (it1 & E & Hi1 & Hs1).
  cbn [while_loop]. rewrite E, Hc. cbn [orb].
  destruct more as [| b2 more'].
  - cbn [chain] in Hch. apply negb_true_iff in Hch. rewrite Hch.
    eexists. split; [reflexivity |].
    cbn [joined_line comments lines map length]. auto.
  - assert (Ha : continued b = true)
      by (cbn [chain] in Hch; apply andb_prop in Hch; tauto).
    assert (Hch' : chain (b2 :: more') = true)
      by (cbn [chain] in Hch; apply andb_prop in Hch; tauto).
    rewrite Ha.
    match goal with
    | |- context [while_loop fuel ?st ?l1] =>
        destruct (IH fuel st l1 rest) as (l' & E' & J & C & L)
    end; auto; try discriminate; [cbn [length] in *; lia |].
    exists l'. split.
    + rewrite E'. cbn [line_nr].
      replace (line_nr self + 1 + Z.of_nat (length (b2 :: more')))%Z
        with (line_nr self + Z.of_nat (length (b :: b2 :: more')))%Z
        by (cbn [length]; lia).
      reflexivity.
    + cbn [joined_line comments lines] in J, C, L.
      rewrite J, C, L, <- !app_assoc. cbn [map app]. auto.
Qed.

(** X24. A template line directive and its continuation lines. Take a
    line that starts with [#!], [#:], [$:] or [@:], followed by any number
    of lines that are not blank and carry no sentinel, every line but the
    last ending in [&]. One call reads them all and returns the empty
    joined text, each line without its newline as a comment, whatever the
    continuation lines hold, and the lines as read. *)
Theorem X24_template_directive_lines :
  forall (first : str) (more : list str) (rest : str)
         (self : InputStream) (fuel : nat),
    FYPP_LINE_RE (expand_tabs first) = true -> no_newline first = true ->
    forallb directive_more more = true ->
    chain (first :: more) = true ->
    line_buffer self = [] -> endpos self = [] -> what_omp self = [] ->
    infile self = text_of (first :: more) ++ rest ->
    (length more < fuel)%nat ->
    next_fortran_line fuel self
    = Done (([], map expand_tabs (first :: more),
             map recorded (first :: more)),
            {| line_buffer := []; infile := rest;
               line_nr := line_nr self + Z.of_nat (S (length more));
               endpos := []; what_omp := [] |}).
Proof.
  intros first more rest self fuel Hd Hn Hm Hch Hb He Hw Hin Hfuel.
  destruct fuel as [| fuel]; [lia |].
  cbn [text_of map concat] in Hin. rewrite <- !app_assoc in Hin.
  cbn [app] in Hin.
  destruct (iteration_directive_first self locals_init first _ Hd Hn Hb He
              Hw Hin) as (it1 & E & Hi1 & Hs1); try reflexivity.
  unfold next_fortran_line. cbn [while_loop]. rewrite E.
  cbn [locals_init continuation orb comments lines app].
  destruct more as [| b2 more'].
  - cbn [chain] in Hch. apply negb_true_iff in Hch. rewrite Hch.
    reflexivity.
  - assert (Ha : continued first = true)
      by (cbn [chain] in Hch; apply andb_prop in Hch; tauto).
    assert (Hch' : chain (b2 :: more') = true)
      by (cbn [chain] in Hch; apply andb_prop in Hch; tauto).
    rewrite Ha.
    match goal with
    | |- context [while_loop fuel ?st ?l1] =>
        destruct (while_loop_directive_lines (b2 :: more') fuel st l1 rest)
          as (l' & E' & J & C & L)
    end; auto; try discriminate; [lia |].
    rewrite E'. cbn [joined_line comments lines line_nr] in *.
    rewrite J, C, L. cbn [map app].
    replace (line_nr self + 1 + Z.of_nat (length (b2 :: more')))%Z
      with (line_nr self + Z.of_nat (S (length (b2 :: more'))))%Z by lia.
    reflexivity.
Qed.

(** ** A blank line after a continued directive *)

Lemma blank_no_sentinel x :
  forallb is_space x = true -> OMP_SUBS_RE x = None.
Proof.
  intros H. unfold OMP_SUBS_RE. apply lstrip_by_nil in H. rewrite H.
  reflexivity.
Qed.

(** X25. A blank line after a continued template directive makes
    [next_fortran_line] raise [IndexError]. When the queues are empty and
    the next line starts with [#!], [#:], [$:] or [@:] and ends in [&],
    and the line after it holds only white space, the call does not
    return a logical line: it raises [IndexError]. *)
Theorem X25_blank_line_after_continued_directive :
  forall (first ws rest : str) (self : InputStream) (fuel : nat),
    FYPP_LINE_RE (expand_tabs first) = true -> no_newline first = true ->
    continued first = true ->
    forallb is_space ws = true -> no_newline ws = true ->
    line_buffer self = [] -> endpos self = [] -> what_omp self = [] ->
    infile self = first ++ nl :: ws ++ nl :: rest ->
    next_fortran_line (S (S fuel)) self = IndexError.
Proof.
  intros first ws rest self fuel Hd Hn Hcont Hws Hwn Hb He Hw Hin.
  destruct (iteration_directive_first self locals_init first _ Hd Hn Hb He
              Hw Hin) as (it1 & E & Hi1 & Hs1); try reflexivity.
  unfold next_fortran_line.
  change (while_loop (S (S fuel)) self locals_init)
    with (match iteration self locals_init with
          | Done (self, l, Again) => while_loop (S fuel) self l
          | Done (self, l, _) => Done (self, l)
          | IndexError => IndexError
          | RecursionError => RecursionError
          | OutOfFuel => OutOfFuel
          end).
  rewrite E, Hcont. cbn [locals_init continuation orb while_loop].
  assert (Hblank : forallb is_space (recorded ws) = true).
  { unfold recorded. rewrite forallb_app, (expand_tabs_blank ws Hws).
    reflexivity. }
  unfold iteration. cbn [line_buffer is_empty infile fypp_cont string_iter].
  unfold refill. cbn [infile line_buffer line_nr endpos what_omp].
  rewrite (readline_line ws rest Hwn), expand_tabs_app.
  change (expand_tabs [nl]) with [nl]. fold (recorded ws).
  rewrite (blank_no_sentinel _ Hblank).
  match goal with
  | |- context [queue_segments ?st _ _ _ _] =>
      destruct (queue_segments_continued st (recorded ws) [] it1)
        as (it2 & E2 & _); [apply is_empty_snoc | exact Hi1 | exact Hs1 |]
  end.
  rewrite E2.
  match goal with
  | |- context [consume ?st ?l] =>
      assert (Hc : consume st l = IndexError)
  end.
  { eapply (consume_index_error _ _ (recorded ws) [] (-1)%Z [] [] []);
      try reflexivity.
    change (slice_from (recorded ws) (-1 + 1)) with (recorded ws).
    repeat split; try apply is_empty_snoc. exact Hblank. }
  rewrite Hc. reflexivity.
Qed.

(** ** Lines that start with a marker *)

Lemma notfortran_not_blank n (y : str) :
  NOTFORTRAN_LINE_RE (firstn n y) = true -> is_space (hd nl y) = false.
Proof.
  unfold NOTFORTRAN_LINE_RE, FYPP_LINE_RE, CPP_RE, COMMENT_LINE_RE.
  destruct y as [| c1 y]; [rewrite firstn_nil; discriminate |].
  destruct n as [| n]; [discriminate |].
  cbn [firstn hd]. intros H.
  destruct (Ascii.eqb c1 "#") eqn:E1;
    [apply Ascii.eqb_eq in E1; subst c1; reflexivity |].
  destruct (Ascii.eqb c1 "$") eqn:E2;
    [apply Ascii.eqb_eq in E2; subst c1; reflexivity |].
  destruct (Ascii.eqb c1 "@") eqn:E3;
    [apply Ascii.eqb_eq in E3; subst c1; reflexivity |].
  destruct (Ascii.eqb c1 "!") eqn:E4;
    [apply Ascii.eqb_eq in E4; subst c1; reflexivity |].
  destruct (firstn n y) as [| c2 t]; simpl in H; discriminate.
Qed.

(** Lines 220-264 on a queued line that starts with a marker, no template
    continuation pending. *)
Lemma consume_marker_line self l d lb ep wo :
  line_buffer self = (d ++ [nl]) :: lb ->
  endpos self = (-1)%Z :: ep ->
  what_omp self = [] :: wo ->
  no_newline d = true ->
  NOTFORTRAN_LINE_RE (firstn 2 (d ++ [nl])) = true ->
  fypp_cont l = false -> joined_line l = [] ->
  consume self l
  = Done ({| line_buffer := lb; infile := infile self;
             line_nr := line_nr self; endpos := ep; what_omp := wo |},
          {| joined_line := [];
             comments := comments l ++ [d];
             lines := lines l ++ [d ++ [nl]];
             continuation := continuation l;
             fypp_cont := FYPP_LINE_RE (firstn 2 (d ++ [nl]))
                          && endswith (strip d) "&";
             string_iter := string_iter l |},
          if continuation l
             || (FYPP_LINE_RE (firstn 2 (d ++ [nl]))
                 && endswith (strip d) "&")
          then Again else BreakComplete).
Proof.
  intros Hb He Hw Hn Hnf Hf Hj.
  destruct (FYPP_LINE_RE (firstn 2 (d ++ [nl]))) eqn:Hfl.
  - assert (Hd : forallb is_space d = false).
    { pose proof (fypp_line_not_blank 2 _ Hfl) as Hx.
      rewrite forallb_app in Hx. cbn [forallb] in Hx.
      change (is_space nl) with true in Hx. cbn [andb] in Hx.
      rewrite andb_true_r in Hx. exact Hx. }
    rewrite (consume_comment_only self l d lb ep wo Hb He Hw Hn Hd);
      [reflexivity | rewrite Hnf; reflexivity | rewrite Hfl; reflexivity
       | exact Hj].
  - unfold consume. rewrite Hb, He, Hw, Hj, Hf.
    rewrite (is_empty_snoc d nl).
    change (-1 + 1)%Z with (Z.of_nat 0).
    change (-1 + 3)%Z with (Z.of_nat 0 + 2)%Z.
    rewrite char2_window. cbn [skipn].
    change (slice_to (d ++ [nl]) (Z.of_nat 0)) with (@nil ascii).
    change (slice_from (d ++ [nl]) (Z.of_nat 0)) with (d ++ [nl]).
    rewrite Hnf. cbn [orb]. unfold next_fypp_cont.
    rewrite (is_empty_snoc d nl), Hfl.
    rewrite (rstrip_by_snoc (Ascii.eqb nl) d nl eq_refl).
    rewrite (rstrip_newline_id d Hn). cbn [orb andb].
    destruct (continuation l); reflexivity.
Qed.

(** X26. A line that starts with a marker is returned as a comment. When
    the queues are empty and the next line, with no sentinel, starts with
    an exclamation mark, a preprocessor directive or a template line
    directive that does not end in [&], one call returns the empty joined
    text, the one comment that is the line without its newline, whatever
    the line holds behind the marker, and the line as read; the queues
    are empty again and [line_nr] is one more. *)
Theorem X26_line_that_starts_with_a_marker :
  forall (body rest : str) (self : InputStream) (fuel : nat),
    NOTFORTRAN_LINE_RE (firstn 2 (recorded body)) = true ->
    no_newline body = true ->
    OMP_SUBS_RE (recorded body) = None ->
    FYPP_LINE_RE (expand_tabs body) && continued body = false ->
    line_buffer self = [] -> endpos self = [] -> what_omp self = [] ->
    infile self = body ++ nl :: rest ->
    next_fortran_line (S fuel) self
    = Done (([], [expand_tabs body], [recorded body]),
            {| line_buffer := []; infile := rest;
               line_nr := line_nr self + 1; endpos := []; what_omp := [] |}).
Proof.
  intros body rest self fuel Hnf Hn Homp Hcont Hb He Hw Hin.
  unfold next_fortran_line. cbn [while_loop].
  unfold iteration. rewrite Hb. cbn [is_empty].
  unfold refill. rewrite Hin, (readline_line body rest Hn).
  rewrite expand_tabs_app.
  change (expand_tabs [nl]) with [nl]. fold (recorded body).
  rewrite Homp.
  destruct (recorded body) as [| m r] eqn:Hrec;
    [unfold recorded in Hrec; destruct (expand_tabs body); discriminate |].
  match goal with
  | |- context [queue_segments ?st _ _ _ ?it] =>
      destruct (queue_segments_marker_line st m r [] it Hnf)
        as (it1 & E & _); [reflexivity | reflexivity |]
  end.
  change (fypp_cont locals_init) with false. rewrite E, <- Hrec.
  unfold recorded.
  rewrite (consume_marker_line _ _ (expand_tabs body) [] [] []);
    cbn [append_segment line_buffer endpos what_omp set_string_iter
         fypp_cont joined_line];
    rewrite ?Hb, ?He, ?Hw; try reflexivity.
  - assert (Hfl : FYPP_LINE_RE (firstn 2 (expand_tabs body ++ [nl]))
                  && endswith (strip (expand_tabs body)) "&" = false).
    { destruct (FYPP_LINE_RE (firstn 2 (expand_tabs body ++ [nl]))) eqn:Hf;
        [| reflexivity].
      cbn [andb]. fold (continued body).
      assert (Hf' : FYPP_LINE_RE (expand_tabs body) = true).
      { destruct (expand_tabs body) as [| a [| b t]];
          [discriminate | | exact Hf].
        exfalso. revert Hf. cbn [app firstn FYPP_LINE_RE].
        change (Ascii.eqb nl "!") with false.
        change (Ascii.eqb nl ":") with false.
        rewrite !andb_false_r. discriminate. }
      rewrite Hf' in Hcont. exact Hcont. }
    cbn [locals_init continuation comments lines infile line_nr app orb].
    rewrite Hfl. reflexivity.
  - apply expand_tabs_no_newline, Hn.
  - rewrite <- Hrec in Hnf. exact Hnf.
Qed.

(** ** A literal longer than the room *)

Lemma expand_tabs_without q x :
  is_quote q = true -> existsb (Ascii.eqb q) x = false ->
  existsb (Ascii.eqb q) (expand_tabs x) = false.
Proof.
  intros Hq. induction x as [| c r IH]; intros H; [reflexivity |].
  cbn [existsb] in H. apply orb_false_elim in H. destruct H as [Hc Hr].
  rewrite expand_tabs_cons, existsb_app, (IH Hr), orb_false_r.
  destruct (Ascii.eqb c tab).
  - unfold is_quote in Hq. apply orb_prop in Hq.
    destruct Hq as [Hq | Hq]; apply Ascii.eqb_eq in Hq; subst q;
      reflexivity.
  - cbn [existsb]. rewrite Hc. reflexivity.
Qed.

Lemma expand_tabs_grows x : (length x <= length (expand_tabs x))%nat.
Proof.
  induction x as [| c r IH]; [apply Nat.le_refl |].
  rewrite expand_tabs_cons, length_app. cbn [length].
  destruct (Ascii.eqb c tab); cbn [repeat length]; lia.
Qed.

Lemma quote_not_code q :
  is_quote q = true ->
  is_space q = false /\ Ascii.eqb q "!" = false /\ Ascii.eqb q tab = false /\
  Ascii.eqb q nl = false.
Proof.
  intros Hq. unfold is_quote in Hq. apply orb_prop in Hq.
  destruct Hq as [Hq | Hq]; apply Ascii.eqb_eq in Hq; subst q;
    repeat split.
Qed.

(** A line that reaches a quote through ordinary characters carries no
    sentinel. *)
Lemma quote_no_sentinel a q t :
  forallb ordinary a = true -> is_quote q = true ->
  OMP_SUBS_RE (a ++ q :: t) = None.
Proof.
  intros Ha Hq. unfold OMP_SUBS_RE.
  destruct (quote_not_code q Hq) as (H1 & H2 & _).
  induction a as [| c a IH].
  - cbn [app lstrip_by]. rewrite H1.
    destruct t; [reflexivity |]. rewrite H2. reflexivity.
  - cbn [forallb] in Ha. apply andb_prop in Ha. destruct Ha as [Hc Ha].
    cbn [app lstrip_by]. destruct (is_space c); [apply IH, Ha |].
    destruct (a ++ q :: t) eqn:E; [destruct a; discriminate |].
    destruct (ordinary_window c [] Hc) as (_ & Hnf & _).
    cbn [firstn] in Hnf. unfold NOTFORTRAN_LINE_RE in Hnf.
    apply orb_false_elim in Hnf. destruct Hnf as [_ Hx].
    cbn [COMMENT_LINE_RE] in Hx. rewrite Hx. reflexivity.
Qed.

(** X28. A string literal longer than the room makes the call raise
    [RecursionError]. Take a physical line that starts with ordinary
    characters [a] (no quote and none of [!], [#], [$], [@]), followed by
    a string literal with delimiter [q] and body [b], and then anything
    [c]. When calls of [__next__] may not nest two deeper than [b] has
    characters, the call of [next_fortran_line] that reads the line, with
    nothing queued, raises [RecursionError] in the scan of line 192. *)
Theorem X28_long_literal_raises :
  forall (a b c rest : str) (q : ascii) (self : InputStream) (fuel : nat),
    forallb ordinary a = true -> no_newline a = true ->
    is_quote q = true ->
    existsb (Ascii.eqb q) b = false -> no_newline b = true ->
    no_newline c = true ->
    (limit < length b + 2)%nat ->
    line_buffer self = [] ->
    infile self = a ++ q :: b ++ q :: c ++ nl :: rest ->
    next_fortran_line (S fuel) self = RecursionError.
Proof.
  intros a b c rest q self fuel Ha Hna Hq Hb Hnb Hnc Hroom Hlb Hin.
  destruct (quote_not_code q Hq) as (_ & _ & Hqt & Hqn).
  set (A := expand_tabs a). set (B := expand_tabs b).
  set (C := expand_tabs c).
  assert (Hread : readline (infile self)
                  = ((a ++ q :: b ++ q :: c) ++ [nl], rest)).
  { rewrite Hin.
    replace (a ++ q :: b ++ q :: c ++ nl :: rest)
      with ((a ++ q :: b ++ q :: c) ++ nl :: rest)
      by (rewrite <- app_assoc; cbn [app]; rewrite <- app_assoc;
          reflexivity).
    apply readline_line.
    assert (G : forall x, no_newline x = true ->
                          no_newline (q :: x) = true).
    { intros x Hx. cbn [no_newline forallb]. rewrite Hqn. exact Hx. }
    rewrite no_newline_app, Hna. apply G.
    rewrite no_newline_app, Hnb. apply G, Hnc. }
  assert (Hline : expand_tabs ((a ++ q :: b ++ q :: c) ++ [nl])
                  = A ++ q :: B ++ q :: C ++ [nl]).
  { rewrite !expand_tabs_app, expand_tabs_cons, Hqt, expand_tabs_app,
      expand_tabs_cons, Hqt. cbn [app]. rewrite <- !app_assoc.
    cbn [app]. rewrite <- !app_assoc. reflexivity. }
  unfold next_fortran_line. cbn [while_loop].
  unfold iteration. rewrite Hlb. cbn [is_empty].
  unfold refill. rewrite Hread, Hline.
  rewrite (quote_no_sentinel A q _ (expand_tabs_ordinary a Ha) Hq).
  unfold queue_segments.
  set (L := A ++ q :: B ++ q :: C ++ [nl]).
  set (st0 := update (string_iter locals_init) L true true).
  assert (E : iterate st0 = None).
  { unfold iterate.
    rewrite (iterate_rounds _ st0 (length A + S (length L)));
      [| unfold rounds; simpl; lia | simpl; lia].
    rewrite (iterate_ordinary_prefix A _ st0 (q :: B ++ q :: C ++ [nl]));
      [| reflexivity | apply expand_tabs_ordinary, Ha | reflexivity
       | reflexivity].
    rewrite iterate_raises; [reflexivity |].
    apply (next_string_raises _ _ q B (C ++ [nl])); try reflexivity.
    - cbn [set_it _it _content st0 update Nat.add]. unfold L.
      rewrite skipn_app, Nat.sub_diag, skipn_all. reflexivity.
    - exact Hq.
    - apply expand_tabs_without; assumption.
    - pose proof (expand_tabs_grows b). fold B in H. lia. }
  rewrite E. reflexivity.
Qed.

End Interpreter.

(** * Instances

    The properties above at particular inputs, with room for a thousand
    nested calls where the room plays a part. *)

(** C10 as stated fails: [filter_all] is not total. With room for a
    thousand nested calls, a quote followed by a thousand other characters
    makes it raise [RecursionError]. *)
Lemma C10_long_string_raises :
  filter_all 1000 (CharFilter_init ("'" :: repeat "a" 1000) true true) = None.
Proof.
  unfold filter_all, filter_all_.
  change (iterate_ 1000 (rounds (CharFilter_init ("'" :: repeat "a" 1000)
                                   true true))
            (CharFilter_init ("'" :: repeat "a" 1000) true true))
    with (iterate 1000 (CharFilter_init ("'" :: repeat "a" 1000) true true)).
  rewrite (long_string_raises 1000 "'" (repeat "a" 1000) true);
    [reflexivity | reflexivity | reflexivity |].
  rewrite repeat_length. apply Nat.le_refl.
Qed.

Lemma C10_witness :
  exists out,
    filter_all 1000 (CharFilter_init (s "a = 'b' ! c") true true) = Some out /\
    (length out <= length (s "a = 'b' ! c"))%nat.
Proof.
  apply (proj1 (proj2 (proj2 (C10_filter_all_terminates 1000
                                (s "a = 'b' ! c") true true)))).
  right. vm_compute. lia.
Defined.

(** ** C6 *)

(** C6, evaluated. The second character of a closing marker is scanned as
    a character of code: in [a#{x}# y] the [#] of [}#], followed by a
    blank, matches the preprocessor pattern and opens a comment. With both
    filters on the scan stops there and the text after the span is lost;
    with only comments filtered the closing [#] is not emitted; with only
    strings filtered the span is removed, and the comment marker is set.
    The scans that filter strings nest four calls. *)
Theorem C6_closing_marker_opens_comment :
  forall limit,
    (4 <= limit)%nat ->
    filter_all limit (CharFilter_init (s "a#{x}# y") true true)
    = Some (s "a") /\
    filter_all limit (CharFilter_init (s "a#{x}# y") true false)
    = Some (s "a#{x}") /\
    filter_all limit (CharFilter_init (s "a#{x}# y") false true)
    = Some (s "a y") /\
    option_map (fun r => _incomment (snd r))
      (iterate limit (CharFilter_init (s "a#{x}# y") false true))
    = Some (s "#").
Proof.
  intros limit H.
  do 4 (destruct limit as [| limit]; [lia |]).
  repeat split.
Qed.

Lemma C6_witness :
  filter_all 1000 (CharFilter_init (s "a#{x}# y") true true) = Some (s "a") /\
  filter_all 1000 (CharFilter_init (s "a#{x}# y") true false)
  = Some (s "a#{x}") /\
  filter_all 1000 (CharFilter_init (s "a#{x}# y") false true)
  = Some (s "a y") /\
  option_map (fun r => _incomment (snd r))
    (iterate 1000 (CharFilter_init (s "a#{x}# y") false true))
  = Some (s "#").
Proof. apply (C6_closing_marker_opens_comment 1000). lia. Defined.

(** ** C1 *)

(** C1, evaluated. The recorded physical lines are not always the input.
    The sentinel of a continuation line is dropped when the line before it
    carried a comment: the scanner is still in comment state, nothing is
    queued by the two scans, and line 217 queues the line with an empty
    sentinel where lines 196, 204 and 211 queue [what_omp]. An indented
    sentinel is recorded in front of the indentation. The text after a
    semicolon is dropped when the rest of the line ends inside a string,
    or holds an interpolation span closed by [}#]. After a template line
    directive that is continued, a line with a semicolon and a comment is
    queued twice. In each case the stream is exhausted and the recorded
    lines differ from the input. *)
Theorem C1_recorded_lines_differ :
  forall limit,
    (4 <= limit)%nat ->
    (physical_lines limit 2 3
       (InputStream_init (s "x = a & ! c" ++ [nl] ++ s "!$  + b" ++ [nl]))
     = Done ([s "x = a & ! c" ++ [nl]; s "  + b" ++ [nl]],
             {| line_buffer := []; infile := []; line_nr := 3; endpos := [];
                what_omp := [] |}) /\
     concat [s "x = a & ! c" ++ [nl]; s "  + b" ++ [nl]]
     <> expand_tabs (s "x = a & ! c" ++ [nl] ++ s "!$  + b" ++ [nl])) /\
    (physical_lines limit 2 2
       (InputStream_init (s " !$omp parallel" ++ [nl]))
     = Done ([s "!$omp  parallel" ++ [nl]],
             {| line_buffer := []; infile := []; line_nr := 2; endpos := [];
                what_omp := [] |}) /\
     concat [s "!$omp  parallel" ++ [nl]]
     <> expand_tabs (s " !$omp parallel" ++ [nl])) /\
    (physical_lines limit 2 2 (InputStream_init (s "a;b 'c" ++ [nl]))
     = Done ([s "a;"],
             {| line_buffer := []; infile := []; line_nr := 2; endpos := [];
                what_omp := [] |}) /\
     concat [s "a;"] <> expand_tabs (s "a;b 'c" ++ [nl])) /\
    (physical_lines limit 2 2 (InputStream_init (s "a;b #{x}# c" ++ [nl]))
     = Done ([s "a;"],
             {| line_buffer := []; infile := []; line_nr := 2; endpos := [];
                what_omp := [] |}) /\
     concat [s "a;"] <> expand_tabs (s "a;b #{x}# c" ++ [nl])) /\
    (physical_lines limit 4 3
       (InputStream_init (s "a;b #:x &" ++ [nl] ++ s "c;d !e" ++ [nl]))
     = Done ([s "a;"; s "b #:x &" ++ [nl]; s "c;"; s "c;d !e" ++ [nl]],
             {| line_buffer := []; infile := []; line_nr := 4; endpos := [];
                what_omp := [] |}) /\
     concat [s "a;"; s "b #:x &" ++ [nl]; s "c;"; s "c;d !e" ++ [nl]]
     <> expand_tabs (s "a;b #:x &" ++ [nl] ++ s "c;d !e" ++ [nl])).
Proof.
  intros limit H.
  do 4 (destruct limit as [| limit]; [lia |]).
  repeat split; try (vm_compute; reflexivity); vm_compute; discriminate.
Qed.

Lemma C1_witness :
  physical_lines 1000 2 3
    (InputStream_init (s "x = a & ! c" ++ [nl] ++ s "!$  + b" ++ [nl]))
  = Done ([s "x = a & ! c" ++ [nl]; s "  + b" ++ [nl]],
          {| line_buffer := []; infile := []; line_nr := 3; endpos := [];
             what_omp := [] |}) /\
  concat [s "x = a & ! c" ++ [nl]; s "  + b" ++ [nl]]
  <> expand_tabs (s "x = a & ! c" ++ [nl] ++ s "!$  + b" ++ [nl]).
Proof.
  apply (proj1 (C1_recorded_lines_differ 1000 ltac:(lia))).
Defined.

Lemma X16_witness :
  exists self1 it1,
    queue_segments 1000 (InputStream_init []) (s " + 2; y = 3" ++ [nl]) []
      false
      {| _content := s "x = 1 & ! c" ++ [nl]; _it := 9%nat; _instring := [];
         _infypp := false; _incomment := s "!"; _filter_comments := true;
         _filter_strings := true |}
    = Some (self1, it1).
Proof.
  apply (proj2 (X16_in_comment_state_line_is_queued_whole 1000
                  (InputStream_init []) (s " + 2; y = 3" ++ [nl]) [] false
                  {| _content := s "x = 1 & ! c" ++ [nl]; _it := 9%nat;
                     _instring := []; _infypp := false; _incomment := s "!";
                     _filter_comments := true; _filter_strings := true |}
                  eq_refl eq_refl eq_refl)).
  right. vm_compute. lia.
Defined.

Lemma X27_witness :
  exists ls self',
    physical_lines 1000 20 21
      (InputStream_init (s "x = 'a' ! c" ++ [nl] ++ s "a=1;b=2" ++ [nl]))
    = Done (ls, self') /\
    concat ls ++ pending self'
    = expand_tabs (s "x = 'a' ! c" ++ [nl] ++ s "a=1;b=2" ++ [nl]) /\
    ((length (expand_tabs (s "x = 'a' ! c" ++ [nl] ++ s "a=1;b=2" ++ [nl]))
      <= 20)%nat ->
     concat ls = expand_tabs (s "x = 'a' ! c" ++ [nl] ++ s "a=1;b=2" ++ [nl])).
Proof.
  apply (X27_round_trip_on_plain_input 1000
           (s "x = 'a' ! c" ++ [nl] ++ s "a=1;b=2" ++ [nl]));
    [reflexivity | vm_compute; lia | vm_compute; lia].
Defined.

Lemma X28_witness :
  next_fortran_line 1000 1
    (InputStream_init (s "x = " ++ "'" :: repeat "a" 999 ++ "'" :: [nl]))
  = RecursionError.
Proof.
  apply (X28_long_literal_raises 1000 (s "x = ") (repeat "a" 999) [] []
           "'" _ 0); try reflexivity.
  vm_compute; lia.
Defined.

(** ** More room *)

Lemma next_call_room limit limit' self r :
  (limit <= limit')%nat ->
  __next__ limit self = Some r -> __next__ limit' self = Some r.
Proof.
  intros Hl H. unfold __next__ in *. apply (next_fuel _ _ _ _ H). lia.
Qed.

Lemma iterate_room limit limit' fuel :
  (limit <= limit')%nat ->
  forall self x,
    iterate_ limit fuel self = Some x -> iterate_ limit' fuel self = Some x.
Proof.
  intros Hl. induction fuel as [| fuel IH]; intros self x H;
    [discriminate |].
  cbn [iterate_] in *.
  destruct (__next__ limit self) as [r |] eqn:E; [| discriminate].
  rewrite (next_call_room _ _ _ _ Hl E).
  destruct r as [pos char st | st]; [| exact H].
  destruct (iterate_ limit fuel st) as [[ys st'] |] eqn:E2;
    [| discriminate].
  rewrite (IH _ _ E2). exact H.
Qed.

Lemma first_notfortran_room limit limit' fuel line pos :
  (limit <= limit')%nat ->
  forall it x,
    first_notfortran_ limit fuel line pos it = Some x ->
    first_notfortran_ limit' fuel line pos it = Some x.
Proof.
  intros Hl. induction fuel as [| fuel IH]; intros it x H;
    [discriminate |].
  cbn [first_notfortran_] in *.
  destruct (__next__ limit it) as [r |] eqn:E; [| discriminate].
  rewrite (next_call_room _ _ _ _ Hl E).
  destruct r as [pos_add char st | st]; [| exact H].
  cbv zeta in *.
  destruct (NOTFORTRAN_LINE_RE _); [exact H | apply IH, H].
Qed.

Lemma queue_rest_room limit limit' line fc v self1 :
  (limit <= limit')%nat ->
  queue_rest limit line fc v = Some self1 ->
  queue_rest limit' line fc v = Some self1.
Proof.
  intros Hl. unfold queue_rest. cbv zeta.
  destruct (sv_pos v + 1 <? Z.of_nat (length line))%Z; [| auto].
  destruct fc; [auto |].
  unfold first_notfortran.
  match goal with
  | |- context [first_notfortran_ limit ?f ?a ?b ?c] =>
      destruct (first_notfortran_ limit f a b c) as [x |] eqn:E;
        [| discriminate];
        rewrite (first_notfortran_room _ _ _ _ _ Hl _ _ E)
  end.
  auto.
Qed.

Lemma queue_segments_room limit limit' self line omp fc it r :
  (limit <= limit')%nat ->
  queue_segments limit self line omp fc it = Some r ->
  queue_segments limit' self line omp fc it = Some r.
Proof.
  intros Hl. unfold queue_segments, iterate.
  match goal with
  | |- context [iterate_ limit ?f ?a] =>
      destruct (iterate_ limit f a) as [[ys it'] |] eqn:E;
        [| discriminate];
        rewrite (iterate_room _ _ _ Hl _ _ E)
  end.
  match goal with
  | |- context [queue_rest limit ?a ?b ?c] =>
      destruct (queue_rest limit a b c) as [st |] eqn:E2;
        [| discriminate];
        rewrite (queue_rest_room _ _ _ _ _ _ Hl E2)
  end.
  auto.
Qed.

Lemma refill_room limit limit' self fc it r :
  (limit <= limit')%nat ->
  refill limit self fc it = Some r -> refill limit' self fc it = Some r.
Proof.
  intros Hl. unfold refill.
  destruct (readline (infile self)) as [raw rest].
  destruct (OMP_SUBS_RE (expand_tabs raw)) as [w |];
    apply queue_segments_room, Hl.
Qed.

Lemma iteration_room limit limit' self l o :
  (limit <= limit')%nat ->
  iteration limit self l = o -> o <> RecursionError ->
  iteration limit' self l = o.
Proof.
  intros Hl H Hn. unfold iteration in *.
  destruct (is_empty (line_buffer self)); [| exact H].
  destruct (refill limit self (fypp_cont l) (string_iter l))
    as [[st it] |] eqn:E.
  - rewrite (refill_room _ _ _ _ _ _ Hl E). exact H.
  - congruence.
Qed.

Lemma while_loop_room limit limit' fuel :
  (limit <= limit')%nat ->
  forall self l o,
    while_loop limit fuel self l = o -> o <> RecursionError ->
    while_loop limit' fuel self l = o.
Proof.
  intros Hl. induction fuel as [| fuel IH]; intros self l o H Hn;
    [exact H |].
  cbn [while_loop] in *.
  destruct (iteration limit self l) as [[[st l1] f] | | |] eqn:E.
  - rewrite (iteration_room _ _ _ _ _ Hl E) by discriminate.
    destruct f; auto.
  - rewrite (iteration_room _ _ _ _ _ Hl E) by discriminate. exact H.
  - congruence.
  - rewrite (iteration_room _ _ _ _ _ Hl E) by discriminate. exact H.
Qed.

(** X29. More room changes no result. When calls of [__next__] may nest
    deeper, a call of [__next__] that returned a pair or raised
    [StopIteration] does the same, [filter_all] returns the same string
    where it returned one, and a call of [next_fortran_line] that
    returned, or raised [IndexError], ends the same way with the same
    triple and stream. Only [RecursionError] can give way to another
    outcome. *)
Theorem X29_more_room_same_result :
  forall limit limit' : nat,
    (limit <= limit')%nat ->
    (forall self r,
        __next__ limit self = Some r -> __next__ limit' self = Some r) /\
    (forall self out,
        filter_all limit self = Some out ->
        filter_all limit' self = Some out) /\
    (forall fuel self o,
        next_fortran_line limit fuel self = o -> o <> RecursionError ->
        next_fortran_line limit' fuel self = o).
Proof.
  intros limit limit' Hl. split; [| split].
  - intros self r. apply next_call_room, Hl.
  - intros self out. unfold filter_all, filter_all_.
    destruct (iterate_ limit (rounds self) self) as [[ys st] |] eqn:E;
      [| discriminate].
    rewrite (iterate_room _ _ _ Hl _ _ E). auto.
  - intros fuel self o H Hn. unfold next_fortran_line in *.
    destruct (while_loop limit fuel self locals_init)
      as [[st l] | | |] eqn:E.
    + rewrite (while_loop_room _ _ _ Hl _ _ _ E) by discriminate. exact H.
    + rewrite (while_loop_room _ _ _ Hl _ _ _ E) by discriminate. exact H.
    + congruence.
    + rewrite (while_loop_room _ _ _ Hl _ _ _ E) by discriminate. exact H.
Qed.

Lemma X29_witness :
  filter_all 1000 (CharFilter_init (s "a 'b' c") true true)
  = Some (s "a  c").
Proof.
  apply (proj1 (proj2 (X29_more_room_same_result 3 1000 ltac:(lia)))).
  reflexivity.
Defined.

Example filter_all_quotes :
  filter_all 1000 (CharFilter_init (s "a = 'b;c' ; d") true true)
  = Some (s "a =  ; d").
Proof. reflexivity. Qed.

Example filter_all_comment :
  filter_all 1000 (CharFilter_init (s "x = 1 ! note") true true)
  = Some (s "x = 1 ").
Proof. reflexivity. Qed.


(** A string opened in one text still filters the start of the next. *)
Example update_remembers_open_string :
  match iterate 1000 (CharFilter_init (s "a 'bc") true true) with
  | Some (_, self) => filter_all 1000 (update self (s "de' f") true true)
  | None => None
  end = Some (s " f").
Proof. reflexivity. Qed.

(** The same span closed by [}$] is handled as the markers are meant to
    be. *)
Example interpolation_dollar :
  filter_all 1000 (CharFilter_init (s "a${x}$ y") true true) = Some (s "a y") /\
  filter_all 1000 (CharFilter_init (s "a${x}$ y") true false)
  = Some (s "a${x}$ y").
Proof. repeat split. Qed.

(** C2 as stated fails: the first logical line of [a=1;b=2] keeps its
    semicolon and gets no newline. *)
Lemma C2_first_call_keeps_semicolon :
  joined_of (next_fortran_line 1000 1 (InputStream_init (s "a=1;b=2" ++ [nl])))
  <> Some (s "a=1" ++ [nl]).
Proof. vm_compute. discriminate. Qed.

(** C3 as stated fails: the blank between the sentinel and the directive is
    not in the joined text. *)
Lemma C3_joined_text_differs :
  joined_of
    (next_fortran_line 1000 1 (InputStream_init (s "!$omp parallel" ++ [nl])))
  <> Some (s "!$omp parallel" ++ [nl]).
Proof. vm_compute. discriminate. Qed.

Lemma C4_witness :
  length [s ""; s ""]
  = length [s "x = 1 &" ++ [nl]; s " + 2" ++ [nl]].
Proof.
  eapply (C4_comments_lines_same_length 1000 2
            (InputStream_init (s "x = 1 &" ++ [nl] ++ s " + 2" ++ [nl]))
            (s "x = 1 + 2" ++ [nl])).
  vm_compute. reflexivity.
Defined.

Lemma C8_witness :
  exists self' l',
    while_loop 1000 2 (InputStream_init (s "x = 1 &" ++ [nl])) locals_init
    = Done (self', l') /\
    joined_line l' = s "x = 1 " ++ [nl] /\
    comments l' = [s ""] /\
    lines l' = [s "x = 1 &" ++ [nl]].
Proof.
  refine (proj2 (C8_truncated_continuation_returns 1000 0
                   (InputStream_init (s "x = 1 &" ++ [nl])) locals_init
                   {| line_buffer := []; infile := []; line_nr := 1;
                      endpos := []; what_omp := [] |}
                   {| joined_line := s "x = 1 " ++ [nl];
                      comments := [s ""];
                      lines := [s "x = 1 &" ++ [nl]];
                      continuation := true; fypp_cont := false;
                      string_iter :=
                        {| _content := s "x = 1 &" ++ [nl]; _it := 8%nat;
                           _instring := []; _infypp := false;
                           _incomment := []; _filter_comments := true;
                           _filter_strings := true |} |}
                   _ _ _)); reflexivity.
Defined.

(** C7 as stated fails: a comment line is a non-empty physical line, and
    the call that reads it returns an empty joined text. *)
Lemma C7_comment_line_gives_empty_joined_text :
  next_fortran_line 1000 1 (InputStream_init (s "! note" ++ [nl]))
  = Done (([], [s "! note"], [s "! note" ++ [nl]]),
          {| line_buffer := []; infile := []; line_nr := 1; endpos := [];
             what_omp := [] |}).
Proof. vm_compute. reflexivity. Qed.

Lemma C7_witness :
  exists self',
    next_fortran_line 1000 1 (InputStream_init []) = Done (([], [], []), self').
Proof.
  apply (proj1 (C7_end_of_input 1000) 0%nat (InputStream_init []));
    reflexivity.
Defined.

Lemma C5_witness :
  iterate 1000 (update (CharFilter_init [] true true) (s "a;'b;c'") true true)
  = Some ([(0%nat, "a"); (1%nat, ";")],
          {| _content := s "a;'b;c'"; _it := 7%nat; _instring := [];
             _infypp := false; _incomment := []; _filter_comments := true;
             _filter_strings := true |}) /\
  nth_error (s "a;'b;c'") 4 = Some ";" /\
  forall char, ~ In (4%nat, char) [(0%nat, "a"); (1%nat, ";")].
Proof.
  split; [reflexivity |]. split; [reflexivity |].
  refine (proj1 (proj2 (C5_semicolon_splits_in_code_only 1000
                          (CharFilter_init [] true true) (s "a;'b;c'")
                          _ _ _) 4%nat _ _));
    reflexivity.
Defined.



Lemma X3_witness :
  scan_inv
    {| _content := s "a 'b"; _it := 4%nat; _instring := s "'";
       _infypp := false; _incomment := []; _filter_comments := true;
       _filter_strings := true |} = true.
Proof.
  apply (proj2 (proj2 (proj2 (X3_scan_state_invariant 1000)))
           (CharFilter_init (s "a 'b") true true)
           [(0%nat, "a"); (1%nat, " ")]);
    reflexivity.
Defined.

Lemma X4_witness :
  exists self',
    iterate 1000
      (update
         {| _content := s "x ! c"; _it := 3%nat; _instring := [];
            _infypp := false; _incomment := s "!"; _filter_comments := true;
            _filter_strings := true |}
         (s "y = 1; z = 2") true true) = Some ([], self') /\
    _incomment self' = s "!" /\
    filter_all 1000
      (update
         {| _content := s "x ! c"; _it := 3%nat; _instring := [];
            _infypp := false; _incomment := s "!"; _filter_comments := true;
            _filter_strings := true |}
         (s "y = 1; z = 2") true true) = Some [].
Proof.
  apply (proj2 (X4_comment_state_persists 1000)
           {| _content := s "x ! c"; _it := 3%nat; _instring := [];
              _infypp := false; _incomment := s "!"; _filter_comments := true;
              _filter_strings := true |});
    [reflexivity | right; reflexivity].
Defined.

Lemma X5_witness :
  exists k,
    filter_all 1000 (CharFilter_init (s "x = 1 ! note") true true)
    = Some (firstn k (s "x = 1 ! note")) /\
    (k <= length (s "x = 1 ! note"))%nat /\
    (forall i, (i < k)%nat ->
               NOTFORTRAN_LINE_RE (firstn 2 (skipn i (s "x = 1 ! note")))
               = false) /\
    ((k < length (s "x = 1 ! note"))%nat ->
     NOTFORTRAN_LINE_RE (firstn 2 (skipn k (s "x = 1 ! note"))) = true).
Proof.
  apply (X5_scan_stops_at_first_comment 1000 (s "x = 1 ! note") true);
    reflexivity.
Defined.

Lemma X6_witness :
  filter_all 1000
    (CharFilter_init (s "a = " ++ "'" :: s "b;! c" ++ "'" :: s " ; d")
       true true)
  = Some (s "a = " ++ s " ; d").
Proof.
  apply (X6_quoted_string_is_removed 1000 (s "a = ") (s "b;! c") (s " ; d") "'");
    reflexivity.
Defined.

Lemma X7_witness :
  exists self1 it1,
    queue_segments 1000 (InputStream_init []) (s "a=1; b=2;c" ++ [nl]) (s "!$")
      false (CharFilter_init [] true true) = Some (self1, it1) /\
    line_buffer self1 = [s "a=1;"; s " b=2;"; s "c" ++ [nl]] /\
    endpos self1 = [3; 4; 1]%Z /\
    what_omp self1 = [s "!$"; []; []] /\
    concat (statements (s "a=1; b=2;c" ++ [nl])) = s "a=1; b=2;c" ++ [nl] /\
    _instring it1 = [] /\ _incomment it1 = [].
Proof.
  apply (X7_statements_are_queued_one_by_one 1000 (InputStream_init [])
           (s "a=1; b=2;c" ++ [nl]) (s "!$") false
           (CharFilter_init [] true true));
    reflexivity.
Defined.

Lemma X8_witness :
  exists ws rest,
    s "  !$OMP do" = ws ++ s "!$OMP" ++ rest /\
    forallb is_space ws = true /\
    remove_first (s "!$OMP") (s "  !$OMP do") = ws ++ rest /\
    (s "!$OMP" = ["!"; "$"] \/
     exists o m p,
       s "!$OMP" = ["!"; "$"; o; m; p] /\
       eqb_nocase "o" o && eqb_nocase "m" m && eqb_nocase "p" p = true).
Proof.
  apply (X8_sentinel_is_cut_out (s "  !$OMP do") (s "!$OMP")). reflexivity.
Defined.

Lemma X9_witness :
  consume
    {| line_buffer := [[nl]]; infile := []; line_nr := 2; endpos := [(-1)%Z];
       what_omp := [[]] |}
    {| joined_line := []; comments := [s "#:if x &"];
       lines := [s "#:if x &" ++ [nl]]; continuation := false;
       fypp_cont := true; string_iter := CharFilter_init [] true true |}
  = IndexError.
Proof.
  apply (proj2 (X9_index_error_condition
                  {| line_buffer := [[nl]]; infile := []; line_nr := 2;
                     endpos := [(-1)%Z]; what_omp := [[]] |}
                  {| joined_line := []; comments := [s "#:if x &"];
                     lines := [s "#:if x &" ++ [nl]]; continuation := false;
                     fypp_cont := true;
                     string_iter := CharFilter_init [] true true |}
                  [nl] [] (-1)%Z [] [] []
                  eq_refl eq_refl eq_refl)).
  repeat split.
Defined.


Lemma X10_witness :
  next_fortran_line 1000 300
    (InputStream_init (s "x = 1 & ! c" ++ nl :: s " + 2; y = 3" ++ [nl]))
  <> OutOfFuel /\
  forall fuel',
    (300 <= fuel')%nat ->
    next_fortran_line 1000 fuel'
      (InputStream_init (s "x = 1 & ! c" ++ nl :: s " + 2; y = 3" ++ [nl]))
    = next_fortran_line 1000 300
        (InputStream_init (s "x = 1 & ! c" ++ nl :: s " + 2; y = 3" ++ [nl])).
Proof.
  apply (X10_next_fortran_line_terminates 1000
           (InputStream_init
              (s "x = 1 & ! c" ++ nl :: s " + 2; y = 3" ++ [nl])) 300).
  vm_compute. lia.
Defined.

Lemma X11_witness :
  synced
    {| line_buffer := [s "b=2" ++ [nl]]; infile := []; line_nr := 1;
       endpos := [3%Z]; what_omp := [[]] |}.
Proof.
  apply (proj1 (proj2 (X11_queues_stay_in_step 1000)) 1%nat
           (InputStream_init (s "a=1;b=2" ++ [nl]))
           (s "a=1;", [[]], [s "a=1;"])).
  - split; reflexivity.
  - vm_compute. reflexivity.
Defined.

Lemma X12_witness :
  one_line (s "x = 1 + 2" ++ [nl]) = true /\
  Forall (fun c => no_newline c = true) [s "! c"; s ""] /\
  Forall (fun p => one_line p = true)
    [s "x = 1 & ! c" ++ [nl]; s " + 2" ++ [nl]] /\
  queued_lines
    {| line_buffer := []; infile := []; line_nr := 2; endpos := [];
       what_omp := [] |}.
Proof.
  apply (proj2 (X12_one_line_at_a_time 1000) 2%nat
           (InputStream_init (s "x = 1 & ! c" ++ nl :: s " + 2" ++ [nl]))).
  - split; constructor.
  - vm_compute. reflexivity.
Defined.

Lemma X13_witness :
  next_fortran_line 1000 1 (InputStream_init (s "  x = y + 1 " ++ nl :: s "z = 2"))
  = Done ((s "x = y + 1" ++ [nl], [[]], [s "  x = y + 1 " ++ [nl]]),
          {| line_buffer := []; infile := s "z = 2"; line_nr := 1;
             endpos := []; what_omp := [] |}).
Proof.
  apply (X13_line_of_code 1000 (s "  x = y + 1 ") (s "z = 2")
           (InputStream_init (s "  x = y + 1 " ++ nl :: s "z = 2")) 0);
    reflexivity.
Defined.

Lemma X14_witness :
  next_fortran_line 1000 3
    (InputStream_init
       (s "x = a &" ++ nl :: s "  + b &" ++ nl :: s "  + c" ++ nl
          :: s "y = 1"))
  = Done ((s "x = a + b + c" ++ [nl], [[]; []; []],
           [s "x = a &" ++ [nl]; s "  + b &" ++ [nl]; s "  + c" ++ [nl]]),
          {| line_buffer := []; infile := s "y = 1"; line_nr := 3;
             endpos := []; what_omp := [] |}).
Proof.
  apply (X14_continuation_lines_are_joined 1000
           (s "x = a &") [s "  + b &"] (s "  + c") (s "y = 1")
           (InputStream_init
              (s "x = a &" ++ nl :: s "  + b &" ++ nl :: s "  + c" ++ nl
                 :: s "y = 1")) 3);
    try reflexivity.
  vm_compute. lia.
Defined.

Lemma X15_witness :
  next_fortran_line 1000 1
    (InputStream_init (s "x = 1  ! set; x" ++ nl :: s "y = 2"))
  = Done ((s "x = 1", [s "! set; x"], [s "x = 1  ! set; x" ++ [nl]]),
          {| line_buffer := []; infile := s "y = 2"; line_nr := 1;
             endpos := []; what_omp := [] |}).
Proof.
  apply (X15_line_with_comment 1000 (s "x = 1  ") (s " set; x") (s "y = 2")
           (InputStream_init (s "x = 1  ! set; x" ++ nl :: s "y = 2")) 0);
    reflexivity.
Defined.


(** The whole call: a semicolon on the line that continues a commented
    line does not end the logical line, one on the line that continues
    an uncommented line does. *)
Example semicolon_after_commented_line :
  triple_of
    (next_fortran_line 1000 2
       (InputStream_init (s "x = 1 & ! c" ++ nl :: s " + 2; y = 3" ++ [nl])))
  = Some (s "x = 1 + 2; y = 3" ++ [nl], [s "! c"; []],
          [s "x = 1 & ! c" ++ [nl]; s " + 2; y = 3" ++ [nl]]) /\
  triple_of
    (next_fortran_line 1000 2
       (InputStream_init (s "x = 1 &" ++ nl :: s " + 2; y = 3" ++ [nl])))
  = Some (s "x = 1 + 2;", [[]; []], [s "x = 1 &" ++ [nl]; s " + 2;"]).
Proof. split; vm_compute; reflexivity. Qed.

Lemma X18_witness :
  filter_all 1000 (CharFilter_init (s "#ifdef A; x = 1") false true)
  = Some (s "#ifdef A; x = 1").
Proof.
  apply (X18_text_without_string_opener 1000 (s "#ifdef A; x = 1") true).
  reflexivity.
Defined.

Lemma X19_witness :
  calls 1000 3 1 (InputStream_init (s "a = 1; b = 2 ;c" ++ nl :: s "d"))
  = Done ([(s "a = 1;", [[]], [s "a = 1;"]);
           (s "b = 2 ;", [[]], [s " b = 2 ;"]);
           (s "c" ++ [nl], [[]], [s "c" ++ [nl]])],
          {| line_buffer := []; infile := s "d"; line_nr := 1; endpos := [];
             what_omp := [] |}).
Proof.
  apply (X19_statements_one_per_call 1000 (s "a = 1; b = 2 ;c") (s "d")
           (InputStream_init (s "a = 1; b = 2 ;c" ++ nl :: s "d")) 0);
    reflexivity.
Defined.


Lemma X21_witness :
  filter_all 1000
    (CharFilter_init
       (s "a = " ++ "$" :: "{" :: s "f('x') ! y" ++ "}" :: "$" :: s " + 1")
       true true)
  = Some (s "a = " ++ s " + 1").
Proof.
  apply (X21_interpolation_span_is_removed 1000 (s "a = ") (s "f('x') ! y")
           (s " + 1") "$" "$" true);
    reflexivity.
Defined.

Lemma X22_witness :
  exists st,
    iterate 1000 (CharFilter_init (s "x = " ++ "'" :: s "ab;") true true)
    = Some (enum_from 0 (s "x = "), st) /\
    _instring st = ["'"] /\
    filter_all 1000 (update st (s "cd!" ++ "'" :: s " ; y") true true)
    = Some (s " ; y").
Proof.
  apply (proj1 (X22_string_open_across_update 1000 (s "x = ") (s "ab;")
                  (s "cd!") (s " ; y") "'" true true
                  eq_refl eq_refl eq_refl eq_refl eq_refl));
    vm_compute; lia.
Defined.

Lemma X23_witness :
  (1 + Z.of_nat (count_lines (s "b = 2" ++ nl :: s "c = 3"))
   = 0 + Z.of_nat (count_lines (s "a = 1" ++ nl :: s "b = 2" ++ nl
                                  :: s "c = 3")))%Z \/
  (s "b = 2" ++ nl :: s "c = 3" = [] /\
   1%Z
   = (0 + Z.of_nat (count_lines (s "a = 1" ++ nl :: s "b = 2" ++ nl
                                   :: s "c = 3")) + 1)%Z).
Proof.
  apply (X23_line_number_counts_reads 1000 1
           (InputStream_init (s "a = 1" ++ nl :: s "b = 2" ++ nl
                                :: s "c = 3"))
           (s "a = 1" ++ [nl], [[]], [s "a = 1" ++ [nl]])
           {| line_buffer := []; infile := s "b = 2" ++ nl :: s "c = 3";
              line_nr := 1; endpos := []; what_omp := [] |}).
  vm_compute. reflexivity.
Defined.

Lemma X24_witness :
  next_fortran_line 1000 2
    (InputStream_init
       (s "#:if defined('A') &" ++ nl :: s "  & and B; 'c" ++ nl
          :: s "x = 1"))
  = Done (([], [s "#:if defined('A') &"; s "  & and B; 'c"],
           [s "#:if defined('A') &" ++ [nl]; s "  & and B; 'c" ++ [nl]]),
          {| line_buffer := []; infile := s "x = 1"; line_nr := 2;
             endpos := []; what_omp := [] |}).
Proof.
  apply (X24_template_directive_lines 1000 (s "#:if defined('A') &")
           [s "  & and B; 'c"] (s "x = 1")
           (InputStream_init
              (s "#:if defined('A') &" ++ nl :: s "  & and B; 'c" ++ nl
                 :: s "x = 1")) 2);
    try reflexivity.
  vm_compute. lia.
Defined.

Lemma X25_witness :
  next_fortran_line 1000 2
    (InputStream_init (s "#:if x &" ++ nl :: s "  " ++ nl :: s "y = 1"))
  = IndexError.
Proof.
  apply (X25_blank_line_after_continued_directive 1000 (s "#:if x &") (s "  ")
           (s "y = 1")
           (InputStream_init (s "#:if x &" ++ nl :: s "  " ++ nl
                                :: s "y = 1")) 0);
    reflexivity.
Defined.

Lemma X26_witness :
  next_fortran_line 1000 1
    (InputStream_init (s "#ifdef A; 'b" ++ nl :: s "x = 1"))
  = Done (([], [s "#ifdef A; 'b"], [s "#ifdef A; 'b" ++ [nl]]),
          {| line_buffer := []; infile := s "x = 1"; line_nr := 1;
             endpos := []; what_omp := [] |}).
Proof.
  apply (X26_line_that_starts_with_a_marker 1000 (s "#ifdef A; 'b") (s "x = 1")
           (InputStream_init (s "#ifdef A; 'b" ++ nl :: s "x = 1")) 0);
    reflexivity.
Defined.
